(** * chatapp: data ingestion, enrichment, intent routing, analytic tools

    A shallow embedding of the parts of the repository whose properties
    are stated here:

    - [src/services/csvTools.js]: [parseLine], [parseCsvToRows],
      [resolveCol], [numericValues], [median], [fmt], [buildSlimCsv],
      [enrichWithEngagement], the lines of [computeDatasetSummary], and
      the cases of [executeTool];
    - [src/components/Chat.js]: the routing-intent block of [handleSend],
      [toBase64], [parseCSV], [loadJsonAsRows] and what the handlers of a
      dropped file store of a CSV file;
    - [server/index.js]: [replicateRunWithRetry] and the limit of
      [/api/youtube-download];
    - [server/youtubeDownload.js]: [parseChannelUrl];
    - the client of the channel download: the reading of the stream in
      [downloadChannelData].

    Conventions of the embedding.

    - A JavaScript string is a Rocq [string]: a sequence of code units,
      here restricted to the code units below 256, on which the lower
      case of a character does not depend on its neighbours.
    - A JavaScript Number is an IEEE-754 binary64 value, modelled by the
      [spec_float] of the standard library at precision 53 and maximal
      exponent 1024 (round to nearest, ties to even), so that rounding,
      overflow, infinities and NaN behave as they do in the program.
    - A JavaScript object is an association list in insertion order; its
      enumeration order ([Object.keys], [Object.entries], spread) lists
      the array-index keys first, in ascending numeric order, then the
      other keys in insertion order. An object has its own properties
      only: what it inherits from [Object.prototype] is left out. The
      names concerned are those of [JS.inherited]; the properties
      that the read or the write of such a name would change exclude
      it.
    - A row holds primitive values (strings, numbers, booleans, null).
    - An exception is an explicit [Throw] outcome. The limits of an
      engine (stack depth, number of arguments of a call) are left out,
      and so is the logging to the console. *)

From stdpp Require Import gmap strings list.
From Stdlib Require Import ZArith List String Ascii Bool Lia SpecFloat Permutation Sorted.
Import ListNotations.

Local Open Scope Z_scope.
Local Open Scope string_scope.

(** ** JavaScript numbers *)

Module Num.

Definition number : Type := spec_float.

Definition prec : Z := 53.
Definition emax : Z := 1024.

Definition NaN : number := S754_nan.
Definition zero : number := S754_zero false.

Definition add : number -> number -> number := SFadd prec emax.
Definition sub : number -> number -> number := SFsub prec emax.
Definition mul : number -> number -> number := SFmul prec emax.
Definition div : number -> number -> number := SFdiv prec emax.
Definition sqrt : number -> number := SFsqrt prec emax.
Definition ltb : number -> number -> bool := SFltb.
Definition leb : number -> number -> bool := SFleb.
Definition eqb : number -> number -> bool := SFeqb.

(** [isNaN(v)] on a Number. *)
Definition isNaN (x : number) : bool :=
  match x with S754_nan => true | _ => false end.

Definition isZero (x : number) : bool :=
  match x with S754_zero _ => true | _ => false end.

(** The Number nearest to the rational [(-1)^neg * num / den]: the
    division of the standard library rounds the exact quotient of two
    integer significands of any size. *)
Definition ofQ (neg : bool) (num den : positive) : number :=
  SFdiv prec emax (S754_finite neg num 0) (S754_finite false den 0).

Definition ofZ (z : Z) : number :=
  match z with
  | Z0 => S754_zero false
  | Zpos p => ofQ false p 1
  | Zneg p => ofQ true p 1
  end.

Definition ofNat (n : nat) : number := ofZ (Z.of_nat n).

(** The Number denoted by the decimal literal [(-1)^neg * m * 10^e]. *)
Definition ofDecimal (neg : bool) (m : Z) (e : Z) : number :=
  match m with
  | Zpos p =>
      match e with
      | Zneg k => ofQ neg p (Pos.pow 10 k)
      | Z0 => ofQ neg p 1
      | Zpos k => ofQ neg (p * Pos.pow 10 k) 1
      end
  | _ => S754_zero neg
  end.

(** [x ** 2], taken as the correctly rounded square. *)
Definition square (x : number) : number := mul x x.

(** [Number(x.toFixed(f))], the composition the program uses ([+x.toFixed(f)]).
    [toFixed] picks the integer [n] with [n / 10^f] nearest to [|x|], the
    larger one on a tie, and prints it with [f] decimals (keeping the sign
    of a negative [x]); at or above [10^21], and for NaN and the
    infinities, it prints the number itself, which reads back unchanged. *)
Definition toFixedNumber (f : nat) (x : number) : number :=
  match x with
  | S754_finite s m e =>
      let scale := Z.pow 10 (Z.of_nat f) in
      let big :=
        match e with
        | Zneg k => Z.leb (Z.pow 10 21 * Z.pow 2 (Zpos k)) (Zpos m)
        | _ => Z.leb (Z.pow 10 21) (Zpos m * Z.pow 2 e)
        end in
      if big then x
      else
        let n :=
          match e with
          | Zneg k => (2 * Zpos m * scale + Z.pow 2 (Zpos k)) / (2 * Z.pow 2 (Zpos k))
          | _ => Zpos m * Z.pow 2 e * scale
          end in
        match n with
        | Zpos p => ofQ s p (Z.to_pos scale)
        | _ => S754_zero s
        end
  | S754_zero _ => S754_zero false
  | _ => x
  end.

(** [Math.min(...vals)] and [Math.max(...vals)], as the language defines
    them: NaN if any argument is NaN, and [-0] below [+0]. *)
Definition min_step (lowest x : number) : number :=
  if isNaN lowest || isNaN x then NaN
  else
    match x, lowest with
    | S754_zero true, S754_zero false => x
    | _, _ => if ltb x lowest then x else lowest
    end.

Definition max_step (highest x : number) : number :=
  if isNaN highest || isNaN x then NaN
  else
    match x, highest with
    | S754_zero false, S754_zero true => x
    | _, _ => if ltb highest x then x else highest
    end.

Definition Math_min (vals : list number) : number :=
  fold_left min_step vals (S754_infinity false).

Definition Math_max (vals : list number) : number :=
  fold_left max_step vals (S754_infinity true).

(** *** Order and sign of numbers *)

Ltac compare_cases :=
  repeat match goal with
  | H : context [Z.compare ?a ?b] |- _ =>
      destruct (Z.compare_spec a b); try discriminate H
  | |- context [Z.compare ?a ?b] => destruct (Z.compare_spec a b)
  | H : context [Pos.compare_cont Eq ?a ?b] |- _ =>
      change (Pos.compare_cont Eq a b) with (Pos.compare a b) in H;
      destruct (Pos.compare_spec a b); try discriminate H
  | |- context [Pos.compare_cont Eq ?a ?b] =>
      change (Pos.compare_cont Eq a b) with (Pos.compare a b);
      destruct (Pos.compare_spec a b)
  end.

Lemma leb_trans (x y z : number) :
  leb x y = true -> leb y z = true -> leb x z = true.
Proof.
  unfold leb, SFleb, SFcompare.
  destruct x as [sx|sx| |sx mx ex], y as [sy|sy| |sy my ey],
    z as [sz|sz| |sz mz ez];
    try destruct sx; try destruct sy; try destruct sz;
    intros H1 H2; try discriminate H1; try discriminate H2; try reflexivity;
    cbn in *; compare_cases; subst; try reflexivity; try lia.
Qed.

Lemma leb_refl (x : number) : isNaN x = false -> leb x x = true.
Proof.
  unfold leb, SFleb, SFcompare.
  destruct x as [sx|sx| |sx mx ex]; try destruct sx; intro H;
    try discriminate H; try reflexivity;
    rewrite Z.compare_refl;
    change (Pos.compare_cont Eq mx mx) with (Pos.compare mx mx);
    rewrite Pos.compare_refl; reflexivity.
Qed.

(** On numbers other than NaN the order is total. *)
Lemma ltb_false_leb (x y : number) :
  isNaN x = false -> isNaN y = false -> ltb x y = false -> leb y x = true.
Proof.
  unfold ltb, leb, SFltb, SFleb, SFcompare.
  destruct x as [sx|sx| |sx mx ex], y as [sy|sy| |sy my ey];
    try destruct sx; try destruct sy;
    intros H1 H2 H3; try discriminate H1; try discriminate H2;
    try discriminate H3; try reflexivity;
    cbn in *; compare_cases; subst; try reflexivity; try lia;
    try discriminate H3.
Qed.

Lemma ltb_leb (x y : number) : ltb x y = true -> leb x y = true.
Proof.
  unfold ltb, leb, SFltb, SFleb.
  destruct (SFcompare x y) as [[| |]|]; intro H; try discriminate H; reflexivity.
Qed.

(** [Math.min] and [Math.max] over numbers other than NaN bound every
    argument. *)
Lemma min_step_spec (lowest x : number) :
  isNaN lowest = false -> isNaN x = false ->
  isNaN (min_step lowest x) = false
  /\ leb (min_step lowest x) lowest = true
  /\ leb (min_step lowest x) x = true.
Proof.
  intros Hl Hx. unfold min_step. rewrite Hl, Hx. cbn [orb].
  assert (isNaN (if ltb x lowest then x else lowest) = false
          /\ leb (if ltb x lowest then x else lowest) lowest = true
          /\ leb (if ltb x lowest then x else lowest) x = true) as Hgen.
  { destruct (ltb x lowest) eqn:E.
    - repeat split; [exact Hx | apply ltb_leb, E | apply leb_refl, Hx].
    - repeat split; [exact Hl | apply leb_refl, Hl
                     | apply ltb_false_leb; assumption]. }
  destruct x as [[|]| | |], lowest as [[|]| | |]; try exact Hgen;
    repeat split; reflexivity.
Qed.

Lemma max_step_spec (highest x : number) :
  isNaN highest = false -> isNaN x = false ->
  isNaN (max_step highest x) = false
  /\ leb highest (max_step highest x) = true
  /\ leb x (max_step highest x) = true.
Proof.
  intros Hh Hx. unfold max_step. rewrite Hh, Hx. cbn [orb].
  assert (isNaN (if ltb highest x then x else highest) = false
          /\ leb highest (if ltb highest x then x else highest) = true
          /\ leb x (if ltb highest x then x else highest) = true) as Hgen.
  { destruct (ltb highest x) eqn:E.
    - repeat split; [exact Hx | apply ltb_leb, E | apply leb_refl, Hx].
    - repeat split; [exact Hh | apply leb_refl, Hh
                     | apply ltb_false_leb; assumption]. }
  destruct x as [[|]| | |], highest as [[|]| | |]; try exact Hgen;
    repeat split; reflexivity.
Qed.

Lemma fold_min_spec (vals : list number) (lowest : number) :
  isNaN lowest = false ->
  Forall (fun x => isNaN x = false) vals ->
  isNaN (fold_left min_step vals lowest) = false
  /\ leb (fold_left min_step vals lowest) lowest = true
  /\ Forall (fun x => leb (fold_left min_step vals lowest) x = true) vals.
Proof.
  intros Hl Hvals. revert lowest Hl.
  induction Hvals as [|x vals Hx _ IH]; intros lowest Hl; cbn [fold_left].
  - repeat split; [exact Hl | apply leb_refl, Hl | constructor].
  - destruct (min_step_spec lowest x Hl Hx) as (Hn & Hle1 & Hle2).
    destruct (IH _ Hn) as (Hn' & Hle' & Hall).
    repeat split; [exact Hn' | eapply leb_trans; eassumption|].
    constructor; [eapply leb_trans; eassumption | exact Hall].
Qed.

Lemma fold_max_spec (vals : list number) (highest : number) :
  isNaN highest = false ->
  Forall (fun x => isNaN x = false) vals ->
  isNaN (fold_left max_step vals highest) = false
  /\ leb highest (fold_left max_step vals highest) = true
  /\ Forall (fun x => leb x (fold_left max_step vals highest) = true) vals.
Proof.
  intros Hh Hvals. revert highest Hh.
  induction Hvals as [|x vals Hx _ IH]; intros highest Hh; cbn [fold_left].
  - repeat split; [exact Hh | apply leb_refl, Hh | constructor].
  - destruct (max_step_spec highest x Hh Hx) as (Hn & Hle1 & Hle2).
    destruct (IH _ Hn) as (Hn' & Hle' & Hall).
    repeat split; [exact Hn' | eapply leb_trans; eassumption|].
    constructor; [eapply leb_trans; eassumption | exact Hall].
Qed.

(** A number that is NaN or has no minus sign. *)
Definition unsigned (x : number) : Prop :=
  match x with
  | S754_nan => True
  | S754_zero s | S754_infinity s | S754_finite s _ _ => s = false
  end.

Lemma unsigned_spec (x : number) :
  unsigned x -> isNaN x = true \/ leb zero x = true.
Proof.
  destruct x as [s|s| |s m e]; cbn; intro H; subst; auto.
Qed.

(** Rounding keeps the sign it is given. *)
Lemma binary_round_aux_sign (s : bool) (m e : Z) (l : location) :
  match binary_round_aux prec emax s m e l with
  | S754_nan => True
  | S754_zero s' | S754_infinity s' | S754_finite s' _ _ => s' = s
  end.
Proof.
  unfold binary_round_aux.
  destruct (shr_fexp prec emax m e l) as [mrs' e'].
  destruct (shr_fexp prec emax _ e' loc_Exact) as [mrs'' e''].
  destruct (shr_m mrs''); [reflexivity | | exact I].
  destruct (Z.leb e'' (emax - prec)); reflexivity.
Qed.

Lemma sqrt_unsigned (x : number) : unsigned (sqrt x) \/ isZero (sqrt x) = true.
Proof.
  destruct x as [s|[|]| |[|] m e]; cbn; auto.
  left. unfold sqrt, SFsqrt.
  destruct (SFsqrt_core_binary prec emax (Z.pos m) e) as [[mz ez] lz].
  pose proof (binary_round_aux_sign false mz ez lz) as H.
  destruct (binary_round_aux prec emax false mz ez lz); exact H.
Qed.

Lemma ofQ_sign (s : bool) (num den : positive) :
  match ofQ s num den with
  | S754_nan => True
  | S754_zero s' | S754_infinity s' | S754_finite s' _ _ => s' = s
  end.
Proof.
  unfold ofQ, SFdiv.
  destruct (SFdiv_core_binary prec emax (Z.pos num) 0 (Z.pos den) 0) as [[mz ez] lz].
  pose proof (binary_round_aux_sign (xorb s false) mz ez lz) as H.
  rewrite xorb_false_r in *.
  destruct (binary_round_aux prec emax s mz ez lz); exact H.
Qed.

(** A number rounded to [f] decimals is unsigned when the number is
    unsigned or a zero. *)
Lemma toFixedNumber_unsigned (f : nat) (x : number) :
  unsigned x \/ isZero x = true -> unsigned (toFixedNumber f x).
Proof.
  intros [H | H].
  - destruct x as [s|s| |s m e]; cbn in H; subst; cbn [toFixedNumber unsigned];
      try reflexivity; try exact I.
    destruct (match e with
              | Z.neg k => Z.leb (10 ^ 21 * 2 ^ Z.pos k) (Z.pos m)
              | _ => Z.leb (10 ^ 21) (Z.pos m * 2 ^ e)
              end); [reflexivity|].
    destruct (match e with
              | Z.neg k => (2 * Z.pos m * 10 ^ Z.of_nat f + 2 ^ Z.pos k)
                           / (2 * 2 ^ Z.pos k)
              | _ => Z.pos m * 2 ^ e * 10 ^ Z.of_nat f
              end) as [|p|p]; try reflexivity.
    pose proof (ofQ_sign false p (Z.to_pos (10 ^ Z.of_nat f))) as Hs.
    destruct (ofQ false p (Z.to_pos (10 ^ Z.of_nat f))); exact Hs.
  - destruct x; try discriminate H. reflexivity.
Qed.

End Num.

Import Num.

(** ** Characters and strings *)

Module Str.

Definition code (c : ascii) : N := N_of_ascii c.

Definition inRange (lo hi : N) (c : ascii) : bool :=
  (N.leb lo (code c) && N.leb (code c) hi)%bool.

(** [\d] *)
Definition isDigit (c : ascii) : bool := inRange 48 57 c.

(** [\s], and the characters removed by [trim]: the white space and line
    terminators below 256. *)
Definition isSpace (c : ascii) : bool :=
  (inRange 9 13 c || N.eqb (code c) 32 || N.eqb (code c) 160)%bool.

(** [\w] *)
Definition isWord (c : ascii) : bool :=
  (inRange 97 122 c || inRange 65 90 c || isDigit c || N.eqb (code c) 95)%bool.

(** The line terminators that [.] does not match. *)
Definition isLineTerminator (c : ascii) : bool :=
  (N.eqb (code c) 10 || N.eqb (code c) 13)%bool.

(** Case folding of the [i] flag, for patterns whose letters are all
    ASCII, as the patterns of the program are: a code unit from 128 on
    never folds onto one below 128, so only the letters a-z matter. *)
Definition canonicalize (c : ascii) : ascii :=
  if inRange 97 122 c then ascii_of_N (code c - 32) else c.

(** [String.prototype.toLowerCase] on a code unit below 256. *)
Definition lowerChar (c : ascii) : ascii :=
  if (inRange 65 90 c || inRange 192 214 c || inRange 216 222 c)%bool
  then ascii_of_N (code c + 32) else c.

Definition chars (s : string) : list ascii := list_ascii_of_string s.
Definition ofChars (l : list ascii) : string := string_of_list_ascii l.

Definition toLowerCase (s : string) : string :=
  ofChars (List.map lowerChar (chars s)).

(** [s.trim()] *)
Fixpoint dropSpaces (l : list ascii) : list ascii :=
  match l with
  | c :: l' => if isSpace c then dropSpaces l' else l
  | [] => []
  end.

Definition trimChars (l : list ascii) : list ascii :=
  rev (dropSpaces (rev (dropSpaces l))).

Definition trim (s : string) : string := ofChars (trimChars (chars s)).

(** [a.join(sep)] on an array of strings. *)
Fixpoint join (sep : string) (l : list string) : string :=
  match l with
  | [] => ""
  | [x] => x
  | x :: l' => x ++ sep ++ join sep l'
  end.

(** [s.split(c)] for a one-character separator: the pieces between the
    separators, a final (possibly empty) piece included. *)
Fixpoint splitAux (sep : ascii) (cur : list ascii) (l : list ascii)
  : list string :=
  match l with
  | [] => [ofChars (rev cur)]
  | c :: l' =>
      if Ascii.eqb c sep then ofChars (rev cur) :: splitAux sep [] l'
      else splitAux sep (c :: cur) l'
  end.

Definition split (sep : ascii) (s : string) : list string :=
  splitAux sep [] (chars s).

(** Decimal digits. *)
Definition digitVal (c : ascii) : Z := Z.of_N (code c) - 48.

Definition digitsToZ (ds : list ascii) : Z :=
  fold_left (fun acc c => 10 * acc + digitVal c) ds 0.

Fixpoint spanDigits (l : list ascii) : list ascii * list ascii :=
  match l with
  | c :: l' =>
      if isDigit c then let '(ds, r) := spanDigits l' in (c :: ds, r)
      else ([], l)
  | [] => ([], [])
  end.

Definition digitChar (d : Z) : ascii := ascii_of_N (Z.to_N (d + 48)).

Fixpoint digitsOfAux (fuel : nat) (n : Z) (acc : list ascii) : list ascii :=
  match fuel with
  | O => acc
  | S fuel' =>
      if Z.ltb n 10 then digitChar n :: acc
      else digitsOfAux fuel' (n / 10) (digitChar (n mod 10) :: acc)
  end.

(** The decimal digits of a natural number ([0] is one digit). *)
Definition digitsOf (n : Z) : list ascii :=
  digitsOfAux (S (Z.to_nat (Z.log2 n))) n [].

Definition showZ (n : Z) : string :=
  if Z.ltb n 0 then String "-" (ofChars (digitsOf (- n)))
  else ofChars (digitsOf n).

Definition showNat (n : nat) : string := showZ (Z.of_nat n).

End Str.

(** ** Regular expressions

    The fragment of the language's regular expressions that the program
    uses, with the backtracking semantics of the language: alternatives
    are tried left to right, quantifiers are greedy, an iteration of [*]
    that consumes nothing is not taken, and the first position at which a
    match starts wins. *)

Module Regex.
Import Str.

Inductive regex : Type :=
| REmpty
| RChar (c : ascii)
| RAny
| RSet (p : ascii -> bool)
| RSeq (a b : regex)
| RAlt (a b : regex)
| RStar (a : regex)
| RBol
| REol
| RWordB
| RGroup (a : regex).

Definition ROpt (a : regex) : regex := RAlt a REmpty.
Definition RPlus (a : regex) : regex := RSeq a (RStar a).

(** A literal word. *)
Fixpoint RLitChars (l : list ascii) : regex :=
  match l with
  | [] => REmpty
  | [c] => RChar c
  | c :: l' => RSeq (RChar c) (RLitChars l')
  end.

Definition RLit (s : string) : regex := RLitChars (chars s).

Fixpoint RSeqs (l : list regex) : regex :=
  match l with
  | [] => REmpty
  | [a] => a
  | a :: l' => RSeq a (RSeqs l')
  end.

Fixpoint RAlts (l : list regex) : regex :=
  match l with
  | [] => RSet (fun _ => false)
  | [a] => a
  | a :: l' => RAlt a (RAlts l')
  end.

(** The state of a match in progress: the position, the character before
    it, the characters from it on, and the spans of the groups closed so
    far (most recent first). *)
Record mstate : Type := MState {
  ms_pos : nat;
  ms_prev : option ascii;
  ms_rest : list ascii;
  ms_caps : list (nat * nat)
}.

Definition advance (st : mstate) (c : ascii) (rest : list ascii) : mstate :=
  MState (S (ms_pos st)) (Some c) rest (ms_caps st).

Definition wordBefore (st : mstate) : bool :=
  match ms_prev st with Some c => isWord c | None => false end.

Definition wordAfter (st : mstate) : bool :=
  match ms_rest st with c :: _ => isWord c | [] => false end.

Definition orElse {A} (x : option A) (y : option A) : option A :=
  match x with Some _ => x | None => y end.

(** [rmatch ci r st k]: match [r] at [st], then continue with [k]; [ci] is
    the [i] flag. *)
Fixpoint rmatch (ci : bool) (r : regex) (st : mstate)
  (k : mstate -> option mstate) {struct r} : option mstate :=
  match r with
  | REmpty => k st
  | RChar c =>
      match ms_rest st with
      | x :: rest =>
          if (if ci then Ascii.eqb (canonicalize x) (canonicalize c)
              else Ascii.eqb x c)
          then k (advance st x rest) else None
      | [] => None
      end
  | RAny =>
      match ms_rest st with
      | x :: rest => if isLineTerminator x then None else k (advance st x rest)
      | [] => None
      end
  | RSet p =>
      match ms_rest st with
      | x :: rest => if p x then k (advance st x rest) else None
      | [] => None
      end
  | RSeq a b => rmatch ci a st (fun st1 => rmatch ci b st1 k)
  | RAlt a b => orElse (rmatch ci a st k) (rmatch ci b st k)
  | RStar a =>
      (fix star (fuel : nat) (st0 : mstate) {struct fuel} : option mstate :=
         match fuel with
         | O => k st0
         | S fuel' =>
             orElse
               (rmatch ci a st0 (fun st1 =>
                  if Nat.ltb (ms_pos st0) (ms_pos st1) then star fuel' st1
                  else None))
               (k st0)
         end) (S (List.length (ms_rest st))) st
  | RBol => match ms_prev st with None => k st | Some _ => None end
  | REol => match ms_rest st with [] => k st | _ :: _ => None end
  | RWordB => if xorb (wordBefore st) (wordAfter st) then k st else None
  | RGroup a =>
      rmatch ci a st (fun st1 =>
        k (MState (ms_pos st1) (ms_prev st1) (ms_rest st1)
             ((ms_pos st, ms_pos st1) :: ms_caps st1)))
  end.

(** The leftmost match, searched from the state [st] on. *)
Fixpoint searchFrom (ci : bool) (r : regex) (pos : nat) (prev : option ascii)
  (rest : list ascii) : option mstate :=
  match rmatch ci r (MState pos prev rest []) Some with
  | Some st => Some st
  | None =>
      match rest with
      | [] => None
      | c :: rest' => searchFrom ci r (S pos) (Some c) rest'
      end
  end.

Definition exec (ci : bool) (r : regex) (s : string) : option mstate :=
  searchFrom ci r O None (chars s).

(** [re.test(s)] *)
Definition test (ci : bool) (r : regex) (s : string) : bool :=
  match exec ci r s with Some _ => true | None => false end.

Definition slice (s : string) (span : nat * nat) : string :=
  ofChars (firstn (snd span - fst span) (skipn (fst span) (chars s))).

(** [s.match(re)[1]] for an expression with a single group: [None] when
    there is no match. *)
Definition matchGroup (ci : bool) (r : regex) (s : string) : option string :=
  match exec ci r s with
  | Some st =>
      match ms_caps st with
      | span :: _ => Some (slice s span)
      | [] => Some ""
      end
  | None => None
  end.

(** [s.replace(re, '')] with the [g] flag: every match, found from left to
    right, is removed; matching resumes where the previous match ended. *)
Fixpoint removeAllFrom (ci : bool) (r : regex) (pos : nat)
  (prev : option ascii) (rest : list ascii) (skip : nat) {struct rest}
  : list ascii :=
  match rest with
  | [] => []
  | c :: rest' =>
      match skip with
      | S skip' => removeAllFrom ci r (S pos) (Some c) rest' skip'
      | O =>
          match rmatch ci r (MState pos prev rest []) Some with
          | Some st =>
              match (ms_pos st - pos)%nat with
              | S len' => removeAllFrom ci r (S pos) (Some c) rest' len'
              | O => c :: removeAllFrom ci r (S pos) (Some c) rest' O
              end
          | None => c :: removeAllFrom ci r (S pos) (Some c) rest' O
          end
      end
  end.

Definition removeAll (ci : bool) (r : regex) (s : string) : string :=
  ofChars (removeAllFrom ci r O None (chars s) O).

End Regex.

Import Str Regex.

(** ** Facts about matching

    What a match of a literal, of a run of characters of a class and of a
    search says about the text matched, for patterns without the [i]
    flag; then which texts a literal, a run, an optional character and a
    search match, with or without the flag. *)

Module Matching.
Local Open Scope list_scope.

Lemma chars_ofChars_list (l : list ascii) : chars (ofChars l) = l.
Proof. apply list_ascii_of_string_of_list_ascii. Qed.

Lemma rmatch_lit (l : list ascii) :
  forall (st : mstate) (k : mstate -> option mstate) (r : mstate),
    rmatch false (RLitChars l) st k = Some r ->
    exists rest' prev',
      ms_rest st = l ++ rest'
      /\ k (MState (ms_pos st + List.length l) prev' rest' (ms_caps st)) = Some r.
Proof.
  induction l as [|c l IH]; intros st k r H.
  - cbn in H. exists (ms_rest st), (ms_prev st). split; [reflexivity|].
    cbn [List.length]. rewrite Nat.add_0_r. destruct st. exact H.
  - assert (Hc : forall k',
              rmatch false (RChar c) st k' = Some r ->
              exists rest', ms_rest st = c :: rest'
                            /\ k' (advance st c rest') = Some r).
    { intros k' H'. cbn [rmatch] in H'.
      destruct (ms_rest st) as [|x rest]; [discriminate H'|].
      destruct (Ascii.eqb x c) eqn:E; [|discriminate H'].
      apply Ascii.eqb_eq in E. subst x. exists rest. split; [reflexivity | exact H']. }
    destruct l as [|d l].
    + destruct (Hc k H) as [rest' [Hr Hk]].
      exists rest', (Some c). split; [exact Hr|].
      cbn [List.length]. rewrite Nat.add_1_r. exact Hk.
    + change (rmatch false (RLitChars (c :: d :: l)) st k)
        with (rmatch false (RChar c) st
                (fun st1 => rmatch false (RLitChars (d :: l)) st1 k)) in H.
      destruct (Hc _ H) as [rest1 [Hr1 Hk1]].
      destruct (IH _ _ _ Hk1) as [rest' [prev' [Hr Hk]]].
      cbn [advance ms_rest ms_pos ms_caps] in Hr, Hk.
      exists rest', prev'. split.
      * rewrite Hr1, Hr. reflexivity.
      * replace (ms_pos st + List.length (c :: d :: l))%nat
          with (S (ms_pos st) + List.length (d :: l))%nat
          by (cbn [List.length]; lia).
        exact Hk.
Qed.

(** A run of characters of a class, as long as possible. *)
Definition runEnds (p : ascii -> bool) (rest : list ascii) : Prop :=
  match rest with
  | c :: _ => p c = false
  | [] => True
  end.

Lemma star_set (p : ascii -> bool) (K : mstate -> option mstate) :
  (forall s, K s <> None) ->
  forall st : mstate,
    exists run rest' prev',
      ms_rest st = run ++ rest'
      /\ Forall (fun c => p c = true) run
      /\ runEnds p rest'
      /\ rmatch false (RStar (RSet p)) st K
         = K (MState (ms_pos st + List.length run) prev' rest' (ms_caps st)).
Proof.
  intros HK st.
  pose (F := fix star (fuel : nat) (st0 : mstate) {struct fuel} : option mstate :=
          match fuel with
          | O => K st0
          | S fuel' =>
              orElse
                (rmatch false (RSet p) st0 (fun st1 =>
                   if Nat.ltb (ms_pos st0) (ms_pos st1) then star fuel' st1
                   else None))
                (K st0)
          end).
  change (rmatch false (RStar (RSet p)) st K)
    with (F (S (List.length (ms_rest st))) st).
  assert (HS : forall fuel st0,
            F (S fuel) st0
            = orElse
                (rmatch false (RSet p) st0 (fun st1 =>
                   if Nat.ltb (ms_pos st0) (ms_pos st1) then F fuel st1 else None))
                (K st0)) by reflexivity.
  clearbody F.
  assert (HF : forall (fuel : nat) (st0 : mstate),
            (List.length (ms_rest st0) < fuel)%nat ->
            exists run rest' prev',
              ms_rest st0 = run ++ rest'
              /\ Forall (fun c => p c = true) run
              /\ runEnds p rest'
              /\ F fuel st0
                 = K (MState (ms_pos st0 + List.length run) prev' rest'
                        (ms_caps st0))).
  { induction fuel as [|fuel IH]; intros st0 Hlen; [lia|].
    rewrite HS.
    destruct st0 as [pos prev rest caps]. cbn [ms_rest ms_pos ms_caps] in *.
    destruct rest as [|x rest].
    - exists [], [], prev. split; [reflexivity|]. split; [constructor|].
      split; [exact I|]. cbn [rmatch ms_rest orElse List.length].
      rewrite Nat.add_0_r. reflexivity.
    - destruct (p x) eqn:Ex.
      + destruct (IH (MState (S pos) (Some x) rest caps))
          as [run [rest' [prev' [Hr [Hp [He Hs]]]]]];
          [cbn in *; lia|].
        cbn [ms_rest ms_pos ms_caps] in Hr, Hs.
        exists (x :: run), rest', prev'.
        split; [rewrite Hr; reflexivity|].
        split; [constructor; assumption|]. split; [exact He|].
        cbn [rmatch ms_rest]. rewrite Ex. unfold advance. cbn [ms_pos ms_caps].
        assert (Hlt : Nat.ltb pos (S pos) = true) by (apply Nat.ltb_lt; lia).
        rewrite Hlt, Hs.
        replace (pos + List.length (x :: run))%nat
          with (S pos + List.length run)%nat
          by (cbn [List.length]; lia).
        destruct (K (MState (S pos + List.length run) prev' rest' caps)) eqn:EK;
          [reflexivity|]. exfalso. exact (HK _ EK).
      + exists [], (x :: rest), prev. split; [reflexivity|]. split; [constructor|].
        split; [exact Ex|]. cbn [rmatch ms_rest orElse List.length]. rewrite Ex.
        cbn [orElse]. rewrite Nat.add_0_r. reflexivity. }
  apply HF. lia.
Qed.

Lemma rmatch_group_run (p : ascii -> bool) (st r : mstate) :
  rmatch false (RGroup (RPlus (RSet p))) st Some = Some r ->
  exists run rest',
    ms_rest st = run ++ rest'
    /\ run <> []
    /\ Forall (fun c => p c = true) run
    /\ runEnds p rest'
    /\ ms_caps r = (ms_pos st, ms_pos st + List.length run)%nat :: ms_caps st.
Proof.
  intro H.
  set (K := fun st1 : mstate =>
              Some (MState (ms_pos st1) (ms_prev st1) (ms_rest st1)
                      ((ms_pos st, ms_pos st1) :: ms_caps st1))).
  change (rmatch false (RGroup (RPlus (RSet p))) st Some)
    with (match ms_rest st with
          | x :: rest =>
              if p x then rmatch false (RStar (RSet p)) (advance st x rest) K
              else None
          | [] => None
          end) in H.
  destruct (ms_rest st) as [|x rest] eqn:Hrest; [discriminate H|].
  destruct (p x) eqn:Ex; [|discriminate H].
  destruct (star_set p K (fun s => ltac:(discriminate)) (advance st x rest))
    as [run [rest' [prev' [Hr [Hp [He Hs]]]]]].
  rewrite Hs in H. cbn [advance ms_rest ms_pos ms_caps] in Hr, H.
  unfold K in H. cbn [ms_pos ms_prev ms_rest ms_caps] in H.
  injection H as <-. cbn [ms_caps].
  exists (x :: run), rest'. split; [rewrite Hr; reflexivity|].
  split; [discriminate|]. split; [constructor; assumption|].
  split; [exact He|]. cbn [List.length]. f_equal. f_equal. lia.
Qed.

Lemma searchFrom_sound (r : regex) :
  forall (rest : list ascii) (pos : nat) (prev : option ascii) (st : mstate),
    searchFrom false r pos prev rest = Some st ->
    exists pre rest' prev',
      rest = pre ++ rest'
      /\ rmatch false r (MState (pos + List.length pre) prev' rest' []) Some
         = Some st.
Proof.
  induction rest as [|c rest IH]; intros pos prev st H.
  - cbn [searchFrom] in H.
    destruct (rmatch false r (MState pos prev [] []) Some) as [st'|] eqn:E;
      [|discriminate H].
    injection H as <-. exists [], [], prev. split; [reflexivity|].
    cbn [List.length]. rewrite Nat.add_0_r. exact E.
  - cbn [searchFrom] in H.
    destruct (rmatch false r (MState pos prev (c :: rest) []) Some) as [st'|] eqn:E.
    + injection H as <-. exists [], (c :: rest), prev. split; [reflexivity|].
      cbn [List.length]. rewrite Nat.add_0_r. exact E.
    + destruct (IH _ _ _ H) as [pre [rest' [prev' [Hr Hm]]]].
      exists (c :: pre), rest', prev'. split; [rewrite Hr; reflexivity|].
      replace (pos + List.length (c :: pre))%nat with (S pos + List.length pre)%nat
        by (cbn [List.length]; lia).
      exact Hm.
Qed.

Lemma firstn_exact {A} (mid post : list A) :
  firstn (List.length mid) (mid ++ post) = mid.
Proof.
  induction mid as [|y mid IH]; [reflexivity|].
  cbn [List.length firstn app]. rewrite IH. reflexivity.
Qed.

Lemma skipn_exact {A} (pre l : list A) : skipn (List.length pre) (pre ++ l) = l.
Proof. induction pre as [|x pre IH]; [reflexivity | exact IH]. Qed.

Lemma firstn_skipn_middle {A} (pre mid post : list A) :
  firstn (List.length pre + List.length mid - List.length pre)
    (skipn (List.length pre) (pre ++ mid ++ post)) = mid.
Proof.
  replace (List.length pre + List.length mid - List.length pre)%nat
    with (List.length mid) by lia.
  rewrite skipn_exact. apply firstn_exact.
Qed.

Lemma rmatch_plus_set (p : ascii -> bool) (pos : nat) (prev : option ascii)
  (c : ascii) (rest : list ascii) :
  (p c = false ->
   rmatch false (RPlus (RSet p)) (MState pos prev (c :: rest) []) Some = None)
  /\ (p c = true ->
      exists run rest' prev',
        rest = run ++ rest'
        /\ Forall (fun x => p x = true) run
        /\ rmatch false (RPlus (RSet p)) (MState pos prev (c :: rest) []) Some
           = Some (MState (S pos + List.length run) prev' rest' [])).
Proof.
  change (rmatch false (RPlus (RSet p)) (MState pos prev (c :: rest) []) Some)
    with (if p c
          then rmatch false (RStar (RSet p))
                 (advance (MState pos prev (c :: rest) []) c rest) Some
          else None).
  split; intro E; rewrite E; [reflexivity|].
  destruct (star_set p Some (fun s => ltac:(discriminate))
              (advance (MState pos prev (c :: rest) []) c rest))
    as [run [rest' [prev' [Hr [Hp [_ Hs]]]]]].
  cbn [advance ms_rest ms_pos ms_caps] in Hr, Hs.
  exists run, rest', prev'. split; [exact Hr|]. split; [exact Hp|]. exact Hs.
Qed.

(** Removing every run of characters of a class removes the characters of
    the class, and no other. *)
Lemma removeAllFrom_class (p : ascii -> bool) (rest : list ascii) :
  forall (pos : nat) (prev : option ascii) (skip : nat),
    Forall (fun x => p x = true) (firstn skip rest) ->
    removeAllFrom false (RPlus (RSet p)) pos prev rest skip
    = List.filter (fun x => negb (p x)) rest.
Proof.
  induction rest as [|c rest IH]; intros pos prev skip Hskip; [reflexivity|].
  cbn [removeAllFrom List.filter].
  destruct skip as [|skip'].
  - destruct (rmatch_plus_set p pos prev c rest) as [Hno Hyes].
    destruct (p c) eqn:Ec; cbn [negb].
    + destruct (Hyes eq_refl) as [run [rest' [prev' [Hr [Hp Hm]]]]].
      rewrite Hm. cbn [ms_pos].
      replace (S pos + List.length run - pos)%nat with (S (List.length run))
        by lia.
      apply IH. rewrite Hr, firstn_exact. exact Hp.
    + rewrite (Hno eq_refl). f_equal. apply IH. constructor.
  - cbn [firstn] in Hskip.
    assert (Ec : p c = true) by (inversion Hskip; assumption).
    rewrite Ec. cbn [negb]. apply IH. inversion Hskip; assumption.
Qed.

Lemma matchGroup_after (lit : string) (p : ascii -> bool) (s v : string) :
  matchGroup false (RSeq (RLit lit) (RGroup (RPlus (RSet p)))) s = Some v ->
  exists pre post,
    chars s = pre ++ chars lit ++ chars v ++ post
    /\ v <> ""
    /\ Forall (fun c => p c = true) (chars v)
    /\ runEnds p post.
Proof.
  unfold matchGroup, exec. intro H.
  destruct (searchFrom false _ 0 None (chars s)) as [st|] eqn:Hs; [|discriminate H].
  destruct (searchFrom_sound _ _ _ _ _ Hs) as [pre [rest1 [prev1 [Hr1 Hm]]]].
  cbn [rmatch] in Hm. unfold RLit in Hm.
  destruct (rmatch_lit _ _ _ _ Hm) as [rest2 [prev2 [Hr2 Hg]]].
  cbn [ms_rest ms_pos ms_caps] in Hr2, Hg.
  destruct (rmatch_group_run p _ _ Hg) as [run [post [Hr3 [Hne [Hp [He Hc]]]]]].
  cbn [ms_rest ms_pos ms_caps] in Hr3, Hc.
  rewrite Hc in H. injection H as <-.
  assert (Hv : slice s
                 ((0 + List.length pre + List.length (chars lit))%nat,
                  (0 + List.length pre + List.length (chars lit)
                   + List.length run)%nat)
               = ofChars run).
  { unfold slice. cbn [fst snd]. f_equal.
    rewrite Hr1, Hr2, Hr3, app_assoc.
    replace (0 + List.length pre + List.length (chars lit))%nat
      with (List.length (pre ++ chars lit)) by (rewrite length_app; lia).
    apply firstn_skipn_middle. }
  change (0 + List.length pre)%nat with (List.length pre) in Hv.
  rewrite Hv. exists pre, post. rewrite chars_ofChars_list.
  split; [rewrite Hr1, Hr2, Hr3; reflexivity|].
  split; [|split; assumption].
  intro E. apply Hne. apply (f_equal chars) in E.
  rewrite chars_ofChars_list in E. exact E.
Qed.

(** *** Matching with or without the [i] flag *)

(** The test of a character of the pattern against one of the text. *)
Definition sameLetter (ci : bool) (x c : ascii) : bool :=
  if ci then Ascii.eqb (canonicalize x) (canonicalize c) else Ascii.eqb x c.

(** The text [t] starts with the word [l]. *)
Fixpoint startsWord (ci : bool) (l t : list ascii) : bool :=
  match l, t with
  | [], _ => true
  | c :: l', x :: t' => (sameLetter ci x c && startsWord ci l' t')%bool
  | _ :: _, [] => false
  end.

(** The word [l] starts at no position of [pre] in the text [pre ++ rest]. *)
Fixpoint freeOf (ci : bool) (l pre rest : list ascii) : bool :=
  match pre with
  | [] => true
  | _ :: pre' => (negb (startsWord ci l (pre ++ rest)) && freeOf ci l pre' rest)%bool
  end.

(** The character before the position reached after [x]. *)
Definition lastOr (prev : option ascii) (x : list ascii) : option ascii :=
  match rev x with
  | c :: _ => Some c
  | [] => prev
  end.

(** The state reached from [st] once [x] is consumed, [rest] left. *)
Definition after (st : mstate) (x rest : list ascii) : mstate :=
  MState (ms_pos st + List.length x) (lastOr (ms_prev st) x) rest (ms_caps st).

Lemma lastOr_cons (prev : option ascii) (c : ascii) (x : list ascii) :
  lastOr prev (c :: x) = lastOr (Some c) x.
Proof.
  unfold lastOr. cbn [rev].
  destruct (rev x) as [|d l] eqn:E; reflexivity.
Qed.

Lemma after_nil (st : mstate) : after st [] (ms_rest st) = st.
Proof.
  destruct st as [pos prev rest caps]. unfold after, lastOr.
  cbn [ms_pos ms_prev ms_rest ms_caps rev List.length].
  rewrite Nat.add_0_r. reflexivity.
Qed.

Lemma after_cons (st : mstate) (c : ascii) (x rest t : list ascii) :
  after (advance st c t) x rest = after st (c :: x) rest.
Proof.
  destruct st as [pos prev r caps]. unfold after, advance.
  cbn [ms_pos ms_prev ms_rest ms_caps List.length].
  rewrite lastOr_cons. f_equal. lia.
Qed.

Lemma after_app (st : mstate) (x y rest t : list ascii) :
  after (after st x t) y rest = after st (x ++ y) rest.
Proof.
  destruct st as [pos prev r caps]. unfold after.
  cbn [ms_pos ms_prev ms_rest ms_caps]. rewrite length_app.
  f_equal; [lia|].
  unfold lastOr. rewrite rev_app_distr.
  destruct (rev y) as [|d l]; [reflexivity | reflexivity].
Qed.

(** A literal word matches the text that starts with it. *)
Lemma rmatch_lit_start (ci : bool) (l : list ascii) :
  forall (st : mstate) (x rest : list ascii) (k : mstate -> option mstate),
    ms_rest st = x ++ rest ->
    List.length x = List.length l ->
    startsWord ci l x = true ->
    rmatch ci (RLitChars l) st k = k (after st x rest).
Proof.
  induction l as [|c l IH]; intros st x rest k Hrest Hlen Hstart.
  - destruct x; [|discriminate Hlen]. cbn [app] in Hrest.
    rewrite <- Hrest, after_nil. reflexivity.
  - destruct x as [|a x]; [discriminate Hlen|].
    cbn [startsWord] in Hstart. apply andb_prop in Hstart.
    destruct Hstart as [Ha Hx]. injection Hlen as Hlen.
    cbn [app] in Hrest.
    destruct l as [|d l].
    + destruct x; [|discriminate Hlen].
      change (RLitChars [c]) with (RChar c). cbn [rmatch]. rewrite Hrest.
      unfold sameLetter in Ha. rewrite Ha.
      rewrite <- (after_cons st a [] rest ([] ++ rest)).
      cbn [app]. rewrite <- (after_nil (advance st a rest)) at 1. reflexivity.
    + change (RLitChars (c :: d :: l)) with (RSeq (RChar c) (RLitChars (d :: l))).
      cbn [rmatch]. rewrite Hrest. unfold sameLetter in Ha. rewrite Ha.
      rewrite (IH (advance st a (x ++ rest)) x rest k eq_refl Hlen Hx).
      rewrite after_cons. reflexivity.
Qed.

(** A literal word does not match a text that does not start with it. *)
Lemma rmatch_lit_fails (ci : bool) (l : list ascii) :
  forall (st : mstate) (k : mstate -> option mstate),
    startsWord ci l (ms_rest st) = false ->
    rmatch ci (RLitChars l) st k = None.
Proof.
  induction l as [|c l IH]; intros st k Hstart; [discriminate Hstart|].
  destruct (ms_rest st) as [|a t] eqn:Hrest.
  - destruct l as [|d l].
    + change (RLitChars [c]) with (RChar c). cbn [rmatch]. rewrite Hrest.
      reflexivity.
    + change (RLitChars (c :: d :: l)) with (RSeq (RChar c) (RLitChars (d :: l))).
      cbn [rmatch]. rewrite Hrest. reflexivity.
  - cbn [startsWord] in Hstart. unfold sameLetter in Hstart.
    destruct l as [|d l].
    + change (RLitChars [c]) with (RChar c). cbn [rmatch]. rewrite Hrest.
      cbn [startsWord] in Hstart. rewrite andb_true_r in Hstart.
      rewrite Hstart. reflexivity.
    + change (RLitChars (c :: d :: l)) with (RSeq (RChar c) (RLitChars (d :: l))).
      cbn [rmatch]. rewrite Hrest.
      destruct (if ci then Ascii.eqb (canonicalize a) (canonicalize c)
                else Ascii.eqb a c) eqn:Ea; [|reflexivity].
      cbn [andb] in Hstart. apply IH. exact Hstart.
Qed.

(** A search goes past the positions at which the first word of the
    pattern does not start. *)
Lemma searchFrom_free (ci : bool) (l : list ascii) (r : regex) (rest : list ascii) :
  forall (pre : list ascii) (pos : nat) (prev : option ascii),
    freeOf ci l pre rest = true ->
    searchFrom ci (RSeq (RLitChars l) r) pos prev (pre ++ rest)
    = searchFrom ci (RSeq (RLitChars l) r) (pos + List.length pre)
        (lastOr prev pre) rest.
Proof.
  induction pre as [|c pre IH]; intros pos prev Hfree.
  - cbn [app List.length]. rewrite Nat.add_0_r. reflexivity.
  - cbn [freeOf] in Hfree. apply andb_prop in Hfree. destruct Hfree as [Hc Hpre].
    apply negb_true_iff in Hc.
    cbn [app searchFrom].
    change (rmatch ci (RSeq (RLitChars l) r)
              (MState pos prev (c :: pre ++ rest) []) Some)
      with (rmatch ci (RLitChars l) (MState pos prev (c :: pre ++ rest) [])
              (fun st1 => rmatch ci r st1 Some)).
    rewrite (rmatch_lit_fails ci l (MState pos prev (c :: pre ++ rest) []) _ Hc).
    rewrite (IH (S pos) (Some c) Hpre), lastOr_cons.
    cbn [List.length]. f_equal. lia.
Qed.

(** Nothing is found in a text in which the first word of the pattern
    starts nowhere. *)
Lemma searchFrom_none (ci : bool) (l : list ascii) (r : regex) (text : list ascii)
  (pos : nat) (prev : option ascii) :
  l <> [] ->
  freeOf ci l text [] = true ->
  searchFrom ci (RSeq (RLitChars l) r) pos prev text = None.
Proof.
  intros Hl Hfree.
  rewrite <- (app_nil_r text), (searchFrom_free ci l r [] text pos prev Hfree).
  cbn [searchFrom].
  change (rmatch ci (RSeq (RLitChars l) r) ?st Some)
    with (rmatch ci (RLitChars l) st (fun st1 => rmatch ci r st1 Some)).
  rewrite rmatch_lit_fails; [reflexivity|].
  destruct l; [contradiction | reflexivity].
Qed.

(** A greedy run of characters of a class is taken whole when what
    follows matches after it. *)
Lemma star_run (ci : bool) (p : ascii -> bool) (K : mstate -> option mstate)
  (res : mstate) :
  forall (run : list ascii) (st : mstate) (rest : list ascii),
    ms_rest st = run ++ rest ->
    Forall (fun c => p c = true) run ->
    runEnds p rest ->
    K (after st run rest) = Some res ->
    rmatch ci (RStar (RSet p)) st K = Some res.
Proof.
  intros run st rest Hrest Hrun Hend HK.
  pose (F := fix star (fuel : nat) (st0 : mstate) {struct fuel} : option mstate :=
          match fuel with
          | O => K st0
          | S fuel' =>
              orElse
                (rmatch ci (RSet p) st0 (fun st1 =>
                   if Nat.ltb (ms_pos st0) (ms_pos st1) then star fuel' st1
                   else None))
                (K st0)
          end).
  change (rmatch ci (RStar (RSet p)) st K)
    with (F (S (List.length (ms_rest st))) st).
  assert (HS : forall fuel st0,
            F (S fuel) st0
            = orElse
                (rmatch ci (RSet p) st0 (fun st1 =>
                   if Nat.ltb (ms_pos st0) (ms_pos st1) then F fuel st1 else None))
                (K st0)) by reflexivity.
  clearbody F.
  assert (HF : forall (x : list ascii) (fuel : nat) (st0 : mstate),
            ms_rest st0 = x ++ rest ->
            Forall (fun c => p c = true) x ->
            (List.length x < fuel)%nat ->
            K (after st0 x rest) = Some res ->
            F fuel st0 = Some res).
  { induction x as [|c x IH]; intros fuel st0 H0 Hx Hfuel Hk;
      (destruct fuel as [|fuel]; [cbn in Hfuel; lia|]); rewrite HS.
    - cbn [app] in H0. rewrite <- H0, after_nil in Hk.
      cbn [rmatch]. rewrite H0.
      destruct rest as [|d rest']; [exact Hk|].
      cbn in Hend. rewrite Hend. exact Hk.
    - cbn [app] in H0. cbn [rmatch]. rewrite H0.
      inversion Hx as [|? ? Hc Hx']; subst. rewrite Hc.
      assert (Hlt : Nat.ltb (ms_pos st0) (ms_pos (advance st0 c (x ++ rest))) = true).
      { apply Nat.ltb_lt. cbn. lia. }
      rewrite Hlt.
      rewrite (IH fuel (advance st0 c (x ++ rest)) eq_refl Hx');
        [reflexivity | cbn in Hfuel; lia |].
      rewrite after_cons. exact Hk. }
  apply (HF run); [exact Hrest | exact Hrun | | exact HK].
  rewrite Hrest, length_app. lia.
Qed.

(** The same, for a run that is not empty. *)
Lemma plus_run (ci : bool) (p : ascii -> bool) (K : mstate -> option mstate)
  (res : mstate) (run : list ascii) (st : mstate) (rest : list ascii) :
  ms_rest st = run ++ rest ->
  run <> [] ->
  Forall (fun c => p c = true) run ->
  runEnds p rest ->
  K (after st run rest) = Some res ->
  rmatch ci (RPlus (RSet p)) st K = Some res.
Proof.
  intros Hrest Hne Hrun Hend HK.
  destruct run as [|c run]; [contradiction|].
  change (rmatch ci (RPlus (RSet p)) st K)
    with (match ms_rest st with
          | x :: t =>
              if p x then rmatch ci (RStar (RSet p)) (advance st x t) K else None
          | [] => None
          end).
  cbn [app] in Hrest. rewrite Hrest.
  inversion Hrun as [|? ? Hc Hrun']; subst. rewrite Hc.
  apply (star_run ci p K res run (advance st c (run ++ rest)) rest eq_refl Hrun' Hend).
  rewrite after_cons. exact HK.
Qed.

(** An optional character: taken when it is there and what follows
    matches after it, left out when it is not there. *)
Lemma opt_char_taken (ci : bool) (c x : ascii) (K : mstate -> option mstate)
  (res : mstate) (st : mstate) (rest : list ascii) :
  ms_rest st = x :: rest ->
  sameLetter ci x c = true ->
  K (after st [x] rest) = Some res ->
  rmatch ci (ROpt (RChar c)) st K = Some res.
Proof.
  intros Hrest Hx HK. unfold ROpt. cbn [rmatch]. rewrite Hrest.
  unfold sameLetter in Hx. rewrite Hx.
  assert (E : after st [x] rest = advance st x rest).
  { rewrite <- (after_cons st x [] rest rest).
    exact (after_nil (advance st x rest)). }
  rewrite E in HK. rewrite HK. reflexivity.
Qed.

Lemma opt_char_absent (ci : bool) (c : ascii) (K : mstate -> option mstate)
  (st : mstate) :
  startsWord ci [c] (ms_rest st) = false ->
  rmatch ci (ROpt (RChar c)) st K = K st.
Proof.
  intro H. unfold ROpt. cbn [rmatch].
  destruct (ms_rest st) as [|x rest]; [reflexivity|].
  cbn [startsWord] in H. rewrite andb_true_r in H. unfold sameLetter in H.
  rewrite H. reflexivity.
Qed.

(** One of the words [ws] starts somewhere in the text. *)
Fixpoint occursAny (ci : bool) (ws : list (list ascii)) (text : list ascii)
  : bool :=
  (existsb (fun w => startsWord ci w text) ws
   || match text with
      | [] => false
      | _ :: text' => occursAny ci ws text'
      end)%bool.

Definition isSome {A} (x : option A) : bool :=
  match x with Some _ => true | None => false end.

Lemma startsWord_split (ci : bool) (l : list ascii) :
  forall t : list ascii,
    startsWord ci l t = true ->
    exists x rest,
      t = x ++ rest /\ List.length x = List.length l
      /\ startsWord ci l x = true.
Proof.
  induction l as [|c l IH]; intros t H.
  - exists [], t. repeat split.
  - destruct t as [|a t]; [discriminate H|].
    cbn [startsWord] in H. apply andb_prop in H. destruct H as [Ha Ht].
    destruct (IH t Ht) as [x [rest [-> [Hlen Hx]]]].
    exists (a :: x), rest. cbn [app List.length startsWord].
    rewrite Ha, Hx, Hlen. repeat split.
Qed.

Lemma rmatch_word (ci : bool) (w : list ascii) (st : mstate) :
  isSome (rmatch ci (RLitChars w) st Some) = startsWord ci w (ms_rest st).
Proof.
  destruct (startsWord ci w (ms_rest st)) eqn:E.
  - destruct (startsWord_split ci w _ E) as [x [rest [Hrest [Hlen Hx]]]].
    rewrite (rmatch_lit_start ci w st x rest Some Hrest Hlen Hx). reflexivity.
  - rewrite (rmatch_lit_fails ci w st Some E). reflexivity.
Qed.

Lemma rmatch_words (ci : bool) (ws : list (list ascii)) (st : mstate) :
  isSome (rmatch ci (RAlts (List.map RLitChars ws)) st Some)
  = existsb (fun w => startsWord ci w (ms_rest st)) ws.
Proof.
  induction ws as [|w ws IH].
  - cbn [List.map RAlts rmatch existsb]. destruct (ms_rest st); reflexivity.
  - destruct ws as [|w' ws].
    + cbn [List.map RAlts existsb]. rewrite rmatch_word, orb_false_r.
      reflexivity.
    + change (RAlts (List.map RLitChars (w :: w' :: ws)))
        with (RAlt (RLitChars w) (RAlts (List.map RLitChars (w' :: ws)))).
      change (rmatch ci (RAlt ?a ?b) st Some)
        with (orElse (rmatch ci a st Some) (rmatch ci b st Some)).
      cbn [existsb] in *. rewrite <- IH, <- rmatch_word.
      destruct (rmatch ci (RLitChars w) st Some); reflexivity.
Qed.

(** A pattern made of alternative words is found in the texts in which
    one of the words occurs. *)
Lemma test_words (ci : bool) (ws : list (list ascii)) (s : string) :
  test ci (RAlts (List.map RLitChars ws)) s = occursAny ci ws (chars s).
Proof.
  unfold test, exec.
  change (match searchFrom ci (RAlts (List.map RLitChars ws)) 0 None (chars s) with
          | Some _ => true
          | None => false
          end)
    with (isSome (searchFrom ci (RAlts (List.map RLitChars ws)) 0 None (chars s))).
  generalize 0%nat as pos. generalize (@None ascii) as prev.
  induction (chars s) as [|c text IH]; intros prev pos.
  - cbn [searchFrom occursAny].
    pose proof (rmatch_words ci ws (MState pos prev [] [])) as H.
    cbn [ms_rest] in H. rewrite <- H.
    destruct (rmatch ci _ _ Some); reflexivity.
  - cbn [searchFrom occursAny].
    pose proof (rmatch_words ci ws (MState pos prev (c :: text) [])) as H.
    cbn [ms_rest] in H. rewrite <- H.
    destruct (rmatch ci _ _ Some); [reflexivity|].
    cbn [isSome orb]. apply IH.
Qed.

End Matching.

Import Matching.

(** ** Conversions between strings and numbers *)

Module Conv.
Local Open Scope list_scope.

Definition parseSign (l : list ascii) : bool * list ascii :=
  match l with
  | "-"%char :: r => (true, r)
  | "+"%char :: r => (false, r)
  | _ => (false, l)
  end.

Fixpoint startsWith (p l : list ascii) : bool :=
  match p, l with
  | [], _ => true
  | c :: p', d :: l' => (Ascii.eqb c d && startsWith p' l')%bool
  | _ :: _, [] => false
  end.

(** An optional exponent part: its value and what follows it; an [e]
    that no digit follows is not part of the literal. *)
Definition parseExponent (l : list ascii) : Z * list ascii :=
  match l with
  | c :: r =>
      if (Ascii.eqb c "e" || Ascii.eqb c "E")%bool then
        let '(neg, r1) := parseSign r in
        match spanDigits r1 with
        | ([], _) => (0, l)
        | (ds, r2) => (if neg then - digitsToZ ds else digitsToZ ds, r2)
        end
      else (0, l)
  | [] => (0, l)
  end.

(** The longest prefix of [l] that is a decimal literal ([Infinity]
    included), as a Number, and the rest of [l]. *)
Definition readDecimal (l : list ascii) : option (number * list ascii) :=
  let '(neg, l1) := parseSign l in
  if startsWith (chars "Infinity") l1 then
    Some (S754_infinity neg, skipn 8 l1)
  else
    let '(ip, l2) := spanDigits l1 in
    let '(fp, l3) :=
      match l2 with
      | "."%char :: r => spanDigits r
      | _ => ([], l2)
      end in
    match ip ++ fp with
    | [] => None
    | ds =>
        let '(ex, l4) := parseExponent l3 in
        Some (ofDecimal neg (digitsToZ ds) (ex - Z.of_nat (List.length fp)), l4)
    end.

(** [parseFloat(s)]: leading white space is skipped, and the longest
    prefix that is a decimal literal is read; NaN when there is none. *)
Definition parseFloatChars (l : list ascii) : number :=
  match readDecimal (dropSpaces l) with
  | Some (x, _) => x
  | None => NaN
  end.

(** The value of a digit in a radix up to 16, if it is one. *)
Definition radixDigit (radix : Z) (c : ascii) : option Z :=
  let d :=
    if isDigit c then digitVal c
    else if inRange 97 102 c then Z.of_N (code c) - 87
    else if inRange 65 70 c then Z.of_N (code c) - 55
    else 99 in
  if Z.ltb d radix then Some d else None.

Fixpoint readRadix (radix : Z) (l : list ascii) (acc : Z) : option Z :=
  match l with
  | [] => Some acc
  | c :: l' =>
      match radixDigit radix c with
      | Some d => readRadix radix l' (radix * acc + d)
      | None => None
      end
  end.

(** [Number(s)]: the whole string, white space trimmed, must be a numeric
    literal; the empty string is [0]. *)
Definition stringToNumber (s : string) : number :=
  let l := trimChars (chars s) in
  let radixLiteral (radix : Z) (ds : list ascii) : number :=
    match ds with
    | [] => NaN
    | _ => match readRadix radix ds 0 with Some n => ofZ n | None => NaN end
    end in
  match l with
  | [] => zero
  | "0"%char :: x :: ds =>
      if (Ascii.eqb x "x" || Ascii.eqb x "X")%bool then radixLiteral 16 ds
      else if (Ascii.eqb x "o" || Ascii.eqb x "O")%bool then radixLiteral 8 ds
      else if (Ascii.eqb x "b" || Ascii.eqb x "B")%bool then radixLiteral 2 ds
      else match readDecimal l with Some (n, []) => n | _ => NaN end
  | _ => match readDecimal l with Some (n, []) => n | _ => NaN end
  end.

(** [Math.trunc] of a finite Number, as an integer. *)
Definition truncate (x : number) : Z :=
  match x with
  | S754_finite s m e =>
      let a := match e with
               | Zneg k => Zpos m / Z.pow 2 (Zpos k)
               | _ => Zpos m * Z.pow 2 e
               end in
      if s then - a else a
  | _ => 0
  end.

(** [Math.floor] of a finite Number, as an integer. *)
Definition floor (x : number) : Z :=
  match x with
  | S754_finite s m e =>
      match e with
      | Zneg k => (if s then Zneg m else Zpos m) / Z.pow 2 (Zpos k)
      | _ => (if s then Zneg m else Zpos m) * Z.pow 2 e
      end
  | _ => 0
  end.

Definition parseFloatString (s : string) : number := parseFloatChars (chars s).

(** [parseInt(s, 10)] as an integer; [None] stands for NaN. *)
Definition parseInt10 (s : string) : option Z :=
  let '(neg, l1) := parseSign (dropSpaces (chars s)) in
  match fst (spanDigits l1) with
  | [] => None
  | ds => Some (if neg then - digitsToZ ds else digitsToZ ds)
  end.

(** *** Number to string

    [String(x)]: the shortest decimal that reads back as [x], the nearest
    one to [x] among the shortest. *)

(** [x = p / q] for a positive finite [x]. *)
Definition fraction (m : positive) (e : Z) : Z * Z :=
  match e with
  | Zneg k => (Zpos m, Z.pow 2 (Zpos k))
  | _ => (Zpos m * Z.pow 2 e, 1)
  end.

(** [p / q * 10^d] as a fraction. *)
Definition scale10 (pq : Z * Z) (d : Z) : Z * Z :=
  match d with
  | Zneg k => (fst pq, snd pq * Z.pow 10 (Zpos k))
  | _ => (fst pq * Z.pow 10 d, snd pq)
  end.

(** The least [n], from [n0] upwards, with [p / q < 10^n]. *)
Fixpoint magnitude (fuel : nat) (pq : Z * Z) (n0 : Z) : Z :=
  match fuel with
  | O => n0
  | S fuel' =>
      let '(a, b) := scale10 pq (- n0) in
      if Z.ltb a b then n0 else magnitude fuel' pq (n0 + 1)
  end.

Definition sameNumber (x y : number) : bool :=
  match x, y with
  | S754_finite s1 m1 e1, S754_finite s2 m2 e2 =>
      (Bool.eqb s1 s2 && Pos.eqb m1 m2 && Z.eqb e1 e2)%bool
  | _, _ => false
  end.

(** The digits [s] and the exponent [n] of the shortest decimal
    [s * 10^(n - k)], [k] the number of digits of [s], that reads back as
    [x = m * 2^e]: the lengths are tried from [k] up, 17 digits being
    always enough; [n] is first the magnitude of [x]. *)
Fixpoint shortest (fuel : nat) (m : positive) (e : Z) (n : Z) (k : Z)
  : Z * Z :=
  let '(a, b) := scale10 (fraction m e) (k - n) in
  let lo := a / b in
  let hi := lo + 1 in
  let x := S754_finite false m e in
  let okLo := sameNumber (ofDecimal false lo (n - k)) x in
  let okHi := sameNumber (ofDecimal false hi (n - k)) x in
  let dLo := a - lo * b in
  let dHi := hi * b - a in
  let pick (s : Z) := if Z.eqb s (Z.pow 10 k) then (Z.pow 10 (k - 1), n + 1) else (s, n) in
  match fuel with
  | O => pick lo
  | S fuel' =>
      if (okLo && okHi)%bool then
        if Z.ltb dLo dHi then pick lo
        else if Z.ltb dHi dLo then pick hi
        else if Z.even lo then pick lo else pick hi
      else if okLo then pick lo
      else if okHi then pick hi
      else shortest fuel' m e n (k + 1)
  end.

Fixpoint zeros (n : nat) : list ascii :=
  match n with O => [] | S n' => "0"%char :: zeros n' end.

Definition positiveToString (m : positive) (e : Z) : string :=
  let n0 := magnitude 700 (fraction m e) (-324) in
  let '(s, n) := shortest 17 m e n0 1 in
  let ds := digitsOf s in
  let k := Z.of_nat (List.length ds) in
  if (Z.leb k n && Z.leb n 21)%bool then
    ofChars (ds ++ zeros (Z.to_nat (n - k)))
  else if (Z.ltb 0 n && Z.leb n 21)%bool then
    ofChars (firstn (Z.to_nat n) ds ++ "."%char :: skipn (Z.to_nat n) ds)
  else if (Z.ltb (-6) n && Z.leb n 0)%bool then
    ofChars ("0"%char :: "."%char :: zeros (Z.to_nat (- n)) ++ ds)
  else
    let ex := n - 1 in
    let exs := (if Z.ltb ex 0 then "-"%char else "+"%char) :: digitsOf (Z.abs ex) in
    match ds with
    | [d] => ofChars (d :: "e"%char :: exs)
    | d :: ds' => ofChars (d :: "."%char :: ds' ++ "e"%char :: exs)
    | [] => ""
    end.

Definition numberToString (x : number) : string :=
  match x with
  | S754_nan => "NaN"
  | S754_zero _ => "0"
  | S754_infinity false => "Infinity"
  | S754_infinity true => "-Infinity"
  | S754_finite false m e => positiveToString m e
  | S754_finite true m e => String "-" (positiveToString m e)
  end.

End Conv.

Import Conv.


(** ** JavaScript values and objects *)

Module JS.

(** The values a cell of a row or an argument of a tool call holds. *)
Inductive value : Type :=
| VUndefined
| VNull
| VBool (b : bool)
| VNum (n : number)
| VStr (s : string).

(** An object whose properties hold values of type [A]: its own
    properties in insertion order, keys distinct. *)
Definition dict (A : Type) : Type := list (string * A).

Definition object : Type := dict value.

(** Truthiness ([!!v], and the test of [||], [?:], [if]). *)
Definition truthy (v : value) : bool :=
  match v with
  | VUndefined | VNull => false
  | VBool b => b
  | VNum n => negb (isNaN n || isZero n)
  | VStr s => negb (String.eqb s "")
  end.

(** [a || b] *)
Definition orValue (a b : value) : value := if truthy a then a else b.

(** [String(v)], also the conversion of a value used as a property key or
    interpolated in a template literal. *)
Definition toString (v : value) : string :=
  match v with
  | VUndefined => "undefined"
  | VNull => "null"
  | VBool true => "true"
  | VBool false => "false"
  | VNum n => numberToString n
  | VStr s => s
  end.

(** [Number(v)] *)
Definition toNumber (v : value) : number :=
  match v with
  | VUndefined => NaN
  | VNull => zero
  | VBool true => Num.ofZ 1
  | VBool false => zero
  | VNum n => n
  | VStr s => stringToNumber s
  end.

(** [parseFloat(v)]: the argument is converted to a string first; the
    string of a Number reads back as that Number ([-0] as [0]). *)
Definition parseFloat (v : value) : number :=
  match v with
  | VStr s => parseFloatString s
  | VNum (S754_zero _) => zero
  | VNum n => n
  | _ => NaN
  end.

(** The property [k] of [o], if [o] has it. *)
Fixpoint getOwn {A} (o : dict A) (k : string) : option A :=
  match o with
  | [] => None
  | (k', v) :: o' => if String.eqb k' k then Some v else getOwn o' k
  end.

(** [o[k]], for a name [k] that [o] has or that no object inherits. *)
Definition get (o : object) (k : string) : value :=
  match getOwn o k with Some v => v | None => VUndefined end.

(** [o[k] = v]: an existing property keeps its place. *)
Fixpoint set {A} (o : dict A) (k : string) (v : A) : dict A :=
  match o with
  | [] => [(k, v)]
  | (k', v') :: o' =>
      if String.eqb k' k then (k', v) :: o' else (k', v') :: set o' k v
  end.

(** The names of the properties that every object inherits from
    [Object.prototype]. An object is described by its own properties,
    and [get] and [set] are the reads and the writes of the program for
    the names that are not inherited. For an inherited name that an
    object does not have, the program reads the inherited member, not
    [undefined]; a write to [constructor] and the like stores a property
    as [set] does, and a write of a string or a number to [__proto__]
    stores nothing. *)
Definition inherited (k : string) : bool :=
  existsb (String.eqb k)
    ["constructor"; "hasOwnProperty"; "isPrototypeOf"; "propertyIsEnumerable";
     "toLocaleString"; "toString"; "valueOf"; "__proto__";
     "__defineGetter__"; "__defineSetter__"; "__lookupGetter__";
     "__lookupSetter__"].

(** An array index: the canonical decimal string of an integer below
    [2^32 - 1]. *)
Definition arrayIndex (k : string) : option Z :=
  match chars k with
  | [] => None
  | c :: l =>
      if (forallb isDigit (c :: l)
          && (negb (Ascii.eqb c "0") || Nat.eqb (List.length l) 0))%bool
      then
        let n := digitsToZ (c :: l) in
        if Z.ltb n 4294967295 then Some n else None
      else None
  end.

Definition isIndexKey {A} (kv : string * A) : bool :=
  match arrayIndex (fst kv) with Some _ => true | None => false end.

Definition indexOf {A} (kv : string * A) : Z :=
  match arrayIndex (fst kv) with Some n => n | None => 0 end.

(** Insertion of an entry in a list sorted by index. *)
Fixpoint insertByIndex {A} (kv : string * A) (l : list (string * A))
  : list (string * A) :=
  match l with
  | [] => [kv]
  | kv' :: l' =>
      if Z.ltb (indexOf kv) (indexOf kv') then kv :: l
      else kv' :: insertByIndex kv l'
  end.

Definition sortByIndex {A} (l : list (string * A)) : list (string * A) :=
  fold_right insertByIndex [] l.

(** [Object.entries(o)]: the array-index keys in ascending order, then
    the other keys in insertion order. *)
Definition entries {A} (o : dict A) : list (string * A) :=
  (sortByIndex (List.filter isIndexKey o)
   ++ List.filter (fun kv => negb (isIndexKey kv)) o)%list.

(** [Object.keys(o)] *)
Definition keys {A} (o : dict A) : list string := List.map fst (entries o).

(** [Object.fromEntries(l)] *)
Definition fromEntries {A} (l : list (string * A)) : dict A :=
  fold_left (fun o kv => set o (fst kv) (snd kv)) l [].

(** [{ ...o }]: a new object that receives the properties of [o] in
    enumeration order. *)
Definition spread {A} (o : dict A) : dict A := fromEntries (entries o).

(** [a.slice(0, end)]: the end is converted to an integer; a negative end
    counts from the end of the array. *)
Definition sliceEnd (len : nat) (finish : number) : nat :=
  match finish with
  | S754_nan | S754_zero _ => O
  | S754_infinity true => O
  | S754_infinity false => len
  | S754_finite _ _ _ =>
      let k := truncate finish in
      if Z.ltb k 0 then Z.to_nat (Z.max (Z.of_nat len + k) 0)
      else Z.to_nat (Z.min k (Z.of_nat len))
  end.

Definition sliceTo {A} (l : list A) (finish : value) : list A :=
  firstn (sliceEnd (List.length l) (toNumber finish)) l.

(** The keys of a well-formed object are distinct. *)
Definition distinctKeys {A} (o : dict A) : Prop := NoDup (List.map fst o).

(** *** Properties of objects *)

Lemma getOwn_set_same {A} (o : dict A) (k : string) (v : A) :
  getOwn (set o k v) k = Some v.
Proof.
  induction o as [|[k' v'] o IH]; cbn.
  - rewrite String.eqb_refl. reflexivity.
  - destruct (String.eqb k' k) eqn:E; cbn; rewrite E; [reflexivity | exact IH].
Qed.

Lemma getOwn_set_other {A} (o : dict A) (k k' : string) (v : A) :
  k' <> k -> getOwn (set o k v) k' = getOwn o k'.
Proof.
  intro Hne. induction o as [|[k0 v0] o IH]; cbn.
  - destruct (String.eqb_spec k k') as [E|_]; [congruence | reflexivity].
  - destruct (String.eqb_spec k0 k) as [E|E]; cbn.
    + subst k0. destruct (String.eqb_spec k k') as [E'|_]; [congruence | reflexivity].
    + destruct (String.eqb k0 k'); [reflexivity | exact IH].
Qed.

Lemma get_set_same (o : object) (k : string) (v : value) :
  get (set o k v) k = v.
Proof. unfold get. rewrite getOwn_set_same. reflexivity. Qed.

Lemma getOwn_In {A} (o : dict A) (k : string) (v : A) :
  distinctKeys o -> (getOwn o k = Some v <-> In (k, v) o).
Proof.
  unfold distinctKeys. induction o as [|[k' v'] o IH]; cbn; intro Hnd.
  - split; [discriminate | contradiction].
  - inversion Hnd as [|? ? Hnotin Hnd']; subst.
    destruct (String.eqb_spec k' k) as [E|E].
    + subst k'. split.
      * intro H. injection H as ->. left. reflexivity.
      * intros [H|H]; [congruence|].
        exfalso. apply Hnotin. apply (in_map fst) in H. exact H.
    + rewrite (IH Hnd'). split; [tauto|].
      intros [H|H]; [congruence | exact H].
Qed.

Lemma set_fresh {A} (o : dict A) (k : string) (v : A) :
  ~ In k (List.map fst o) -> set o k v = (o ++ [(k, v)])%list.
Proof.
  induction o as [|[k' v'] o IH]; cbn; intro H; [reflexivity|].
  destruct (String.eqb_spec k' k) as [E|_]; [exfalso; apply H; left; exact E|].
  rewrite IH; [reflexivity|]. intro Hin. apply H. right. exact Hin.
Qed.

Lemma fromEntries_from {A} (l acc : dict A) :
  NoDup (List.map fst (acc ++ l)%list) ->
  fold_left (fun o kv => set o (fst kv) (snd kv)) l acc = (acc ++ l)%list.
Proof.
  revert acc. induction l as [|[k v] l IH]; intros acc Hnd; cbn.
  - rewrite app_nil_r. reflexivity.
  - rewrite set_fresh.
    + rewrite IH; rewrite <- app_assoc; [reflexivity | exact Hnd].
    + rewrite map_app in Hnd. cbn in Hnd.
      apply NoDup_remove_2 in Hnd. intro Hin. apply Hnd.
      apply in_or_app. left. exact Hin.
Qed.

(** An object built from entries with distinct keys has these entries. *)
Lemma fromEntries_distinct {A} (l : dict A) :
  distinctKeys l -> fromEntries l = l.
Proof. intro H. unfold fromEntries. rewrite fromEntries_from; [reflexivity | exact H]. Qed.

Lemma insertByIndex_perm {A} (kv : string * A) (l : list (string * A)) :
  Permutation (insertByIndex kv l) (kv :: l).
Proof.
  induction l as [|kv' l IH]; cbn; [reflexivity|].
  destruct (Z.ltb (indexOf kv) (indexOf kv')); [reflexivity|].
  rewrite IH. apply perm_swap.
Qed.

Lemma sortByIndex_perm {A} (l : list (string * A)) :
  Permutation (sortByIndex l) l.
Proof.
  induction l as [|kv l IH]; cbn; [reflexivity|].
  rewrite insertByIndex_perm, IH. reflexivity.
Qed.

Lemma filter_split_perm {A} (p : A -> bool) (l : list A) :
  Permutation (List.filter p l ++ List.filter (fun x => negb (p x)) l)%list l.
Proof.
  induction l as [|x l IH]; cbn; [reflexivity|].
  destruct (p x); cbn.
  - constructor. exact IH.
  - rewrite <- Permutation_middle. constructor. exact IH.
Qed.

(** The enumeration of an object lists its properties, each once. *)
Lemma entries_perm {A} (o : dict A) : Permutation (entries o) o.
Proof.
  unfold entries. rewrite sortByIndex_perm. apply filter_split_perm.
Qed.

Lemma entries_distinct {A} (o : dict A) :
  distinctKeys o -> distinctKeys (entries o).
Proof.
  unfold distinctKeys. intro H.
  eapply Permutation_NoDup; [|exact H].
  apply Permutation_map. symmetry. apply entries_perm.
Qed.

(** A copy of an object by spread has the same properties. *)
Lemma getOwn_spread {A} (o : dict A) (k : string) :
  distinctKeys o -> getOwn (spread o) k = getOwn o k.
Proof.
  intro H. unfold spread.
  rewrite fromEntries_distinct by (apply entries_distinct, H).
  destruct (getOwn o k) as [v|] eqn:E.
  - apply getOwn_In; [apply entries_distinct, H|].
    apply (Permutation_in _ (Permutation_sym (entries_perm o))).
    apply getOwn_In; assumption.
  - destruct (getOwn (entries o) k) as [v|] eqn:E'; [|reflexivity].
    apply getOwn_In in E'; [|apply entries_distinct, H].
    apply (Permutation_in _ (entries_perm o)) in E'.
    apply getOwn_In in E'; [congruence | exact H].
Qed.

Lemma set_keys {A} (o : dict A) (k : string) (v : A) :
  List.map fst (set o k v)
  = if existsb (String.eqb k) (List.map fst o) then List.map fst o
    else (List.map fst o ++ [k])%list.
Proof.
  induction o as [|[k' v'] o IH]; cbn; [reflexivity|].
  rewrite (String.eqb_sym k k').
  destruct (String.eqb k' k); cbn; [reflexivity|].
  rewrite IH. destruct (existsb (String.eqb k) (List.map fst o)); reflexivity.
Qed.

Lemma set_distinct {A} (o : dict A) (k : string) (v : A) :
  distinctKeys o -> distinctKeys (set o k v).
Proof.
  unfold distinctKeys. intro H. rewrite set_keys.
  destruct (existsb (String.eqb k) (List.map fst o)) eqn:E; [exact H|].
  apply NoDup_app; [exact H | constructor; [intros [] | constructor] |].
  intros x Hx [Hk | []]. subst x.
  assert (existsb (String.eqb k) (List.map fst o) = true) as E'
    by (apply existsb_exists; exists k; split;
        [exact Hx | apply String.eqb_refl]).
  congruence.
Qed.

Lemma set_keys_Forall {A} (P : string -> Prop) (o : dict A) (k : string) (v : A) :
  Forall P (List.map fst o) -> P k -> Forall P (List.map fst (set o k v)).
Proof.
  intros Ho Hk. rewrite set_keys.
  destruct (existsb (String.eqb k) (List.map fst o)); [exact Ho|].
  apply Forall_app. split; [exact Ho | constructor; [exact Hk | constructor]].
Qed.

(** An object with no array-index key enumerates in insertion order. *)
Lemma entries_insertion_order {A} (o : dict A) :
  Forall (fun k => arrayIndex k = None) (List.map fst o) -> entries o = o.
Proof.
  intro H. unfold entries.
  assert (List.filter isIndexKey o = []
          /\ List.filter (fun kv => negb (isIndexKey kv)) o = o) as [-> ->].
  { induction o as [|[k v] o IH]; cbn; [split; reflexivity|].
    inversion H as [|? ? Hk Ho]; subst.
    destruct (IH Ho) as [IH1 IH2].
    assert (isIndexKey (k, v) = false) as Hi
      by (unfold isIndexKey; cbn [fst]; rewrite Hk; reflexivity).
    rewrite Hi. cbn [negb]. rewrite IH2. split; [exact IH1 | reflexivity]. }
  reflexivity.
Qed.

End JS.

Import JS.


(** ** [src/services/csvTools.js] *)

Module CsvTools.
Local Open Scope list_scope.

(** The double quote character. *)
Definition dquote : ascii := ascii_of_N 34.
Definition comma : ascii := ","%char.
Definition newline : ascii := ascii_of_N 10.

(** *** Parsing *)

(** The loop of [parseLine]: [current] holds the field being read, latest
    character first. *)
Fixpoint parseLineLoop (line : list ascii) (current : list ascii)
  (inQuotes : bool) : list string :=
  match line with
  | [] => [trim (ofChars (rev current))]
  | ch :: line' =>
      if Ascii.eqb ch dquote then parseLineLoop line' current (negb inQuotes)
      else if (Ascii.eqb ch comma && negb inQuotes)%bool then
        trim (ofChars (rev current)) :: parseLineLoop line' [] inQuotes
      else parseLineLoop line' (ch :: current) inQuotes
  end.

Definition parseLine (line : string) : list string :=
  parseLineLoop (chars line) [] false.

(** [/^"|"$/g] *)
Definition edgeQuotes : regex :=
  RAlt (RSeq RBol (RChar dquote)) (RSeq (RChar dquote) REol).

Definition stripQuotes (s : string) : string := removeAll false edgeQuotes s.

(** [headers.forEach((h, i) => { obj[h] = (vals[i] || '').replace(...) })],
    for headers other than [__proto__], under which the program stores
    nothing. *)
Fixpoint fillRow (headers : list string) (vals : list string) (obj : object)
  : object :=
  match headers with
  | [] => obj
  | h :: headers' =>
      let v := match vals with v :: _ => v | [] => "" end in
      fillRow headers' (tl vals) (set obj h (VStr (stripQuotes v)))
  end.

Definition parseCsvToRows (text : string) : list string * list object :=
  let lines :=
    List.filter (fun l => negb (String.eqb (trim l) "")) (split newline text) in
  match lines with
  | first :: second :: others =>
      let headers := List.map stripQuotes (parseLine first) in
      (headers,
       List.map (fun line => fillRow headers (parseLine line) [])
         (second :: others))
  | _ => ([], [])
  end.

(** *** Outcomes

    A call either returns or throws. *)

Inductive outcome (A : Type) : Type :=
| Return (a : A)
| Throw (error : string).

Arguments Return {A} a.
Arguments Throw {A} error.

#[global] Instance outcome_bind : MBind outcome :=
  fun A B (f : A -> outcome B) (x : outcome A) =>
    match x with
    | Return a => f a
    | Throw e => Throw e
    end.

(** *** Column lookup *)

(** [/[\s_-]+/g] *)
Definition separators : regex :=
  RPlus (RSet (fun c => (isSpace c || Ascii.eqb c "_" || Ascii.eqb c "-")%bool)).

(** [norm] of [resolveCol] *)
Definition norm (s : string) : string :=
  removeAll false separators (toLowerCase s).

(** [a.find(p)] *)
Definition findStr (p : string -> bool) (l : list string) : option string :=
  List.find p l.

(** [resolveCol(rows, name)]. A [name] that is neither a string nor falsy
    has no [toLowerCase] method: normalising it throws a [TypeError]. *)
Definition resolveCol (rows : list object) (name : value) : outcome value :=
  match rows with
  | [] => Return name
  | row0 :: _ =>
      if negb (truthy name) then Return name
      else
        match name with
        | VStr s =>
            let keys := keys row0 in
            if existsb (String.eqb s) keys then Return name
            else
              let target := norm s in
              match findStr (fun k => String.eqb (norm k) target) keys with
              | Some k => if String.eqb k "" then Return name else Return (VStr k)
              | None => Return name
              end
        | _ => Throw "TypeError: s.toLowerCase is not a function"
        end
  end.

(** *** Math helpers *)

(** [r[col]]: the key is the string of [col]. *)
Definition cell (r : object) (col : value) : value := get r (toString col).

Definition numericValues (rows : list object) (col : value) : list number :=
  List.filter (fun v => negb (isNaN v))
    (List.map (fun r => parseFloat (cell r col)) rows).

Definition median (sorted : list number) : number :=
  let len := List.length sorted in
  if Nat.eqb (len mod 2) 0 then
    div (add (nth (len / 2 - 1) sorted NaN) (nth (len / 2) sorted NaN)) (ofZ 2)
  else nth (len / 2) sorted NaN.

(** [fmt = (n) => +n.toFixed(4)] *)
Definition fmt (n : number) : number := toFixedNumber 4 n.

(** [a.sort(cmp)]: a stable sort; [gt x y] says that [cmp(x, y) > 0].
    (The language fixes the result when the comparator is consistent; for
    the others, such as the comparator of [get_top_tweets] on rows whose
    value does not parse, it leaves the order to the engine.) *)
Fixpoint insertSorted {A} (gt : A -> A -> bool) (x : A) (l : list A) : list A :=
  match l with
  | [] => [x]
  | y :: l' => if gt x y then y :: insertSorted gt x l' else x :: l
  end.

Definition sortBy {A} (gt : A -> A -> bool) (l : list A) : list A :=
  fold_right (insertSorted gt) [] l.

(** [(a, b) => a - b] is positive *)
Definition numberGt (a b : number) : bool := ltb zero (sub a b).

Definition sum (vals : list number) : number := fold_left add vals zero.

(** *** Enrichment *)

(** [/favorite.?count/i], [/^likes?$/i], [/view.?count/i], [/^views?$/i] *)
Definition reFavoriteCount : regex :=
  RSeqs [RLit "favorite"; ROpt RAny; RLit "count"].
Definition reLikes : regex :=
  RSeqs [RBol; RLit "like"; ROpt (RChar "s"); REol].
Definition reViewCount : regex :=
  RSeqs [RLit "view"; ROpt RAny; RLit "count"].
Definition reViews : regex :=
  RSeqs [RBol; RLit "view"; ROpt (RChar "s"); REol].

(** [a || b] on the results of [find]: an empty string is falsy. *)
Definition orFound (a b : option string) : option string :=
  match a with
  | Some s => if String.eqb s "" then b else a
  | None => b
  end.

(** [!x] on the result of [find] *)
Definition notFound (a : option string) : bool :=
  match a with
  | Some s => String.eqb s ""
  | None => true
  end.

Definition favColOf (headers : list string) : option string :=
  orFound (findStr (test true reFavoriteCount) headers)
          (findStr (test true reLikes) headers).

Definition viewColOf (headers : list string) : option string :=
  orFound (findStr (test true reViewCount) headers)
          (findStr (test true reViews) headers).

(** The value of the computed column for one row. *)
Definition engagementOf (favCol viewCol : string) (r : object) : value :=
  let fav := parseFloat (get r favCol) in
  let view := parseFloat (get r viewCol) in
  if (negb (isNaN fav) && negb (isNaN view) && ltb zero view)%bool
  then VNum (toFixedNumber 6 (div fav view))
  else VNull.

(** [{ ...r, engagement: eng }] *)
Definition enrichRow (favCol viewCol : string) (r : object) : object :=
  set (spread r) "engagement" (engagementOf favCol viewCol r).

Definition enrichWithEngagement (rows : list object) (headers : list string)
  : list object * list string :=
  match rows with
  | [] => (rows, headers)
  | _ :: _ =>
      let favCol := favColOf headers in
      let viewCol := viewColOf headers in
      if (notFound favCol || notFound viewCol)%bool then (rows, headers)
      else if existsb (String.eqb "engagement") headers then (rows, headers)
      else
        match favCol, viewCol with
        | Some f, Some v => (List.map (enrichRow f v) rows, headers ++ ["engagement"])
        | _, _ => (rows, headers)
        end
  end.

(** *** The enrichment on a store of objects

    The same function with its arguments and results as references into
    a store, as the program has them: the rows array holds references to
    the row objects. The values a row holds are primitive, so a row is
    stored with its properties. *)

Definition loc : Type := positive.

Inductive stored : Type :=
| ObjectCell (o : object)
| RowsCell (rows : list loc)
| HeadersCell (headers : list string).

Definition readObject (σ : gmap loc stored) (l : loc) : option object :=
  match σ !! l with Some (ObjectCell o) => Some o | _ => None end.

Definition readRows (σ : gmap loc stored) (l : loc) : option (list loc) :=
  match σ !! l with Some (RowsCell rows) => Some rows | _ => None end.

Definition readHeaders (σ : gmap loc stored) (l : loc) : option (list string) :=
  match σ !! l with Some (HeadersCell headers) => Some headers | _ => None end.

Fixpoint readObjects (σ : gmap loc stored) (ls : list loc) : option (list object) :=
  match ls with
  | [] => Some []
  | l :: ls' =>
      match readObject σ l, readObjects σ ls' with
      | Some o, Some os => Some (o :: os)
      | _, _ => None
      end
  end.

(** A new cell, at a reference the store does not use. *)
Definition alloc (σ : gmap loc stored) (c : stored) : gmap loc stored * loc :=
  let l := fresh (dom σ) in (<[l := c]> σ, l).

Arguments alloc : simpl never.

(** [rows.map((r) => ({ ...r, engagement: eng }))]: one new object per row. *)
Fixpoint allocEnriched (f v : string) (σ : gmap loc stored) (rows : list object)
  : gmap loc stored * list loc :=
  match rows with
  | [] => (σ, [])
  | r :: rows' =>
      let '(σ1, l) := alloc σ (ObjectCell (enrichRow f v r)) in
      let '(σ2, ls) := allocEnriched f v σ1 rows' in
      (σ2, l :: ls)
  end.

(** [enrichWithEngagement(rows, headers)] on references; the result is
    the store after the call and the references [rows] and [headers] of
    the returned record. [None] when an argument is not what its
    parameter expects. *)
Definition enrichWithEngagementRef (σ : gmap loc stored) (rowsRef headersRef : loc)
  : option (gmap loc stored * loc * loc) :=
  match readRows σ rowsRef, readHeaders σ headersRef with
  | Some ls, Some headers =>
      match readObjects σ ls with
      | Some rows =>
          match rows with
          | [] => Some (σ, rowsRef, headersRef)
          | _ :: _ =>
              let favCol := favColOf headers in
              let viewCol := viewColOf headers in
              if (notFound favCol || notFound viewCol)%bool then
                Some (σ, rowsRef, headersRef)
              else if existsb (String.eqb "engagement") headers then
                Some (σ, rowsRef, headersRef)
              else
                match favCol, viewCol with
                | Some f, Some v =>
                    let '(σ1, ls') := allocEnriched f v σ rows in
                    let '(σ2, rowsRef') := alloc σ1 (RowsCell ls') in
                    let '(σ3, headersRef') :=
                      alloc σ2 (HeadersCell (headers ++ ["engagement"])) in
                    Some (σ3, rowsRef', headersRef')
                | _, _ => Some (σ, rowsRef, headersRef)
                end
          end
      | None => None
      end
  | _, _ => None
  end.

(** *** Frequency tables *)

(** [counts[v] = (counts[v] || 0) + 1], for a value whose key is not
    [inherited]: on the others the program reads the inherited member,
    which is not a number, and what it stores is not a count. *)
Definition countValue (counts : dict nat) (v : value) : dict nat :=
  let k := toString v in
  set counts k (match getOwn counts k with Some n => S n | None => 1%nat end).

(** [(a, b) => b[1] - a[1]] is positive *)
Definition countGt (a b : string * nat) : bool := Nat.ltb (snd a) (snd b).

(** [Object.entries(counts).sort((a, b) => b[1] - a[1])] *)
Definition ranked (counts : dict nat) : list (string * nat) :=
  sortBy countGt (entries counts).

(** *** Dataset summary

    [computeDatasetSummary] up to the text of each line: the lines that
    the program joins into the summary, in their order. The text of a
    line holds characters beyond the code units of this embedding (a
    bullet, a dash), so a line is given by the values that its text
    shows; no line at all stands for the empty summary. *)

Inductive columnDigest : Type :=
| NumericCol (name : string) (count : nat) (mean min max : number)
| CategoricalCol (name : string) (unique : nat) (top : string).

(** The values of a column that are neither [''], [undefined] nor [null]. *)
Definition presentValues (rows : list object) (h : string) : list value :=
  List.filter
    (fun v => match v with
              | VStr s => negb (String.eqb s "")
              | VUndefined | VNull => false
              | _ => true
              end)
    (List.map (fun r => get r h) rows).

Definition summaryCounts (vals : list value) : dict nat :=
  fold_left countValue vals [].

(** [`${v} (${n})`] *)
Definition entryText (vn : string * nat) : string :=
  (fst vn ++ " (" ++ showNat (snd vn) ++ ")")%string.

Definition columnDigestOf (rows : list object) (h : string) : columnDigest :=
  let vals := presentValues rows h in
  let numVals := List.filter (fun v => negb (isNaN v)) (List.map parseFloat vals) in
  let numericRatio :=
    div (ofNat (List.length numVals))
        (ofNat (match List.length vals with O => 1%nat | n => n end)) in
  if (leb (ofDecimal false 8 (-1)) numericRatio
      && Nat.ltb 0 (List.length numVals))%bool
  then
    NumericCol h (List.length numVals)
      (toFixedNumber 2 (div (sum numVals) (ofNat (List.length numVals))))
      (Math_min numVals) (Math_max numVals)
  else
    let counts := summaryCounts vals in
    let top :=
      join ", " (List.map entryText (firstn 5 (sortBy countGt (entries counts)))) in
    CategoricalCol h (List.length (keys counts)) top.

Definition isNumericCol (d : columnDigest) : bool :=
  match d with
  | NumericCol _ _ _ _ _ => true
  | CategoricalCol _ _ _ => false
  end.

(** A line of the summary: the title, with the numbers of rows and of
    columns; the heading of the numeric columns or of the categorical
    ones; the line of a column. *)
Inductive summaryLine : Type :=
| TitleLine (rows columns : nat)
| NumericHeading
| CategoricalHeading
| ColumnLine (d : columnDigest).

(** [if (cols.length) { lines.push(heading); cols.forEach(...) }] *)
Definition summarySection (heading : summaryLine) (cols : list columnDigest)
  : list summaryLine :=
  match cols with
  | [] => []
  | _ :: _ => heading :: List.map ColumnLine cols
  end.

Definition computeDatasetSummary (rows : list object) (headers : list string)
  : list summaryLine :=
  match rows, headers with
  | [], _ | _, [] => []
  | _, _ =>
      let digests := List.map (columnDigestOf rows) headers in
      let numericCols := List.filter isNumericCol digests in
      let categoricalCols :=
        List.filter (fun d => negb (isNumericCol d)) digests in
      TitleLine (List.length rows) (List.length headers)
      :: summarySection NumericHeading numericCols
      ++ summarySection CategoricalHeading categoricalCols
  end.

(** *** The tool executor *)

(** An argument that may or may not be an array ([Array.isArray]). *)
Inductive maybeArray (A : Type) : Type :=
| NotArray
| IsArray (items : list A).

Arguments NotArray {A}.
Arguments IsArray {A} items.

(** [Array.isArray(x) ? x : []] *)
Definition safeArray {A} (x : maybeArray A) : list A :=
  match x with
  | IsArray items => items
  | NotArray => []
  end.

Record statistics : Type := Statistics {
  st_count : nat;
  st_mean : number;
  st_median : number;
  st_std : number;
  st_min : number;
  st_max : number
}.

Record chartPoint : Type := ChartPoint {
  cp_date : value;
  cp_value : number;
  cp_label : string
}.

(** What a tool returns: the error mapping [{ error }] or the result
    mapping of one of the tools. *)
Inductive toolResult : Type :=
| ErrorResult (error : string)
| ColumnStats (column : value) (stats : statistics)
| ValueCounts (column : value) (total_rows : nat) (value_counts : dict nat)
| TopTweets (sort_column : value) (direction : string) (count : nat)
    (tweets : list object)
| MetricVsTime (data : list chartPoint) (metricColumn dateColumn : value)
| OpenUrl (openUrl : string) (title : value) (thumbnailUrl : value)
| FieldStats (field : value) (stats : statistics)
| GeneratedImage (mimeType : string) (data : string).

(** An attached image. *)
Record image : Type := Image { img_data : string; img_mimeType : string }.

(** What the image endpoint answered, as [generateImage] reads it. *)
Inductive imageReply : Type :=
| RequestFailed (message : string)
| InvalidBody (status : string)
| NotOk (error : option string)
| Ok (mimeType : option string) (image_base64 : option string).

(** What the executor takes from its environment: the reading of a date
    ([new Date(v).getTime()], NaN for an invalid date), the label of a
    time ([toLocaleDateString]) and the image endpoint. *)
Record host : Type := Host {
  dateTime : value -> number;
  dateLabel : number -> string;
  requestImage : value -> list image -> imageReply
}.

Definition quoted (s : string) : string :=
  (String dquote s ++ String dquote "")%string.

Definition availableHeadersOf (safeRows : list object) : list string :=
  match safeRows with
  | firstRow :: _ => keys firstRow
  | [] => []
  end.

Definition statisticsOf (vals : list number) : statistics :=
  let mean := div (sum vals) (ofNat (List.length vals)) in
  let sorted := sortBy numberGt vals in
  let variance :=
    div (fold_left (fun a b => add a (square (sub b mean))) vals zero)
        (ofNat (List.length vals)) in
  Statistics (List.length vals) (fmt mean) (fmt (median sorted))
    (fmt (sqrt variance)) (Math_min vals) (Math_max vals).

Definition compute_column_stats (args : object) (safeRows : list object)
  : outcome toolResult :=
  col ← resolveCol safeRows (get args "column");
  match numericValues safeRows col with
  | [] =>
      Return (ErrorResult
        ("No numeric values found in column " ++ quoted (toString col)
         ++ ". Available columns: " ++ join ", " (availableHeadersOf safeRows))%string)
  | vals => Return (ColumnStats col (statisticsOf vals))
  end.

(** The [counts] object of [get_value_counts]: [undefined] and [''] are
    not counted. *)
Definition valueCounts (safeRows : list object) (col : value) : dict nat :=
  fold_left
    (fun counts r =>
       match cell r col with
       | VUndefined => counts
       | VStr "" => counts
       | v => countValue counts v
       end)
    safeRows [].

Definition get_value_counts (args : object) (safeRows : list object)
  : outcome toolResult :=
  col ← resolveCol safeRows (get args "column");
  let topN := orValue (get args "top_n") (VNum (Num.ofZ 10)) in
  let sorted := sliceTo (ranked (valueCounts safeRows col)) topN in
  Return (ValueCounts col (List.length safeRows) (fromEntries sorted)).

(** [/^text$/i], [/text|content|tweet|body/i] *)
Definition reText : regex := RSeqs [RBol; RLit "text"; REol].
Definition reTextLike : regex :=
  RAlts [RLit "text"; RLit "content"; RLit "tweet"; RLit "body"].

(** The value of an optional column name, as an operand. *)
Definition colValue (c : option string) : value :=
  match c with Some k => VStr k | None => VUndefined end.

(** [String(v).slice(0, n)] *)
Definition prefix (n : nat) (s : string) : string := ofChars (firstn n (chars s)).

(** The comparator of [get_top_tweets] is positive. *)
Definition tweetGt (sortCol : value) (asc : value) (a b : object) : bool :=
  let av := parseFloat (cell a sortCol) in
  let bv := parseFloat (cell b sortCol) in
  if (negb (isNaN av) && negb (isNaN bv))%bool then
    if truthy asc then ltb zero (sub av bv) else ltb zero (sub bv av)
  else false.

Fixpoint mapi {A B} (f : nat -> A -> B) (i : nat) (l : list A) : list B :=
  match l with
  | [] => []
  | x :: l' => f i x :: mapi f (S i) l'
  end.

Definition get_top_tweets (args : object) (safeRows : list object)
  : outcome toolResult :=
  let availableHeaders := availableHeadersOf safeRows in
  resolved ← resolveCol safeRows (get args "sort_column");
  let sortCol := orValue resolved (get args "sort_column") in
  let n := orValue (get args "n") (VNum (Num.ofZ 10)) in
  let asc :=
    match get args "ascending" with
    | VUndefined | VNull => VBool false
    | v => v
    end in
  let textCol :=
    orFound (findStr (test true reText) availableHeaders)
            (findStr (test true reTextLike) availableHeaders) in
  let favCol := findStr (test true reFavoriteCount) availableHeaders in
  let viewCol := findStr (test true reViewCount) availableHeaders in
  let engCol := existsb (String.eqb "engagement") availableHeaders in
  let sorted := sortBy (tweetGt sortCol asc) safeRows in
  let topRows :=
    mapi (fun i r =>
            let out0 : object := [("rank", VNum (ofNat (S i)))] in
            let out1 :=
              if notFound textCol then out0
              else set out0 "text"
                     (VStr (prefix 150
                        (toString (orValue (cell r (colValue textCol)) (VStr ""))))) in
            let out2 :=
              match favCol with
              | Some f => if String.eqb f "" then out1 else set out1 f (get r f)
              | None => out1
              end in
            let out3 :=
              match viewCol with
              | Some v => if String.eqb v "" then out2 else set out2 v (get r v)
              | None => out2
              end in
            if engCol then set out3 "engagement" (get r "engagement") else out3)
         O (sliceTo sorted n) in
  match topRows with
  | [] =>
      Return (ErrorResult
        ("No rows found. Column " ++ quoted (toString sortCol)
         ++ " may not exist. Available: " ++ join ", " availableHeaders)%string)
  | _ =>
      Return (TopTweets sortCol
        (if truthy asc then "ascending (lowest first)"
         else "descending (highest first)")
        (List.length topRows) topRows)
  end.

(** A row of the series of [plot_metric_vs_time], or nothing. *)
Definition seriesPoint (h : host) (metricCol dateCol : value) (r : object)
  : option (value * number * number) :=
  let dateVal := cell r dateCol in
  let numVal := parseFloat (cell r metricCol) in
  if (negb (truthy dateVal) || isNaN numVal)%bool then None
  else
    let t := dateTime h dateVal in
    if isNaN t then None else Some (dateVal, t, numVal).

Definition plot_metric_vs_time (h : host) (args : object)
  (safeRows : list object) : outcome toolResult :=
  match safeRows with
  | [] =>
      Return (ErrorResult
        "No channel data loaded. Please drag and drop a JSON file with your YouTube channel data first, then ask to plot.")
  | _ =>
      metricCol ← resolveCol safeRows (get args "metric_column");
      dateCol ← resolveCol safeRows (get args "date_column");
      let vals :=
        List.concat
          (List.map (fun r => match seriesPoint h metricCol dateCol r with
                              | Some p => [p]
                              | None => []
                              end) safeRows) in
      match vals with
      | [] =>
          Return (ErrorResult
            ("No valid date+metric pairs. Check columns "
             ++ quoted (toString metricCol) ++ " and " ++ quoted (toString dateCol)
             ++ ". Available: " ++ join ", " (availableHeadersOf safeRows))%string)
      | _ =>
          let sorted :=
            sortBy (fun a b => ltb zero (sub (snd (fst a)) (snd (fst b)))) vals in
          Return (MetricVsTime
            (List.map (fun p => ChartPoint (fst (fst p)) (snd p)
                                  (dateLabel h (snd (fst p)))) sorted)
            metricCol dateCol)
      end
  end.

Definition compute_stats_json (args : object) (safeRows : list object)
  : outcome toolResult :=
  field ← resolveCol safeRows (get args "field");
  match numericValues safeRows field with
  | [] =>
      Return (ErrorResult
        ("No numeric values in field " ++ quoted (toString field)
         ++ ". Available: " ++ join ", " (availableHeadersOf safeRows))%string)
  | vals => Return (FieldStats field (statisticsOf vals))
  end.

(** The column patterns of [play_video]. *)
Definition reTitle : regex := RSeqs [RBol; RLit "title"; REol].
Definition reTitleLike : regex :=
  RAlts [RLit "title"; RLit "name"; RLit "videoTitle"; RLit "text"].
Definition reVideoUrl : regex := RSeqs [RBol; RLit "videoUrl"; REol].
Definition reUrlLike : regex :=
  RAlts [RLit "videoUrl"; RLit "video_url"; RLit "url"].
Definition reVideoId : regex := RSeqs [RBol; RLit "videoId"; REol].
Definition reIdLike : regex :=
  RAlts [RLit "videoId"; RLit "video_id"; RLit "id"].
Definition reViewCountExact : regex := RSeqs [RBol; RLit "viewCount"; REol].
Definition reViewsLike : regex :=
  RAlts [RLit "viewCount"; RSeqs [RLit "view"; ROpt RAny; RLit "count"]; RLit "views"].
Definition reThumbnail : regex := RLit "thumbnail".
(** [/^https?:\/\//i] *)
Definition reHttp : regex :=
  RSeqs [RBol; RLit "http"; ROpt (RChar "s"); RLit "://"].

(** [s.includes(t)] *)
Fixpoint includesChars (t l : list ascii) : bool :=
  (startsWith t l ||
   match l with
   | [] => false
   | _ :: l' => includesChars t l'
   end)%bool.

Definition includes (t s : string) : bool := includesChars (chars t) (chars s).

(** The state that [pickMatch] updates. *)
Record picked : Type := Picked {
  pk_url : string;
  pk_title : value;
  pk_thumbnail : value
}.

Definition pickMatch (titleCol urlCol idCol thumbCol : option string)
  (st : picked) (row : option object) : picked :=
  match row with
  | None => st
  | Some m =>
      let rawUrl := orValue (cell m (colValue urlCol)) (cell m (colValue idCol)) in
      if truthy rawUrl then
        Picked (trim (toString rawUrl))
          (if (negb (notFound titleCol) && truthy (cell m (colValue titleCol)))%bool
           then VStr (toString (cell m (colValue titleCol)))
           else pk_title st)
          (if (negb (notFound thumbCol) && truthy (cell m (colValue thumbCol)))%bool
           then VStr (toString (cell m (colValue thumbCol)))
           else pk_thumbnail st)
      else st
  end.

(** The suffix of an ordinal in the message of [play_video]. *)
Definition ordinalSuffix (n : number) : string :=
  if eqb n (Num.ofZ 1) then "st"
  else if eqb n (Num.ofZ 2) then "nd"
  else if eqb n (Num.ofZ 3) then "rd"
  else "th".

(** [safeRows[idx]] for [idx = Math.floor(ordinal) - 1], [ordinal >= 1]. *)
Definition rowAt (safeRows : list object) (ordinal : number) : option object :=
  match ordinal with
  | S754_finite _ _ _ => nth_error safeRows (Z.to_nat (floor ordinal - 1))
  | _ => None
  end.

Definition play_video (args : object) (safeRows : list object)
  : outcome toolResult :=
  let availableHeaders := availableHeadersOf safeRows in
  let find2 (a b : regex) :=
    orFound (findStr (test true a) availableHeaders)
            (findStr (test true b) availableHeaders) in
  let titleCol := find2 reTitle reTitleLike in
  let urlCol := find2 reVideoUrl reUrlLike in
  let idCol := find2 reVideoId reIdLike in
  let viewCol := find2 reViewCountExact reViewsLike in
  let thumbCol := findStr (test true reThumbnail) availableHeaders in
  let st0 :=
    Picked (trim (toString (orValue (get args "video_url") (VStr ""))))
      (orValue (get args "title") (VStr "Watch video"))
      (orValue (get args "thumbnail_url") VNull) in
  let pick := pickMatch titleCol urlCol idCol thumbCol st0 in
  let finish (st : picked) : outcome toolResult :=
    if String.eqb (pk_url st) "" then
      Return (ErrorResult
        "Provide video_url, search_by_title, most_viewed: true, or ordinal to find the video in the loaded data.")
    else
      Return (OpenUrl
        (if test true reHttp (pk_url st) then pk_url st
         else ("https://www.youtube.com/watch?v=" ++ pk_url st)%string)
        (pk_title st) (pk_thumbnail st)) in
  let noUrl := String.eqb (pk_url st0) "" in
  if (noUrl && truthy (get args "search_by_title"))%bool then
    let searchTerm := toLowerCase (trim (toString (get args "search_by_title"))) in
    if String.eqb searchTerm "" then
      Return (ErrorResult "search_by_title cannot be empty")
    else
      match titleCol with
      | Some t =>
          if String.eqb t "" then
            Return (ErrorResult
              ("No title column found in channel data. Available: "
               ++ join ", " availableHeaders)%string)
          else
            match
              List.find
                (fun r => includes searchTerm
                   (toLowerCase (toString (orValue (get r t) (VStr "")))))
                safeRows
            with
            | Some m => finish (pick (Some m))
            | None =>
                Return (ErrorResult
                  ("No video found with "
                   ++ quoted (toString (get args "search_by_title"))
                   ++ " in the title. Try a different keyword.")%string)
            end
      | None =>
          Return (ErrorResult
            ("No title column found in channel data. Available: "
             ++ join ", " availableHeaders)%string)
      end
  else if (noUrl && truthy (get args "most_viewed"))%bool then
    if notFound viewCol then
      Return (ErrorResult
        ("No view count column found. Available: "
         ++ join ", " availableHeaders)%string)
    else
      let views (r : object) : number :=
        let v := parseFloat (cell r (colValue viewCol)) in
        if (isNaN v || isZero v)%bool then zero else v in
      let sorted := sortBy (fun a b => ltb zero (sub (views b) (views a))) safeRows in
      finish (pick (nth_error sorted 0))
  else
    match get args "ordinal" with
    | VNum ordinal =>
        if (noUrl && leb (Num.ofZ 1) ordinal)%bool then
          match rowAt safeRows ordinal with
          | Some m => finish (pick (Some m))
          | None =>
              Return (ErrorResult
                ("There is no " ++ numberToString ordinal ++ ordinalSuffix ordinal
                 ++ " video. Only " ++ showNat (List.length safeRows)
                 ++ " video(s) in the data.")%string)
          end
        else finish st0
    | _ => finish st0
    end.

(** [generateImage]: every failure of the request is caught and becomes
    an error mapping. *)
Definition generateImage (h : host) (args : object) (safeImages : list image)
  : outcome toolResult :=
  match requestImage h (get args "prompt") safeImages with
  | RequestFailed message =>
      Return (ErrorResult ("Image generation failed: " ++ message)%string)
  | InvalidBody status =>
      Return (ErrorResult
        ("Server returned invalid response (" ++ status
         ++ "). Try again or use text-only generation.")%string)
  | NotOk (Some e) =>
      Return (ErrorResult (if String.eqb e "" then "Image generation failed" else e))
  | NotOk None => Return (ErrorResult "Image generation failed")
  | Ok mimeType (Some b64) =>
      if String.eqb b64 "" then Return (ErrorResult "No image returned from server")
      else
        Return (GeneratedImage
          (match mimeType with
           | Some m => if String.eqb m "" then "image/png" else m
           | None => "image/png"
           end) b64)
  | Ok _ None => Return (ErrorResult "No image returned from server")
  end.

Definition executeTool (h : host) (toolName : string) (args : object)
  (rows : maybeArray object) (attachedImages : maybeArray image)
  : outcome toolResult :=
  let safeRows := safeArray rows in
  let safeImages := safeArray attachedImages in
  if String.eqb toolName "compute_column_stats" then
    compute_column_stats args safeRows
  else if String.eqb toolName "get_value_counts" then
    get_value_counts args safeRows
  else if String.eqb toolName "get_top_tweets" then
    get_top_tweets args safeRows
  else if String.eqb toolName "plot_metric_vs_time" then
    plot_metric_vs_time h args safeRows
  else if String.eqb toolName "play_video" then
    play_video args safeRows
  else if String.eqb toolName "compute_stats_json" then
    compute_stats_json args safeRows
  else if String.eqb toolName "generateImage" then
    generateImage h args safeImages
  else Return (ErrorResult ("Unknown tool: " ++ toolName)%string).

(** *** The slim CSV *)

(** [SLIM_PATTERNS] *)
Definition SLIM_PATTERNS : list regex :=
  [RSeqs [RBol; RLit "text"; REol];
   RSeqs [RBol; RLit "language"; REol];
   RSeqs [RBol; RLit "type"; REol];
   RSeqs [RBol; RLit "view"; ROpt RAny; RLit "count"; REol];
   RSeqs [RBol; RLit "reply"; ROpt RAny; RLit "count"; REol];
   RSeqs [RBol; RLit "retweet"; ROpt RAny; RLit "count"; REol];
   RSeqs [RBol; RLit "quote"; ROpt RAny; RLit "count"; REol];
   RSeqs [RBol; RLit "favorite"; ROpt RAny; RLit "count"; REol];
   RSeqs [RBol;
          RGroup (RAlts [RSeqs [RLit "created"; ROpt RAny; RLit "at"];
                         RLit "timestamp"; RLit "date"]);
          REol];
   RSeqs [RBol; RLit "engagement"; REol]].

(** [String(v ?? '')] *)
Definition cellText (v : value) : string :=
  match v with
  | VUndefined | VNull => ""
  | _ => toString v
  end.

(** [escapeCell] of [buildSlimCsv]: a cell that holds a comma, a quote or
    a newline is written between quotes, its quotes doubled. *)
Definition escapeCell (v : value) : string :=
  let s := cellText v in
  if (includes "," s || includes (String dquote "") s
      || includes (String newline "") s)%bool
  then
    ofChars
      (dquote
       :: flat_map (fun c => if Ascii.eqb c dquote then [dquote; dquote] else [c])
            (chars s)
       ++ [dquote])
  else s.

(** The headers that match one of the patterns, in the order of the
    headers. *)
Definition slimHeadersOf (headers : list string) : list string :=
  List.filter (fun h => existsb (fun re => test true re h) SLIM_PATTERNS) headers.

Definition buildSlimCsv (rows : list object) (headers : list string) : string :=
  match rows, headers with
  | [], _ | _, [] => ""
  | _, _ =>
      match slimHeadersOf headers with
      | [] => ""
      | slimHeaders =>
          join (String newline "")
            (join "," slimHeaders
             :: List.map
                  (fun r =>
                     join "," (List.map (fun h => escapeCell (get r h)) slimHeaders))
                  rows)
      end
  end.

(** *** Definitions used to state the properties *)

(** The names of [CSV_TOOL_DECLARATIONS]. *)
Definition CSV_TOOL_NAMES : list string :=
  ["compute_column_stats"; "get_value_counts"; "get_top_tweets";
   "plot_metric_vs_time"; "play_video"; "compute_stats_json"; "generateImage"].

(** The arguments that name a column. *)
Definition COLUMN_ARGUMENTS : list string :=
  ["column"; "sort_column"; "metric_column"; "date_column"; "field"].

(** A column name as the declarations type it, or none: a string, or a
    falsy value. *)
Definition isColumnName (v : value) : bool :=
  match v with
  | VStr _ => true
  | _ => negb (truthy v)
  end.

Definition columnArgumentsAreNames (args : object) : bool :=
  forallb (fun k => isColumnName (get args k)) COLUMN_ARGUMENTS.

(** A host whose dates are all invalid and whose image endpoint cannot be
    reached; the tools that read no date and request no image do not
    depend on the host. *)
Definition offlineHost : host :=
  Host (fun _ => NaN) (fun _ => "") (fun _ _ => RequestFailed "Failed to fetch").

(** A store [σ'] extends [σ]: every cell of [σ] is in [σ'], unchanged. *)
Definition extends (σ σ' : gmap loc stored) : Prop :=
  forall l (c : stored), σ !! l = Some c -> σ' !! l = Some c.

(** What a row becomes: every property other than [engagement] is kept,
    and [engagement] holds the computed value. *)
Definition enrichedFrom (f v : string) (r r' : object) : Prop :=
  (forall k, k <> "engagement" -> getOwn r' k = getOwn r k)
  /\ getOwn r' "engagement" = Some (engagementOf f v r)
  /\ (getOwn r "engagement" = None ->
      forall k x, getOwn r k = Some x -> getOwn r' k = Some x).

(** A store with one row, and the call on it. *)
Definition exampleStore : gmap loc stored :=
  <[1%positive := RowsCell [3%positive]]>
    (<[2%positive := HeadersCell ["Favorite Count"; "View Count"]]>
       (<[3%positive := ObjectCell [("Favorite Count", VStr "5");
                                    ("View Count", VStr "100")]]> ∅)).

(** A field written between quotes. *)
Definition quotedField (content : list ascii) : list ascii :=
  dquote :: content ++ [dquote].

(** The content of a field with every quote doubled. *)
Definition escapeQuotes (content : list ascii) : list ascii :=
  flat_map (fun c => if Ascii.eqb c dquote then [dquote; dquote] else [c]) content.

(** The content of a field with every quote removed. *)
Definition removeQuotes (content : list ascii) : list ascii :=
  List.filter (fun c => negb (Ascii.eqb c dquote)) content.

(** Fields separated by commas. *)
Fixpoint joinFields (fields : list (list ascii)) : list ascii :=
  match fields with
  | [] => []
  | [f] => f
  | f :: fields' => f ++ comma :: joinFields fields'
  end.

(** Every character of [s] satisfies [P]. *)
Definition allChars (P : ascii -> Prop) (s : string) : Prop :=
  Forall P (chars s).

(** A value of a parsed row: a string of characters that satisfy [P]. *)
Definition stringOf (P : ascii -> Prop) (v : value) : Prop :=
  exists s, v = VStr s /\ allChars P s.

(** The arithmetic mean, and the population variance: the sum of the
    squared deviations from the mean divided by the number of values
    (these two definitions follow the wording of the specification). *)
Definition meanOf (vals : list number) : number :=
  div (sum vals) (ofNat (List.length vals)).

Definition populationVariance (vals : list number) : number :=
  div (sum (List.map (fun b => square (sub b (meanOf vals))) vals))
      (ofNat (List.length vals)).

(** The distinct keys of a scan, in the order in which each is first
    seen. *)
Definition firstSeen (scanned : list string) : list string :=
  fold_left
    (fun seen k => if existsb (String.eqb k) seen then seen else seen ++ [k])
    scanned [].

(** The cells that [get_value_counts] counts. *)
Definition countedCells (rows : list object) (col : value) : list value :=
  List.filter
    (fun v => match v with
              | VUndefined => false
              | VStr "" => false
              | _ => true
              end)
    (List.map (fun r => cell r col) rows).

(** Descending counts. *)
Definition descending : list (string * nat) -> Prop :=
  StronglySorted (fun a b => (snd b <= snd a)%nat).

(** The lines of a text that [parseCsvToRows] and [parseCSV] keep: the
    ones that are not blank. *)
Definition nonBlankLines (text : string) : list string :=
  List.filter (fun l => negb (String.eqb (trim l) "")) (split newline text).

(** A string with no white space at either end. *)
Definition trimmed (s : string) : Prop :=
  (forall c l, chars s = c :: l -> isSpace c = false)
  /\ (forall c l, chars s = l ++ [c] -> isSpace c = false).

(** The name of the column that a digest describes. *)
Definition digestName (d : columnDigest) : string :=
  match d with
  | NumericCol name _ _ _ _ => name
  | CategoricalCol name _ _ => name
  end.

(** The entry that [get_top_tweets] makes of the row [r] at position [i]
    of the sorted rows. *)
Definition tweetOf (textCol favCol viewCol : option string) (engCol : bool)
  (i : nat) (r : object) : object :=
  let out0 : object := [("rank", VNum (ofNat (S i)))] in
  let out1 :=
    if notFound textCol then out0
    else set out0 "text"
           (VStr (prefix 150
              (toString (orValue (cell r (colValue textCol)) (VStr ""))))) in
  let out2 :=
    match favCol with
    | Some f => if String.eqb f "" then out1 else set out1 f (get r f)
    | None => out1
    end in
  let out3 :=
    match viewCol with
    | Some v => if String.eqb v "" then out2 else set out2 v (get r v)
    | None => out2
    end in
  if engCol then set out3 "engagement" (get r "engagement") else out3.

(** What [play_video] does with the state it ends with: an error when it
    holds no URL, the link otherwise. *)
Definition openVideo (st : picked) : outcome toolResult :=
  if String.eqb (pk_url st) "" then
    Return (ErrorResult
      "Provide video_url, search_by_title, most_viewed: true, or ordinal to find the video in the loaded data.")
  else
    Return (OpenUrl
      (if test true reHttp (pk_url st) then pk_url st
       else ("https://www.youtube.com/watch?v=" ++ pk_url st)%string)
      (pk_title st) (pk_thumbnail st)).

(** The values of a column that [computeDatasetSummary] reads as numbers. *)
Definition numericPresent (rows : list object) (h : string) : list number :=
  List.filter (fun v => negb (isNaN v)) (List.map parseFloat (presentValues rows h)).

(** The characters that [norm] removes. *)
Definition isSeparator (c : ascii) : bool :=
  (isSpace c || Ascii.eqb c "_" || Ascii.eqb c "-")%bool.

(** The characters of a text other than separators. *)
Definition withoutSeparators (l : list ascii) : list ascii :=
  List.filter (fun c => negb (isSeparator c)) l.

(** *** Properties of the enrichment *)

Lemma includes_engagement (headers : list string) :
  In "engagement" headers ->
  existsb (String.eqb "engagement") headers = true.
Proof.
  intro H. apply existsb_exists. exists "engagement".
  split; [exact H | apply String.eqb_refl].
Qed.

Lemma enrich_unchanged_when_present (rows : list object) (headers : list string) :
  In "engagement" headers ->
  enrichWithEngagement rows headers = (rows, headers).
Proof.
  intro H. unfold enrichWithEngagement.
  destruct rows as [|r rows']; [reflexivity|].
  destruct (notFound (favColOf headers) || notFound (viewColOf headers))%bool;
    [reflexivity|].
  rewrite (includes_engagement _ H). reflexivity.
Qed.

(** Whatever the input, the result of [enrichWithEngagement] is either
    the input or carries an [engagement] header. *)
Lemma enrich_result_cases (rows : list object) (headers : list string) :
  enrichWithEngagement rows headers = (rows, headers)
  \/ In "engagement" (snd (enrichWithEngagement rows headers)).
Proof.
  unfold enrichWithEngagement.
  destruct rows as [|r rows']; [left; reflexivity|].
  destruct (notFound (favColOf headers) || notFound (viewColOf headers))%bool;
    [left; reflexivity|].
  destruct (existsb (String.eqb "engagement") headers); [left; reflexivity|].
  destruct (favColOf headers) as [f|], (viewColOf headers) as [v|];
    try (left; reflexivity).
  right. cbn [snd]. apply in_or_app. right. left. reflexivity.
Qed.

(** Applying the enrichment twice is the same as applying it once, for
    every input. *)
Lemma enrich_twice (rows : list object) (headers : list string) :
  enrichWithEngagement (fst (enrichWithEngagement rows headers))
                       (snd (enrichWithEngagement rows headers))
  = enrichWithEngagement rows headers.
Proof.
  destruct (enrich_result_cases rows headers) as [Hsame | Hin].
  - rewrite Hsame. cbn [fst snd]. exact Hsame.
  - rewrite (enrich_unchanged_when_present _ _ Hin).
    symmetry. apply surjective_pairing.
Qed.

(** C6. [enrichWithEngagement] is idempotent: when the header list
    already has an [engagement] column the input is returned unchanged,
    so that applying it twice yields the same headers and rows as
    applying it once. *)
Theorem enrich_idempotent (rows : list object) (headers : list string) :
  In "engagement" headers ->
  enrichWithEngagement rows headers = (rows, headers)
  /\ enrichWithEngagement (fst (enrichWithEngagement rows headers))
                          (snd (enrichWithEngagement rows headers))
     = enrichWithEngagement rows headers.
Proof.
  intro H. split.
  - apply enrich_unchanged_when_present, H.
  - apply enrich_twice.
Qed.

Lemma enrich_idempotent_witness :
  In "engagement" ["Favorite Count"; "View Count"; "engagement"]
  /\ enrichWithEngagement
       [[("Favorite Count", VStr "5"); ("View Count", VStr "100");
         ("engagement", VStr "kept")]]
       ["Favorite Count"; "View Count"; "engagement"]
     = ([[("Favorite Count", VStr "5"); ("View Count", VStr "100");
          ("engagement", VStr "kept")]],
        ["Favorite Count"; "View Count"; "engagement"]).
Proof.
  split.
  - right; right; left; reflexivity.
  - apply (enrich_idempotent
             [[("Favorite Count", VStr "5"); ("View Count", VStr "100");
               ("engagement", VStr "kept")]]
             ["Favorite Count"; "View Count"; "engagement"]).
    right; right; left; reflexivity.
Defined.

(** *** The computed column *)

Lemma findStr_holds (p : string -> bool) (l : list string) (s : string) :
  findStr p l = Some s -> p s = true.
Proof. intro H. apply (find_some _ _ H). Qed.

(** A detected column has a name. *)
Lemma favColOf_named (headers : list string) (f : string) :
  favColOf headers = Some f -> notFound (Some f) = false.
Proof.
  unfold favColOf, orFound. intro H. cbn.
  destruct (String.eqb_spec f "") as [->|_]; [|reflexivity].
  destruct (findStr (test true reFavoriteCount) headers) as [s|] eqn:E1.
  - destruct (String.eqb_spec s "") as [->|_].
    + apply findStr_holds in H. vm_compute in H. discriminate H.
    + injection H as ->. apply findStr_holds in E1. vm_compute in E1. discriminate E1.
  - apply findStr_holds in H. vm_compute in H. discriminate H.
Qed.

Lemma viewColOf_named (headers : list string) (v : string) :
  viewColOf headers = Some v -> notFound (Some v) = false.
Proof.
  unfold viewColOf, orFound. intro H. cbn.
  destruct (String.eqb_spec v "") as [->|_]; [|reflexivity].
  destruct (findStr (test true reViewCount) headers) as [s|] eqn:E1.
  - destruct (String.eqb_spec s "") as [->|_].
    + apply findStr_holds in H. vm_compute in H. discriminate H.
    + injection H as ->. apply findStr_holds in E1. vm_compute in E1. discriminate E1.
  - apply findStr_holds in H. vm_compute in H. discriminate H.
Qed.

Lemma excludes_engagement (headers : list string) :
  ~ In "engagement" headers ->
  existsb (String.eqb "engagement") headers = false.
Proof.
  intro H. destruct (existsb (String.eqb "engagement") headers) eqn:E;
    [|reflexivity].
  apply existsb_exists in E. destruct E as [x [Hin Hx]].
  apply String.eqb_eq in Hx. subst x. contradiction.
Qed.

(** The enrichment, when it applies. *)
Lemma enrich_applies (rows : list object) (headers : list string) (f v : string) :
  rows <> [] ->
  favColOf headers = Some f ->
  viewColOf headers = Some v ->
  ~ In "engagement" headers ->
  enrichWithEngagement rows headers
  = (List.map (enrichRow f v) rows, headers ++ ["engagement"]).
Proof.
  intros Hrows Hf Hv Hno. unfold enrichWithEngagement.
  destruct rows as [|r rows']; [contradiction|].
  rewrite Hf, Hv, (favColOf_named _ _ Hf), (viewColOf_named _ _ Hv).
  cbn [orb]. rewrite (excludes_engagement _ Hno). reflexivity.
Qed.

Lemma engagementOf_enrichRow (f v : string) (r : object) :
  get (enrichRow f v r) "engagement" = engagementOf f v r.
Proof. unfold enrichRow. apply get_set_same. Qed.

(** C7 (as amended). For a non-empty row set whose headers have a
    favorites-like and a views-like column and no [engagement] column,
    the enrichment appends [engagement] to the headers and gives every
    row an [engagement] value: favorites divided by views rounded to 6
    decimals when both parse and views is greater than zero, and null
    otherwise, in particular when views is zero or a value fails to
    parse. *)
Theorem enrich_engagement_values (rows : list object) (headers : list string)
  (f v : string) :
  rows <> [] ->
  favColOf headers = Some f ->
  viewColOf headers = Some v ->
  ~ In "engagement" headers ->
  snd (enrichWithEngagement rows headers) = headers ++ ["engagement"]
  /\ List.length (fst (enrichWithEngagement rows headers)) = List.length rows
  /\ forall i r,
       nth_error rows i = Some r ->
       exists r',
         nth_error (fst (enrichWithEngagement rows headers)) i = Some r'
         /\ get r' "engagement"
            = (if (negb (isNaN (parseFloat (get r f)))
                   && negb (isNaN (parseFloat (get r v)))
                   && ltb zero (parseFloat (get r v)))%bool
               then VNum (toFixedNumber 6
                            (div (parseFloat (get r f)) (parseFloat (get r v))))
               else VNull)
         /\ (isNaN (parseFloat (get r f)) = true
             \/ isNaN (parseFloat (get r v)) = true
             \/ isZero (parseFloat (get r v)) = true ->
             get r' "engagement" = VNull).
Proof.
  intros Hrows Hf Hv Hno.
  rewrite (enrich_applies rows headers f v Hrows Hf Hv Hno). cbn [fst snd].
  split; [reflexivity|]. split; [apply length_map|].
  intros i r Hi. exists (enrichRow f v r). split.
  - rewrite nth_error_map, Hi. reflexivity.
  - rewrite engagementOf_enrichRow. unfold engagementOf. split; [reflexivity|].
    intros [H | [H | H]].
    + rewrite H. reflexivity.
    + rewrite H. cbn. rewrite andb_false_r. reflexivity.
    + destruct (parseFloat (get r v)); try discriminate H.
      cbn. rewrite !andb_false_r. reflexivity.
Qed.

Lemma enrich_engagement_values_witness :
  snd (enrichWithEngagement
         [[("Favorite Count", VStr "5"); ("View Count", VStr "100")];
          [("Favorite Count", VStr "7"); ("View Count", VStr "0")]]
         ["Favorite Count"; "View Count"])
  = ["Favorite Count"; "View Count"; "engagement"].
Proof.
  apply (enrich_engagement_values
           [[("Favorite Count", VStr "5"); ("View Count", VStr "100")];
            [("Favorite Count", VStr "7"); ("View Count", VStr "0")]]
           ["Favorite Count"; "View Count"] "Favorite Count" "View Count").
  - discriminate.
  - vm_compute. reflexivity.
  - vm_compute. reflexivity.
  - cbn. intros [H | [H | []]]; discriminate H.
Defined.

(** With a negative number of views both values parse and views is not
    zero, yet the computed value is null, not the ratio [-2]; and an empty
    row set is returned as it is, with no header appended. *)
Lemma enrich_negative_views_is_null :
  enrichWithEngagement
    [[("Favorite Count", VStr "10"); ("View Count", VStr "-5")]]
    ["Favorite Count"; "View Count"]
  = ([[("Favorite Count", VStr "10"); ("View Count", VStr "-5");
       ("engagement", VNull)]],
     ["Favorite Count"; "View Count"; "engagement"])
  /\ parseFloat (VStr "10") = Num.ofZ 10
  /\ parseFloat (VStr "-5") = Num.ofZ (-5)
  /\ toFixedNumber 6 (div (Num.ofZ 10) (Num.ofZ (-5))) = Num.ofZ (-2)
  /\ enrichWithEngagement [] ["Favorite Count"; "View Count"]
     = ([], ["Favorite Count"; "View Count"]).
Proof. repeat split; vm_compute; reflexivity. Qed.

Lemma extends_refl (σ : gmap loc stored) : extends σ σ.
Proof. intros l c H. exact H. Qed.

Lemma extends_trans (σ1 σ2 σ3 : gmap loc stored) :
  extends σ1 σ2 -> extends σ2 σ3 -> extends σ1 σ3.
Proof. intros H12 H23 l c H. apply H23, H12, H. Qed.

Lemma alloc_fresh (σ : gmap loc stored) (c : stored) :
  σ !! snd (alloc σ c) = None.
Proof.
  unfold alloc. cbn. apply not_elem_of_dom. apply is_fresh.
Qed.

Lemma alloc_extends (σ : gmap loc stored) (c : stored) :
  extends σ (fst (alloc σ c)).
Proof.
  intros l c' H. unfold alloc. cbn.
  rewrite lookup_insert_ne; [exact H|].
  intro E. pose proof (alloc_fresh σ c) as Hf. unfold alloc in Hf. cbn in Hf.
  rewrite E in Hf. congruence.
Qed.

Lemma alloc_lookup (σ : gmap loc stored) (c : stored) :
  fst (alloc σ c) !! snd (alloc σ c) = Some c.
Proof. unfold alloc. cbn. apply lookup_insert_eq. Qed.

Lemma extends_readObject (σ σ' : gmap loc stored) (l : loc) (o : object) :
  extends σ σ' -> readObject σ l = Some o -> readObject σ' l = Some o.
Proof.
  unfold readObject. intros Hext H.
  destruct (σ !! l) as [[o'| |]|] eqn:E; try discriminate H.
  rewrite (Hext _ _ E). exact H.
Qed.

Lemma extends_readObjects (σ σ' : gmap loc stored) (ls : list loc) (os : list object) :
  extends σ σ' -> readObjects σ ls = Some os -> readObjects σ' ls = Some os.
Proof.
  intro Hext. revert os. induction ls as [|l ls IH]; cbn; intros os H; [exact H|].
  destruct (readObject σ l) as [o|] eqn:E; [|discriminate H].
  destruct (readObjects σ ls) as [os'|]; [|discriminate H].
  rewrite (extends_readObject _ _ _ _ Hext E), (IH os' eq_refl). exact H.
Qed.

(** What [allocEnriched] does to the store. *)
Lemma allocEnriched_spec (f v : string) (rows : list object) (σ : gmap loc stored) :
  let σ' := fst (allocEnriched f v σ rows) in
  let ls := snd (allocEnriched f v σ rows) in
  extends σ σ'
  /\ Forall (fun l => σ !! l = None) ls
  /\ NoDup ls
  /\ readObjects σ' ls = Some (List.map (enrichRow f v) rows).
Proof.
  revert σ. induction rows as [|r rows IH]; intro σ; cbn.
  - repeat split; [apply extends_refl | constructor | constructor].
  - pose proof (alloc_fresh σ (ObjectCell (enrichRow f v r))) as Hfresh.
    pose proof (alloc_extends σ (ObjectCell (enrichRow f v r))) as Hext.
    pose proof (alloc_lookup σ (ObjectCell (enrichRow f v r))) as Hlook.
    destruct (alloc σ (ObjectCell (enrichRow f v r))) as [σ1 l]. cbn in *.
    specialize (IH σ1).
    destruct (allocEnriched f v σ1 rows) as [σ2 ls]. cbn in *.
    destruct IH as (Hext2 & Hnone & Hnd & Hread).
    repeat split.
    + eapply extends_trans; eassumption.
    + constructor; [exact Hfresh|].
      eapply Forall_impl; [|exact Hnone].
      intros l' Hl'. cbn in Hl'.
      destruct (σ !! l') as [c|] eqn:E; [|reflexivity].
      rewrite (Hext _ _ E) in Hl'. discriminate Hl'.
    + constructor; [|exact Hnd].
      intro Hin. rewrite Forall_forall in Hnone.
      specialize (Hnone l Hin). congruence.
    + unfold readObject at 1. rewrite (Hext2 _ _ Hlook), Hread. reflexivity.
Qed.

Lemma enrichRow_enrichedFrom (f v : string) (r : object) :
  distinctKeys r -> enrichedFrom f v r (enrichRow f v r).
Proof.
  intro Hd. unfold enrichedFrom, enrichRow.
  assert (forall k, k <> "engagement" ->
            getOwn (set (spread r) "engagement" (engagementOf f v r)) k
            = getOwn r k) as Hkeep.
  { intros k Hk. rewrite getOwn_set_other by exact Hk. apply getOwn_spread, Hd. }
  split; [exact Hkeep|]. split; [apply getOwn_set_same|].
  intros Hnone k x Hk. rewrite Hkeep; [exact Hk|].
  intro E. subst k. congruence.
Qed.

Lemma enrichedFrom_map (f v : string) (rows : list object) :
  Forall distinctKeys rows ->
  Forall2 (enrichedFrom f v) rows (List.map (enrichRow f v) rows).
Proof.
  induction 1 as [|r rows Hr _ IH]; cbn; constructor.
  - apply enrichRow_enrichedFrom, Hr.
  - exact IH.
Qed.

Lemma readRows_alloc (σ : gmap loc stored) (ls : list loc) :
  readRows (fst (alloc σ (RowsCell ls))) (snd (alloc σ (RowsCell ls))) = Some ls.
Proof. unfold readRows. rewrite alloc_lookup. reflexivity. Qed.

Lemma readHeaders_alloc (σ : gmap loc stored) (hs : list string) :
  readHeaders (fst (alloc σ (HeadersCell hs))) (snd (alloc σ (HeadersCell hs)))
  = Some hs.
Proof. unfold readHeaders. rewrite alloc_lookup. reflexivity. Qed.

Lemma extends_readRows (σ σ' : gmap loc stored) (l : loc) (ls : list loc) :
  extends σ σ' -> readRows σ l = Some ls -> readRows σ' l = Some ls.
Proof.
  unfold readRows. intros Hext H.
  destruct (σ !! l) as [[| rows |]|] eqn:E; try discriminate H.
  rewrite (Hext _ _ E). exact H.
Qed.

Lemma extends_fresh (σ σ' : gmap loc stored) (l : loc) :
  extends σ σ' -> σ' !! l = None -> σ !! l = None.
Proof.
  intros Hext H. destruct (σ !! l) as [c|] eqn:E; [|reflexivity].
  rewrite (Hext _ _ E) in H. discriminate H.
Qed.

(** The call on references, when the enrichment applies: three
    allocations, and nothing else. *)
Lemma enrichRef_applies (σ : gmap loc stored) (rowsRef headersRef : loc)
  (ls : list loc) (rows : list object) (headers : list string) (f v : string) :
  readRows σ rowsRef = Some ls ->
  readObjects σ ls = Some rows ->
  readHeaders σ headersRef = Some headers ->
  rows <> [] ->
  favColOf headers = Some f ->
  viewColOf headers = Some v ->
  ~ In "engagement" headers ->
  exists σ' rowsRef' headersRef' ls',
    enrichWithEngagementRef σ rowsRef headersRef = Some (σ', rowsRef', headersRef')
    /\ extends σ σ'
    /\ readRows σ' rowsRef' = Some ls'
    /\ readObjects σ' ls' = Some (List.map (enrichRow f v) rows)
    /\ readHeaders σ' headersRef' = Some (headers ++ ["engagement"])
    /\ σ !! rowsRef' = None
    /\ σ !! headersRef' = None
    /\ Forall (fun l => σ !! l = None) ls'
    /\ NoDup ls'.
Proof.
  intros Hrows Hobjs Hheaders Hne Hf Hv Hno.
  unfold enrichWithEngagementRef. rewrite Hrows, Hheaders, Hobjs.
  destruct rows as [|r rows']; [contradiction|].
  rewrite Hf, Hv, (favColOf_named _ _ Hf), (viewColOf_named _ _ Hv).
  cbn [orb]. rewrite (excludes_engagement _ Hno).
  pose proof (allocEnriched_spec f v (r :: rows') σ) as Hspec.
  destruct (allocEnriched f v σ (r :: rows')) as [σ1 ls']. cbn [fst snd] in Hspec.
  destruct Hspec as (Hext1 & Hnone & Hnd & Hread).
  pose proof (alloc_fresh σ1 (RowsCell ls')) as Hfresh2.
  pose proof (alloc_extends σ1 (RowsCell ls')) as Hext2.
  pose proof (readRows_alloc σ1 ls') as Hrr.
  destruct (alloc σ1 (RowsCell ls')) as [σ2 rowsRef']. cbn [fst snd] in *.
  pose proof (alloc_fresh σ2 (HeadersCell (headers ++ ["engagement"]))) as Hfresh3.
  pose proof (alloc_extends σ2 (HeadersCell (headers ++ ["engagement"]))) as Hext3.
  pose proof (readHeaders_alloc σ2 (headers ++ ["engagement"])) as Hhr.
  destruct (alloc σ2 (HeadersCell (headers ++ ["engagement"]))) as [σ3 headersRef'].
  cbn [fst snd] in *.
  exists σ3, rowsRef', headersRef', ls'.
  split; [reflexivity|]. split.
  { eapply extends_trans; [exact Hext1|]. eapply extends_trans; eassumption. }
  split; [eapply extends_readRows; eassumption|].
  split.
  { eapply extends_readObjects; [|exact Hread].
    eapply extends_trans; eassumption. }
  split; [exact Hhr|].
  split; [eapply extends_fresh; eassumption|].
  split.
  { eapply extends_fresh; [|exact Hfresh3]. eapply extends_trans; eassumption. }
  split; assumption.
Qed.

(** The call on references, when the enrichment does not apply. *)
Lemma enrichRef_skips (σ : gmap loc stored) (rowsRef headersRef : loc)
  (ls : list loc) (rows : list object) (headers : list string) :
  readRows σ rowsRef = Some ls ->
  readObjects σ ls = Some rows ->
  readHeaders σ headersRef = Some headers ->
  enrichWithEngagement rows headers = (rows, headers) ->
  rows = [] \/ favColOf headers = None \/ viewColOf headers = None
  \/ In "engagement" headers ->
  enrichWithEngagementRef σ rowsRef headersRef = Some (σ, rowsRef, headersRef).
Proof.
  intros Hrows Hobjs Hheaders _ Hcase.
  unfold enrichWithEngagementRef. rewrite Hrows, Hheaders, Hobjs.
  destruct rows as [|r rows']; [reflexivity|].
  destruct Hcase as [H | [H | [H | H]]].
  - discriminate H.
  - rewrite H. reflexivity.
  - rewrite H. cbn [notFound]. rewrite orb_true_r. reflexivity.
  - rewrite (includes_engagement _ H).
    destruct (notFound (favColOf headers) || notFound (viewColOf headers))%bool;
      reflexivity.
Qed.

Lemma extends_readHeaders (σ σ' : gmap loc stored) (l : loc) (hs : list string) :
  extends σ σ' -> readHeaders σ l = Some hs -> readHeaders σ' l = Some hs.
Proof.
  unfold readHeaders. intros Hext H.
  destruct (σ !! l) as [[| |hs']|] eqn:E; try discriminate H.
  rewrite (Hext _ _ E). exact H.
Qed.

(** The enrichment applies, or it returns its input. *)
Lemma enrich_cases (rows : list object) (headers : list string) :
  (rows <> []
   /\ exists f v, favColOf headers = Some f /\ viewColOf headers = Some v
                  /\ ~ In "engagement" headers)
  \/ (enrichWithEngagement rows headers = (rows, headers)
      /\ (rows = [] \/ favColOf headers = None \/ viewColOf headers = None
          \/ In "engagement" headers)).
Proof.
  destruct rows as [|r rows']; [right; split; [reflexivity | left; reflexivity]|].
  destruct (in_dec string_dec "engagement" headers) as [Hin|Hno].
  { right. split; [apply enrich_unchanged_when_present, Hin | tauto]. }
  destruct (favColOf headers) as [f|] eqn:Hf.
  - destruct (viewColOf headers) as [v|] eqn:Hv.
    + left. split; [discriminate|]. exists f, v. tauto.
    + right. split; [|tauto]. unfold enrichWithEngagement.
      rewrite Hv. cbn [notFound]. rewrite orb_true_r. reflexivity.
  - right. split; [|tauto]. unfold enrichWithEngagement.
    rewrite Hf. reflexivity.
Qed.

(** C10. [enrichWithEngagement] never mutates its inputs: after the call
    the rows array, every row object and the headers array are in the
    store as they were. When the enrichment applies, the returned rows
    are new objects that keep every property of the row they come from
    and add [engagement], and the returned headers are a new array, the
    input headers followed by [engagement]; when a detected column is
    absent the very references passed in are returned. *)
Theorem enrich_does_not_mutate (σ : gmap loc stored) (rowsRef headersRef : loc)
  (ls : list loc) (rows : list object) (headers : list string) :
  readRows σ rowsRef = Some ls ->
  readObjects σ ls = Some rows ->
  readHeaders σ headersRef = Some headers ->
  Forall distinctKeys rows ->
  exists σ' rowsRef' headersRef' ls',
    enrichWithEngagementRef σ rowsRef headersRef = Some (σ', rowsRef', headersRef')
    /\ extends σ σ'
    /\ readRows σ' rowsRef = Some ls
    /\ readObjects σ' ls = Some rows
    /\ readHeaders σ' headersRef = Some headers
    /\ readRows σ' rowsRef' = Some ls'
    /\ readObjects σ' ls' = Some (fst (enrichWithEngagement rows headers))
    /\ readHeaders σ' headersRef' = Some (snd (enrichWithEngagement rows headers))
    /\ (forall f v,
          rows <> [] -> favColOf headers = Some f -> viewColOf headers = Some v ->
          ~ In "engagement" headers ->
          σ !! rowsRef' = None
          /\ σ !! headersRef' = None
          /\ Forall (fun l => σ !! l = None) ls'
          /\ NoDup ls'
          /\ snd (enrichWithEngagement rows headers) = headers ++ ["engagement"]
          /\ Forall2 (enrichedFrom f v) rows (fst (enrichWithEngagement rows headers)))
    /\ (favColOf headers = None \/ viewColOf headers = None ->
        σ' = σ /\ rowsRef' = rowsRef /\ headersRef' = headersRef).
Proof.
  intros Hrows Hobjs Hheaders Hd.
  destruct (enrich_cases rows headers)
    as [(Hne & f & v & Hf & Hv & Hno) | (Hsame & Hcase)].
  - destruct (enrichRef_applies σ rowsRef headersRef ls rows headers f v
                Hrows Hobjs Hheaders Hne Hf Hv Hno)
      as (σ' & rr & hr & ls' & Hcall & Hext & Hrr & Hro & Hhr & Hf1 & Hf2 & Hf3 & Hf4).
    exists σ', rr, hr, ls'.
    rewrite (enrich_applies rows headers f v Hne Hf Hv Hno). cbn [fst snd].
    split; [exact Hcall|]. split; [exact Hext|].
    split; [eapply extends_readRows; eassumption|].
    split; [eapply extends_readObjects; eassumption|].
    split; [eapply extends_readHeaders; eassumption|].
    split; [exact Hrr|]. split; [exact Hro|]. split; [exact Hhr|].
    split.
    + intros f' v' _ Hf' Hv' _.
      assert (f' = f) as -> by congruence.
      assert (v' = v) as -> by congruence.
      repeat split; try assumption.
      apply enrichedFrom_map, Hd.
    + intros [H|H]; congruence.
  - exists σ, rowsRef, headersRef, ls.
    rewrite Hsame. cbn [fst snd].
    split; [eapply enrichRef_skips; eassumption|].
    split; [apply extends_refl|].
    repeat (split; [assumption|]).
    split.
    + intros f v Hne Hf Hv Hno.
      destruct Hcase as [H | [H | [H | H]]]; [contradiction | congruence | congruence | contradiction].
    + intros _. repeat split.
Qed.

Lemma enrich_does_not_mutate_witness :
  exists σ' rowsRef' headersRef',
    enrichWithEngagementRef exampleStore 1%positive 2%positive
    = Some (σ', rowsRef', headersRef')
    /\ readObjects σ' [3%positive]
       = Some [[("Favorite Count", VStr "5"); ("View Count", VStr "100")]]
    /\ readHeaders σ' 2%positive = Some ["Favorite Count"; "View Count"].
Proof.
  destruct (enrich_does_not_mutate exampleStore 1%positive 2%positive
              [3%positive]
              [[("Favorite Count", VStr "5"); ("View Count", VStr "100")]]
              ["Favorite Count"; "View Count"])
    as (σ' & rr & hr & ls' & Hcall & _ & _ & Hobjs & Hhs & _).
  - reflexivity.
  - reflexivity.
  - reflexivity.
  - constructor; [|constructor]. unfold distinctKeys. cbn [List.map fst].
    constructor; [intros [H | []]; discriminate H|].
    constructor; [intros []|]. constructor.
  - exists σ', rr, hr. repeat split; assumption.
Defined.

(** *** Properties of the parser *)

(** Between quotes, the scan keeps every character but the quotes, a
    comma included; a doubled quote leaves the scan between quotes. *)
Lemma parseLineLoop_inside (content rest current : list ascii) :
  parseLineLoop (escapeQuotes content ++ rest) current true
  = parseLineLoop rest (rev (removeQuotes content) ++ current) true.
Proof.
  revert current. induction content as [|c content IH]; intro current;
    [reflexivity|].
  cbn [escapeQuotes flat_map removeQuotes List.filter].
  fold (escapeQuotes content). fold (removeQuotes content).
  destruct (Ascii.eqb c dquote) eqn:E.
  - cbn [app parseLineLoop negb]. rewrite Ascii.eqb_refl. cbn [negb].
    apply IH.
  - cbn [app parseLineLoop negb]. rewrite E. cbn [negb andb].
    rewrite andb_false_r. rewrite IH. cbn [rev]. rewrite <- app_assoc.
    reflexivity.
Qed.

Lemma parseLineLoop_quotedField (content rest current : list ascii) :
  parseLineLoop (quotedField (escapeQuotes content) ++ rest) current false
  = parseLineLoop rest (rev (removeQuotes content) ++ current) false.
Proof.
  unfold quotedField. cbn [app parseLineLoop]. rewrite Ascii.eqb_refl.
  cbn [negb]. rewrite <- app_assoc. rewrite parseLineLoop_inside.
  cbn [app parseLineLoop]. rewrite Ascii.eqb_refl. reflexivity.
Qed.

Lemma parseLineLoop_fields (contents : list (list ascii)) :
  contents <> [] ->
  parseLineLoop
    (joinFields (List.map (fun d => quotedField (escapeQuotes d)) contents))
    [] false
  = List.map (fun d => trim (ofChars (removeQuotes d))) contents.
Proof.
  induction contents as [|d contents IH]; [contradiction|]. intros _.
  destruct contents as [|d' contents].
  - cbn [List.map joinFields].
    rewrite <- (app_nil_r (quotedField (escapeQuotes d))).
    rewrite parseLineLoop_quotedField. cbn [parseLineLoop].
    rewrite app_nil_r, rev_involutive. reflexivity.
  - change (joinFields (List.map (fun d => quotedField (escapeQuotes d)) (d :: d' :: contents)))
      with (quotedField (escapeQuotes d)
            ++ comma :: joinFields (List.map (fun d => quotedField (escapeQuotes d))
                                      (d' :: contents))).
    rewrite parseLineLoop_quotedField.
    cbn [parseLineLoop]. 
    replace (Ascii.eqb comma dquote) with false by reflexivity.
    rewrite Ascii.eqb_refl. cbn [negb andb].
    rewrite app_nil_r, rev_involutive.
    rewrite IH by discriminate. reflexivity.
Qed.

Lemma chars_ofChars (l : list ascii) : chars (ofChars l) = l.
Proof. apply list_ascii_of_string_of_list_ascii. Qed.

Lemma dropSpaces_Forall (P : ascii -> Prop) (l : list ascii) :
  Forall P l -> Forall P (dropSpaces l).
Proof.
  induction 1 as [|c l Hc Hl IH]; cbn; [constructor|].
  destruct (isSpace c); [exact IH | constructor; assumption].
Qed.

Lemma trim_allChars (P : ascii -> Prop) (l : list ascii) :
  Forall P l -> allChars P (trim (ofChars l)).
Proof.
  intro H. unfold allChars, trim, trimChars. rewrite !chars_ofChars.
  apply Forall_rev, dropSpaces_Forall, Forall_rev, dropSpaces_Forall, H.
Qed.

(** The fields that [parseLine] returns are made of characters of the
    line other than quotes. *)
Lemma parseLineLoop_allChars (P : ascii -> Prop) (line current : list ascii)
  (inQuotes : bool) :
  (forall c, In c line -> c <> dquote -> P c) ->
  Forall P current ->
  Forall (allChars P) (parseLineLoop line current inQuotes).
Proof.
  revert current inQuotes.
  induction line as [|ch line IH]; intros current inQuotes Hline Hcur;
    cbn [parseLineLoop].
  - constructor; [|constructor]. apply trim_allChars, Forall_rev, Hcur.
  - assert (forall c, In c line -> c <> dquote -> P c) as Hline'
      by (intros c Hc; apply Hline; right; exact Hc).
    destruct (Ascii.eqb_spec ch dquote) as [E|E]; [apply IH; assumption|].
    destruct (Ascii.eqb ch comma && negb inQuotes)%bool.
    + constructor; [apply trim_allChars, Forall_rev, Hcur|].
      apply IH; [assumption | constructor].
    + apply IH; [assumption|]. constructor; [|exact Hcur].
      apply Hline; [left; reflexivity | exact E].
Qed.

Lemma removeAllFrom_Forall (P : ascii -> Prop) (ci : bool) (r : regex)
  (rest : list ascii) :
  Forall P rest ->
  forall pos prev skip, Forall P (removeAllFrom ci r pos prev rest skip).
Proof.
  induction 1 as [|c rest Hc Hrest IH]; intros pos prev skip; cbn;
    [constructor|].
  destruct skip as [|skip']; [|apply IH].
  destruct (rmatch ci r (MState pos prev (c :: rest) []) Some) as [st|].
  - destruct (ms_pos st - pos)%nat; [constructor; [exact Hc | apply IH] | apply IH].
  - constructor; [exact Hc | apply IH].
Qed.

Lemma stripQuotes_allChars (P : ascii -> Prop) (s : string) :
  allChars P s -> allChars P (stripQuotes s).
Proof.
  unfold allChars, stripQuotes, removeAll. intro H. rewrite chars_ofChars.
  apply removeAllFrom_Forall, H.
Qed.

Lemma splitAux_allChars (sep : ascii) (l current : list ascii) :
  Forall (fun c => c <> sep) current ->
  Forall (allChars (fun c => c <> sep)) (splitAux sep current l).
Proof.
  revert current. induction l as [|c l IH]; intros current Hcur; cbn.
  - constructor; [|constructor]. unfold allChars. rewrite chars_ofChars.
    apply Forall_rev, Hcur.
  - destruct (Ascii.eqb_spec c sep) as [E|E].
    + constructor; [|apply IH; constructor].
      unfold allChars. rewrite chars_ofChars. apply Forall_rev, Hcur.
    + apply IH. constructor; assumption.
Qed.

Lemma set_values (Q : value -> Prop) (o : object) (k : string) (v : value) :
  Forall (fun kv => Q (snd kv)) o -> Q v ->
  Forall (fun kv => Q (snd kv)) (set o k v).
Proof.
  intros Ho Hv. induction Ho as [|[k' v'] o Hkv Ho IH]; cbn.
  - constructor; [exact Hv | constructor].
  - destruct (String.eqb k' k); constructor; assumption.
Qed.

Lemma fillRow_values (P : ascii -> Prop) (headers vals : list string) (obj : object) :
  Forall (allChars P) vals ->
  Forall (fun kv => stringOf P (snd kv)) obj ->
  Forall (fun kv => stringOf P (snd kv)) (fillRow headers vals obj).
Proof.
  revert vals obj. induction headers as [|h headers IH]; intros vals obj Hvals Hobj;
    cbn; [exact Hobj|].
  apply IH.
  - destruct Hvals; [constructor | assumption].
  - apply set_values; [exact Hobj|].
    eexists. split; [reflexivity|]. apply stripQuotes_allChars.
    destruct Hvals; [constructor | assumption].
Qed.

(** No value of a parsed row holds a newline or a quote. *)
Lemma parseCsvToRows_values (text : string) (row : object) (k : string) (v : value) :
  In row (snd (parseCsvToRows text)) ->
  In (k, v) row ->
  stringOf (fun c => c <> newline /\ c <> dquote) v.
Proof.
  unfold parseCsvToRows.
  set (lines := List.filter _ (split newline text)).
  assert (Forall (allChars (fun c => c <> newline)) lines) as Hlines.
  { subst lines. unfold split.
    pose proof (splitAux_allChars newline (chars text) [] (Forall_nil _)) as H.
    rewrite Forall_forall in *. intros x Hx. apply filter_In in Hx. apply H, Hx. }
  destruct lines as [|first [|second rest]]; cbn [snd]; try contradiction.
  intros Hrow Hkv. apply in_map_iff in Hrow. destruct Hrow as [line [<- Hline]].
  assert (allChars (fun c => c <> newline) line) as Hl.
  { rewrite Forall_forall in Hlines. apply Hlines. right. exact Hline. }
  assert (Forall (fun kv => stringOf (fun c => c <> newline /\ c <> dquote) (snd kv))
            (fillRow (List.map stripQuotes (parseLine first)) (parseLine line) []))
    as H.
  { apply fillRow_values; [|constructor].
    apply parseLineLoop_allChars; [|constructor].
    intros c Hc Hq. split; [|exact Hq].
    unfold allChars in Hl. rewrite Forall_forall in Hl. apply Hl, Hc. }
  rewrite Forall_forall in H. apply (H _ Hkv).
Qed.

(** C3 (as amended). On a line of fields written between quotes, a comma
    between the quotes is content, and the value of a field is its content
    with every quote removed (a doubled quote vanishes) and the white space
    around it trimmed; the quote state toggles at every quote of the line;
    and since the text is split at newlines before its lines are scanned,
    no value of a parsed row holds a newline or a quote. *)
Theorem parseLine_quoted_fields :
  (forall contents : list (list ascii),
     contents <> [] ->
     parseLine
       (ofChars (joinFields
          (List.map (fun d => quotedField (escapeQuotes d)) contents)))
     = List.map (fun d => trim (ofChars (removeQuotes d))) contents)
  /\ (forall line current inQuotes,
        parseLineLoop (dquote :: line) current inQuotes
        = parseLineLoop line current (negb inQuotes))
  /\ (forall line field,
        In field (parseLine line) -> ~ In dquote (chars field))
  /\ (forall text row k v,
        In row (snd (parseCsvToRows text)) ->
        In (k, v) row ->
        exists s, v = VStr s /\ ~ In newline (chars s) /\ ~ In dquote (chars s)).
Proof.
  split; [|split; [|split]].
  - intros contents Hne. unfold parseLine. rewrite chars_ofChars.
    apply parseLineLoop_fields, Hne.
  - intros line current inQuotes. reflexivity.
  - intros line field Hin Hq.
    pose proof (parseLineLoop_allChars (fun c => c <> dquote) (chars line) []
                  false (fun c _ H => H) (Forall_nil _)) as H.
    rewrite Forall_forall in H. specialize (H field Hin).
    unfold allChars in H. rewrite Forall_forall in H.
    apply (H dquote Hq). reflexivity.
  - intros text row k v Hrow Hkv.
    destruct (parseCsvToRows_values text row k v Hrow Hkv) as [s [-> Hs]].
    exists s. split; [reflexivity|].
    unfold allChars in Hs. rewrite Forall_forall in Hs.
    split; intro Hin; destruct (Hs _ Hin) as [H1 H2]; congruence.
Qed.

(** Two fields between quotes, the first with a comma in it. *)
Lemma parseLine_quoted_fields_witness :
  parseLine
    (ofChars (joinFields
       (List.map (fun d => quotedField (escapeQuotes d))
          [chars "a,b"; chars " c "])))
  = ["a,b"; "c"].
Proof.
  destruct parseLine_quoted_fields as [H _].
  apply (H [chars "a,b"; chars " c "]). discriminate.
Defined.

(** A doubled quote between quotes does not collapse into one quote: it
    vanishes. A newline between quotes ends the record: the field is cut
    in two rows. *)
Lemma parse_doubled_quote_and_newline :
  parseCsvToRows
    ("h" ++ String newline (quoted ("a" ++ String dquote (String dquote "b"))))%string
  = (["h"], [[("h", VStr "ab")]])
  /\ parseCsvToRows
       ("h1,h2" ++ String newline
          (quoted ("x" ++ String newline "y") ++ ",z"))%string
     = (["h1"; "h2"],
        [[("h1", VStr "x"); ("h2", VStr "")];
         [("h1", VStr "y,z"); ("h2", VStr "")]]).
Proof. split; vm_compute; reflexivity. Qed.

(** *** Descriptive statistics *)

Lemma fold_add_map (g : number -> number) (vals : list number) (acc : number) :
  fold_left (fun a b => add a (g b)) vals acc
  = fold_left add (List.map g vals) acc.
Proof.
  revert acc. induction vals as [|x vals IH]; intro acc; cbn; [reflexivity|].
  apply IH.
Qed.

Lemma numericValues_spec (rows : list object) (col : value) (x : number) :
  In x (numericValues rows col)
  <-> isNaN x = false /\ exists r, In r rows /\ parseFloat (cell r col) = x.
Proof.
  unfold numericValues. rewrite filter_In, in_map_iff. split.
  - intros [[r [Hr Hin]] Hx]. split.
    + destruct (isNaN x); [discriminate Hx | reflexivity].
    + exists r. split; assumption.
  - intros [Hx [r [Hin Hr]]]. split.
    + exists r. split; assumption.
    + rewrite Hx. reflexivity.
Qed.

Lemma numericValues_not_NaN (rows : list object) (col : value) :
  Forall (fun x => isNaN x = false) (numericValues rows col).
Proof.
  rewrite Forall_forall. intros x Hx. apply numericValues_spec in Hx. tauto.
Qed.

Lemma numericValues_count (rows : list object) (col : value) :
  List.length (numericValues rows col)
  = List.length
      (List.filter (fun r => negb (isNaN (parseFloat (cell r col)))) rows).
Proof.
  unfold numericValues. induction rows as [|r rows IH]; cbn; [reflexivity|].
  destruct (isNaN (parseFloat (cell r col))); cbn; [exact IH|].
  f_equal. exact IH.
Qed.

(** The record of [statisticsOf], in the words of the specification. *)
Lemma statisticsOf_spec (vals : list number) :
  st_count (statisticsOf vals) = List.length vals
  /\ st_mean (statisticsOf vals) = fmt (meanOf vals)
  /\ st_median (statisticsOf vals) = fmt (median (sortBy numberGt vals))
  /\ st_std (statisticsOf vals) = fmt (sqrt (populationVariance vals))
  /\ st_min (statisticsOf vals) = Math_min vals
  /\ st_max (statisticsOf vals) = Math_max vals.
Proof.
  unfold statisticsOf. cbn [st_count st_mean st_median st_std st_min st_max].
  repeat split; try reflexivity.
  unfold populationVariance.
  change (sum (List.map (fun b => square (sub b (meanOf vals))) vals))
    with (fold_left add (List.map (fun b => square (sub b (meanOf vals))) vals) zero).
  rewrite <- fold_add_map. reflexivity.
Qed.

Lemma std_sign (x : number) :
  isNaN (fmt (sqrt x)) = true \/ leb zero (fmt (sqrt x)) = true.
Proof.
  apply unsigned_spec. unfold fmt. apply toFixedNumber_unsigned.
  apply sqrt_unsigned.
Qed.

Lemma min_max_bounds (vals : list number) :
  Forall (fun x => isNaN x = false) vals ->
  (forall x, In x vals ->
     leb (Math_min vals) x = true /\ leb x (Math_max vals) = true)
  /\ (vals <> [] -> leb (Math_min vals) (Math_max vals) = true).
Proof.
  intro Hvals. unfold Math_min, Math_max.
  destruct (fold_min_spec vals (S754_infinity false) eq_refl Hvals)
    as (_ & _ & Hmin).
  destruct (fold_max_spec vals (S754_infinity true) eq_refl Hvals)
    as (_ & _ & Hmax).
  rewrite Forall_forall in Hmin, Hmax.
  split.
  - intros x Hx. split; [apply Hmin, Hx | apply Hmax, Hx].
  - destruct vals as [|x vals']; [contradiction|]. intros _.
    apply (leb_trans _ x); [apply Hmin | apply Hmax]; left; reflexivity.
Qed.

(** C5 (as amended). [compute_column_stats] computes its aggregates over
    exactly the values of the column that parse as numbers (the cells that
    do not parse are left out, not counted as zero), with the population
    variance (division by N) under the standard deviation. It reports
    [min] and [max] as they are, below and above every parsed value, and
    [mean], [median] and [std] rounded to four decimals, [std] being NaN
    or at least zero. When no value parses it returns an error mapping
    that lists the headers. *)
Theorem column_stats_contract (args : object) (safeRows : list object)
  (col : value) :
  resolveCol safeRows (get args "column") = Return col ->
  (forall x,
     In x (numericValues safeRows col)
     <-> isNaN x = false
         /\ exists r, In r safeRows /\ parseFloat (cell r col) = x)
  /\ (numericValues safeRows col = [] ->
      compute_column_stats args safeRows
      = Return (ErrorResult
          ("No numeric values found in column " ++ quoted (toString col)
           ++ ". Available columns: "
           ++ join ", " (availableHeadersOf safeRows))%string))
  /\ (numericValues safeRows col <> [] ->
      exists stats,
        compute_column_stats args safeRows = Return (ColumnStats col stats)
        /\ st_count stats
           = List.length
               (List.filter (fun r => negb (isNaN (parseFloat (cell r col))))
                  safeRows)
        /\ st_mean stats = fmt (meanOf (numericValues safeRows col))
        /\ st_std stats
           = fmt (sqrt (populationVariance (numericValues safeRows col)))
        /\ st_min stats = Math_min (numericValues safeRows col)
        /\ st_max stats = Math_max (numericValues safeRows col)
        /\ (forall x, In x (numericValues safeRows col) ->
              leb (st_min stats) x = true /\ leb x (st_max stats) = true)
        /\ leb (st_min stats) (st_max stats) = true
        /\ (isNaN (st_std stats) = true \/ leb zero (st_std stats) = true)).
Proof.
  intro Hcol. split; [apply numericValues_spec|]. split.
  - intro Hnil. unfold compute_column_stats. rewrite Hcol.
    cbn [mbind outcome_bind]. rewrite Hnil. reflexivity.
  - intro Hne. exists (statisticsOf (numericValues safeRows col)).
    destruct (statisticsOf_spec (numericValues safeRows col))
      as (Hc & Hm & _ & Hs & Hmin & Hmax).
    destruct (min_max_bounds _ (numericValues_not_NaN safeRows col))
      as [Hb Hmm].
    split.
    { unfold compute_column_stats. rewrite Hcol. cbn [mbind outcome_bind].
      destruct (numericValues safeRows col); [contradiction | reflexivity]. }
    split; [rewrite Hc; apply numericValues_count|].
    split; [exact Hm|]. split; [exact Hs|]. split; [exact Hmin|].
    split; [exact Hmax|].
    split; [rewrite Hmin, Hmax; exact Hb|].
    split; [rewrite Hmin, Hmax; apply Hmm, Hne|].
    rewrite Hs. apply std_sign.
Qed.

Lemma column_stats_contract_witness :
  exists stats,
    compute_column_stats [("column", VStr "views")]
      [[("views", VStr "5")]; [("views", VStr "n/a")]; [("views", VStr "50")]]
    = Return (ColumnStats (VStr "views") stats)
    /\ st_count stats = 2%nat.
Proof.
  destruct (column_stats_contract [("column", VStr "views")]
              [[("views", VStr "5")]; [("views", VStr "n/a")]; [("views", VStr "50")]]
              (VStr "views") eq_refl) as (_ & _ & H).
  destruct H as (stats & Hcall & Hcount & _).
  - vm_compute. discriminate.
  - exists stats. split; [exact Hcall | exact Hcount].
Defined.

(** The reported mean is rounded to four decimals and the minimum is not:
    for the single value 0.00004 the mean is 0, below the minimum. For
    the single value Infinity the standard deviation is NaN. *)
Lemma column_stats_mean_below_min :
  compute_column_stats [("column", VStr "x")] [[("x", VStr "0.00004")]]
  = Return (ColumnStats (VStr "x")
      (Statistics 1 zero zero zero
         (parseFloatString "0.00004") (parseFloatString "0.00004")))
  /\ leb (parseFloatString "0.00004") zero = false
  /\ st_std (statisticsOf (numericValues [[("x", VStr "Infinity")]] (VStr "x")))
     = NaN
  /\ leb zero NaN = false.
Proof. repeat split; vm_compute; reflexivity. Qed.

(** *** Frequency rankings *)

Lemma insertSorted_perm {A} (gt : A -> A -> bool) (x : A) (l : list A) :
  Permutation (insertSorted gt x l) (x :: l).
Proof.
  induction l as [|y l IH]; cbn; [reflexivity|].
  destruct (gt x y); [|reflexivity].
  rewrite IH. apply perm_swap.
Qed.

Lemma sortBy_perm {A} (gt : A -> A -> bool) (l : list A) :
  Permutation (sortBy gt l) l.
Proof.
  induction l as [|x l IH]; cbn; [reflexivity|].
  rewrite insertSorted_perm, IH. reflexivity.
Qed.

Lemma insertSorted_descending (x : string * nat) (l : list (string * nat)) :
  descending l -> descending (insertSorted countGt x l).
Proof.
  unfold descending. induction 1 as [|y l Hl IH Hy]; cbn [insertSorted].
  - constructor; constructor.
  - unfold countGt at 1. destruct (Nat.ltb_spec (snd x) (snd y)) as [Hlt|Hge].
    + constructor; [exact IH|].
      apply (Permutation_Forall (Permutation_sym (insertSorted_perm countGt x l))).
      constructor; [cbn; lia | exact Hy].
    + constructor; [constructor; assumption|].
      constructor; [exact Hge|].
      eapply Forall_impl; [|exact Hy]. intros z Hz. cbn in Hz. lia.
Qed.

Lemma ranked_descending (counts : dict nat) : descending (ranked counts).
Proof.
  unfold ranked, sortBy.
  induction (entries counts) as [|x l IH]; cbn.
  - constructor.
  - apply insertSorted_descending, IH.
Qed.

(** The sort is stable: the entries with a given count keep their order. *)
Lemma insertSorted_stable (n : nat) (x : string * nat) (l : list (string * nat)) :
  List.filter (fun e => Nat.eqb (snd e) n) (insertSorted countGt x l)
  = List.filter (fun e => Nat.eqb (snd e) n) (x :: l).
Proof.
  induction l as [|y l IH]; [reflexivity|].
  cbn [insertSorted]. unfold countGt at 1.
  destruct (Nat.ltb_spec (snd x) (snd y)) as [Hlt|Hge]; [|reflexivity].
  cbn [List.filter] in *. rewrite IH.
  destruct (Nat.eqb_spec (snd x) n) as [Hx|Hx],
           (Nat.eqb_spec (snd y) n) as [Hy|Hy]; try reflexivity.
  lia.
Qed.

Lemma ranked_stable (counts : dict nat) (n : nat) :
  List.filter (fun e => Nat.eqb (snd e) n) (ranked counts)
  = List.filter (fun e => Nat.eqb (snd e) n) (entries counts).
Proof.
  unfold ranked, sortBy.
  induction (entries counts) as [|x l IH]; [reflexivity|].
  cbn [fold_right]. rewrite insertSorted_stable.
  cbn [List.filter]. rewrite IH. reflexivity.
Qed.

Lemma ranked_perm (counts : dict nat) :
  Permutation (ranked counts) (entries counts).
Proof. apply sortBy_perm. Qed.

Lemma length_keys {A} (o : dict A) : List.length (keys o) = List.length o.
Proof.
  unfold keys. rewrite length_map. apply Permutation_length, entries_perm.
Qed.

(** The counts object: its keys in first-seen order, and under each key
    the number of times it was seen. *)
Lemma countValue_distinct (counts : dict nat) (v : value) :
  distinctKeys counts -> distinctKeys (countValue counts v).
Proof. apply set_distinct. Qed.

Lemma summaryCounts_from_keys (vals : list value) (acc : dict nat) :
  List.map fst (fold_left countValue vals acc)
  = fold_left
      (fun seen k => if existsb (String.eqb k) seen then seen else seen ++ [k])
      (List.map toString vals) (List.map fst acc).
Proof.
  revert acc. induction vals as [|v vals IH]; intro acc; [reflexivity|].
  cbn [fold_left List.map]. rewrite IH. unfold countValue. rewrite set_keys.
  reflexivity.
Qed.

Lemma summaryCounts_keys (vals : list value) :
  List.map fst (summaryCounts vals) = firstSeen (List.map toString vals).
Proof. apply summaryCounts_from_keys. Qed.

Lemma summaryCounts_from_distinct (vals : list value) (acc : dict nat) :
  distinctKeys acc -> distinctKeys (fold_left countValue vals acc).
Proof.
  revert acc. induction vals as [|v vals IH]; intros acc H; [exact H|].
  cbn [fold_left]. apply IH, countValue_distinct, H.
Qed.

Lemma summaryCounts_distinct (vals : list value) :
  distinctKeys (summaryCounts vals).
Proof. apply summaryCounts_from_distinct. constructor. Qed.

Lemma summaryCounts_from_count (vals : list value) (acc : dict nat) (k : string) :
  getOwn (fold_left countValue vals acc) k
  = match count_occ string_dec (List.map toString vals) k with
    | O => getOwn acc k
    | S c => Some (S c + match getOwn acc k with Some n => n | None => 0 end)%nat
    end.
Proof.
  revert acc. induction vals as [|v vals IH]; intro acc; [reflexivity|].
  cbn [fold_left List.map count_occ]. rewrite IH. unfold countValue.
  destruct (string_dec (toString v) k) as [E|E].
  - subst k. rewrite getOwn_set_same.
    destruct (count_occ string_dec (List.map toString vals) (toString v));
      destruct (getOwn acc (toString v)); f_equal; lia.
  - rewrite getOwn_set_other by congruence. reflexivity.
Qed.

Lemma summaryCounts_count (vals : list value) (k : string) :
  getOwn (summaryCounts vals) k
  = match count_occ string_dec (List.map toString vals) k with
    | O => None
    | S c => Some (S c)
    end.
Proof.
  unfold summaryCounts. rewrite summaryCounts_from_count. cbn [getOwn].
  destruct (count_occ string_dec (List.map toString vals) k); [reflexivity|].
  f_equal. lia.
Qed.

Lemma summaryCounts_from_plain (vals : list value) (acc : dict nat) :
  Forall (fun k => arrayIndex k = None) (List.map toString vals) ->
  Forall (fun k => arrayIndex k = None) (List.map fst acc) ->
  Forall (fun k => arrayIndex k = None)
    (List.map fst (fold_left countValue vals acc)).
Proof.
  revert acc. induction vals as [|v vals IH]; intros acc Hv Hacc; [exact Hacc|].
  cbn [fold_left List.map] in *. inversion Hv as [|? ? Hk Hvals]; subst.
  apply IH; [exact Hvals|]. apply set_keys_Forall; assumption.
Qed.

Lemma valueCounts_spec (rows : list object) (col : value) :
  valueCounts rows col = summaryCounts (countedCells rows col).
Proof.
  unfold valueCounts, summaryCounts, countedCells.
  generalize (@nil (string * nat)).
  induction rows as [|r rows IH]; intro acc; [reflexivity|].
  cbn [fold_left List.map List.filter].
  destruct (cell r col) as [| |b|n|[|c s]]; cbn [fold_left]; apply IH.
Qed.

Lemma ranked_distinct (counts : dict nat) :
  distinctKeys counts -> distinctKeys (ranked counts).
Proof.
  unfold distinctKeys. intro H.
  eapply Permutation_NoDup; [|apply (entries_distinct _ H)].
  apply Permutation_map. symmetry. apply ranked_perm.
Qed.

Lemma firstn_distinct {A} (n : nat) (l : dict A) :
  distinctKeys l -> distinctKeys (firstn n l).
Proof.
  unfold distinctKeys. revert n. induction l as [|[k v] l IH]; intros [|n] H;
    cbn; try constructor.
  - inversion H as [|? ? Hk Hl]; subst. intro Hin. apply Hk.
    rewrite <- (firstn_skipn n l), map_app. apply in_or_app. left. exact Hin.
  - inversion H; subst. apply IH. assumption.
Qed.

Lemma get_value_counts_result (args : object) (rows : list object) (col : value) :
  resolveCol rows (get args "column") = Return col ->
  get_value_counts args rows
  = Return (ValueCounts col (List.length rows)
      (sliceTo (ranked (valueCounts rows col))
         (orValue (get args "top_n") (VNum (Num.ofZ 10))))).
Proof.
  intro Hcol. unfold get_value_counts. rewrite Hcol. cbn [mbind outcome_bind].
  rewrite fromEntries_distinct; [reflexivity|].
  unfold sliceTo. apply firstn_distinct, ranked_distinct.
  rewrite valueCounts_spec. apply summaryCounts_distinct.
Qed.

(** C8 (as amended). For values that are not names of members of
    [Object.prototype], the counts object holds, under each distinct key
    in first-seen order, the number of times the key was seen. The
    ranking lists its entries by descending count, and the entries with
    equal counts in the enumeration order of the counts object: this is
    the first-seen order when no key is an array index (array-index keys
    enumerate first, in ascending numeric order). The top of a
    categorical column of the summary is made of the first five entries
    of this ranking, and the table of [get_value_counts] of its first
    [top_n] entries. *)
Theorem frequency_ranking (vals : list value) :
  Forall (fun v => inherited (toString v) = false) vals ->
  (forall k,
     getOwn (summaryCounts vals) k
     = match count_occ string_dec (List.map toString vals) k with
       | O => None
       | S c => Some (S c)
       end)
  /\ List.map fst (summaryCounts vals) = firstSeen (List.map toString vals)
  /\ Permutation (ranked (summaryCounts vals)) (entries (summaryCounts vals))
  /\ descending (ranked (summaryCounts vals))
  /\ (forall n,
        List.filter (fun e => Nat.eqb (snd e) n) (ranked (summaryCounts vals))
        = List.filter (fun e => Nat.eqb (snd e) n) (entries (summaryCounts vals)))
  /\ (Forall (fun k => arrayIndex k = None) (List.map toString vals) ->
      entries (summaryCounts vals) = summaryCounts vals
      /\ forall n,
           List.filter (fun e => Nat.eqb (snd e) n) (ranked (summaryCounts vals))
           = List.filter (fun e => Nat.eqb (snd e) n) (summaryCounts vals))
  /\ (forall rows h name unique top,
        inherited h = false ->
        presentValues rows h = vals ->
        columnDigestOf rows h = CategoricalCol name unique top ->
        name = h
        /\ unique = List.length (firstSeen (List.map toString vals))
        /\ top
           = join ", "
               (List.map entryText (firstn 5 (ranked (summaryCounts vals)))))
  /\ (forall args rows col,
        resolveCol rows (get args "column") = Return col ->
        inherited (toString col) = false ->
        countedCells rows col = vals ->
        valueCounts rows col = summaryCounts vals
        /\ get_value_counts args rows
           = Return (ValueCounts col (List.length rows)
               (sliceTo (ranked (summaryCounts vals))
                  (orValue (get args "top_n") (VNum (Num.ofZ 10)))))).
Proof.
  intros _.
  split; [apply summaryCounts_count|].
  split; [apply summaryCounts_keys|].
  split; [apply ranked_perm|].
  split; [apply ranked_descending|].
  split; [intro n; apply ranked_stable|].
  split.
  { intro Hplain.
    assert (entries (summaryCounts vals) = summaryCounts vals) as E.
    { apply entries_insertion_order.
      apply summaryCounts_from_plain; [exact Hplain | constructor]. }
    split; [exact E|]. intro n. rewrite ranked_stable, E. reflexivity. }
  split.
  { intros rows h name unique top _ Hvals Hdigest.
    unfold columnDigestOf in Hdigest. rewrite Hvals in Hdigest.
    destruct (leb _ _ && Nat.ltb 0 _)%bool; [discriminate Hdigest|].
    injection Hdigest as <- <- <-.
    split; [reflexivity|]. split; [|reflexivity].
    rewrite length_keys, <- (length_map fst), summaryCounts_keys. reflexivity. }
  intros args rows col Hcol _ Hvals.
  rewrite <- Hvals, <- valueCounts_spec.
  split; [reflexivity | apply get_value_counts_result, Hcol].
Qed.

(** Among the values seen once, [a] was seen before [c] and is ranked
    before it. *)
Lemma frequency_ranking_witness :
  Forall (fun v => inherited (toString v) = false)
    [VStr "b"; VStr "a"; VStr "b"; VStr "c"]
  /\ List.filter (fun e => Nat.eqb (snd e) 1)
       (ranked (summaryCounts [VStr "b"; VStr "a"; VStr "b"; VStr "c"]))
     = [("a", 1%nat); ("c", 1%nat)].
Proof.
  assert (Hvals : Forall (fun v => inherited (toString v) = false)
                    [VStr "b"; VStr "a"; VStr "b"; VStr "c"])
    by (repeat constructor).
  split; [exact Hvals|].
  destruct (frequency_ranking [VStr "b"; VStr "a"; VStr "b"; VStr "c"] Hvals)
    as (_ & _ & _ & _ & _ & H & _).
  destruct H as [_ H].
  - repeat constructor.
  - rewrite H. reflexivity.
Defined.

(** Values that are array indices are ranked by their number, not by
    first sight: [3] comes before [5], which was seen first; in a
    categorical column of the summary, [1] and [2] come before [b]; and
    the table returned by [get_value_counts] enumerates [3], seen once,
    before [7], seen twice. *)
Lemma ranking_puts_array_indices_first :
  firstSeen (List.map toString [VStr "5"; VStr "3"]) = ["5"; "3"]
  /\ get_value_counts [("column", VStr "c")]
       [[("c", VStr "5")]; [("c", VStr "3")]]
     = Return (ValueCounts (VStr "c") 2 [("3", 1%nat); ("5", 1%nat)])
  /\ columnDigestOf
       [[("c", VStr "b")]; [("c", VStr "2")]; [("c", VStr "1")];
        [("c", VStr "a")]; [("c", VStr "c")]] "c"
     = CategoricalCol "c" 5 "1 (1), 2 (1), b (1), a (1), c (1)"
  /\ get_value_counts [("column", VStr "c")]
       [[("c", VStr "7")]; [("c", VStr "7")]; [("c", VStr "3")]]
     = Return (ValueCounts (VStr "c") 3 [("7", 2%nat); ("3", 1%nat)])
  /\ entries [("7", 2%nat); ("3", 1%nat)] = [("3", 1%nat); ("7", 2%nat)].
Proof. repeat split; vm_compute; reflexivity. Qed.

(** *** Totality of the executor *)

Lemma resolveCol_returns (rows : list object) (name : value) :
  isColumnName name = true ->
  exists col, resolveCol rows name = Return col.
Proof.
  intro H. unfold resolveCol.
  destruct rows as [|row0 rows']; [eexists; reflexivity|].
  destruct (truthy name) eqn:Ht; cbn [negb].
  - unfold isColumnName in H.
    destruct name as [| |b|n|s]; rewrite ?Ht in H; try discriminate H.
    destruct (existsb (String.eqb s) (keys row0)); [eexists; reflexivity|].
    destruct (findStr _ (keys row0)) as [k|]; [|eexists; reflexivity].
    destruct (String.eqb k ""); eexists; reflexivity.
  - eexists; reflexivity.
Qed.

Lemma columnArguments_spec (args : object) (k : string) :
  columnArgumentsAreNames args = true ->
  In k COLUMN_ARGUMENTS ->
  isColumnName (get args k) = true.
Proof.
  unfold columnArgumentsAreNames. rewrite forallb_forall. intros H Hin.
  apply H, Hin.
Qed.

Ltac returns := eexists; reflexivity.

Lemma compute_column_stats_returns (args : object) (safeRows : list object) :
  columnArgumentsAreNames args = true ->
  exists result, compute_column_stats args safeRows = Return result.
Proof.
  intro H. unfold compute_column_stats.
  destruct (resolveCol_returns safeRows (get args "column")) as [col Hcol];
    [apply columnArguments_spec; [exact H | cbn; tauto]|].
  rewrite Hcol. cbn [mbind outcome_bind].
  destruct (numericValues safeRows col); returns.
Qed.

Lemma get_value_counts_returns (args : object) (safeRows : list object) :
  columnArgumentsAreNames args = true ->
  exists result, get_value_counts args safeRows = Return result.
Proof.
  intro H. unfold get_value_counts.
  destruct (resolveCol_returns safeRows (get args "column")) as [col Hcol];
    [apply columnArguments_spec; [exact H | cbn; tauto]|].
  rewrite Hcol. cbn [mbind outcome_bind]. returns.
Qed.

Lemma get_top_tweets_returns (args : object) (safeRows : list object) :
  columnArgumentsAreNames args = true ->
  exists result, get_top_tweets args safeRows = Return result.
Proof.
  intro H. unfold get_top_tweets.
  destruct (resolveCol_returns safeRows (get args "sort_column")) as [col Hcol];
    [apply columnArguments_spec; [exact H | cbn; tauto]|].
  rewrite Hcol. cbn [mbind outcome_bind].
  match goal with |- context [match ?l with [] => _ | _ :: _ => _ end] =>
    destruct l end; returns.
Qed.

Lemma plot_metric_vs_time_returns (h : host) (args : object)
  (safeRows : list object) :
  columnArgumentsAreNames args = true ->
  exists result, plot_metric_vs_time h args safeRows = Return result.
Proof.
  intro H. unfold plot_metric_vs_time.
  destruct safeRows as [|r rows']; [returns|].
  destruct (resolveCol_returns (r :: rows') (get args "metric_column"))
    as [metricCol Hm]; [apply columnArguments_spec; [exact H | cbn; tauto]|].
  destruct (resolveCol_returns (r :: rows') (get args "date_column"))
    as [dateCol Hd]; [apply columnArguments_spec; [exact H | cbn; tauto]|].
  rewrite Hm. cbn [mbind outcome_bind]. rewrite Hd. cbn [mbind outcome_bind].
  match goal with |- context [match ?l with [] => _ | _ :: _ => _ end] =>
    destruct l end; returns.
Qed.

Lemma compute_stats_json_returns (args : object) (safeRows : list object) :
  columnArgumentsAreNames args = true ->
  exists result, compute_stats_json args safeRows = Return result.
Proof.
  intro H. unfold compute_stats_json.
  destruct (resolveCol_returns safeRows (get args "field")) as [col Hcol];
    [apply columnArguments_spec; [exact H | cbn; tauto]|].
  rewrite Hcol. cbn [mbind outcome_bind].
  destruct (numericValues safeRows col); returns.
Qed.

Lemma play_video_returns (args : object) (safeRows : list object) :
  exists result, play_video args safeRows = Return result.
Proof.
  unfold play_video.
  repeat match goal with
  | |- exists result, (if ?c then _ else _) = _ => destruct c
  | |- exists result, match ?x with _ => _ end = _ => destruct x
  | |- exists result, (let _ := _ in _) = _ => cbv zeta
  end; returns.
Qed.

Lemma generateImage_returns (h : host) (args : object) (safeImages : list image) :
  exists result, generateImage h args safeImages = Return result.
Proof.
  unfold generateImage.
  repeat match goal with
  | |- exists result, (if ?c then _ else _) = _ => destruct c
  | |- exists result, match ?x with _ => _ end = _ => destruct x
  end; returns.
Qed.

Lemma unknown_tool (h : host) (toolName : string) (args : object)
  (rows : maybeArray object) (attachedImages : maybeArray image) :
  ~ In toolName CSV_TOOL_NAMES ->
  executeTool h toolName args rows attachedImages
  = Return (ErrorResult ("Unknown tool: " ++ toolName)%string).
Proof.
  intro H. unfold executeTool.
  repeat match goal with
  | |- context [String.eqb toolName ?n] =>
      destruct (String.eqb_spec toolName n) as [E|_];
      [exfalso; apply H; rewrite E; cbn; tauto|]
  end.
  reflexivity.
Qed.

(** C9 (as amended). When the arguments that name a column are strings
    (or falsy), every tool of [executeTool] returns a result mapping or an
    error mapping and never throws; a tool name outside the registry
    returns [{ error: "Unknown tool: <name>" }]; and rows or images that
    are not arrays are used as empty arrays. *)
Theorem executeTool_total (h : host) (toolName : string) (args : object)
  (rows : maybeArray object) (attachedImages : maybeArray image) :
  columnArgumentsAreNames args = true ->
  (exists result,
     executeTool h toolName args rows attachedImages = Return result)
  /\ (~ In toolName CSV_TOOL_NAMES ->
      executeTool h toolName args rows attachedImages
      = Return (ErrorResult ("Unknown tool: " ++ toolName)%string))
  /\ executeTool h toolName args NotArray attachedImages
     = executeTool h toolName args (IsArray []) attachedImages
  /\ executeTool h toolName args rows NotArray
     = executeTool h toolName args rows (IsArray []).
Proof.
  intro H. repeat split.
  - unfold executeTool.
    repeat match goal with
    | |- exists result, (if ?c then _ else _) = _ => destruct c
    end.
    + apply compute_column_stats_returns, H.
    + apply get_value_counts_returns, H.
    + apply get_top_tweets_returns, H.
    + apply plot_metric_vs_time_returns, H.
    + apply play_video_returns.
    + apply compute_stats_json_returns, H.
    + apply generateImage_returns.
    + returns.
  - apply unknown_tool.
Qed.

Lemma executeTool_total_witness :
  columnArgumentsAreNames [("column", VStr "views")] = true
  /\ exists result,
       executeTool offlineHost "compute_column_stats" [("column", VStr "views")]
         (IsArray [[("views", VStr "5")]; [("views", VStr "50")]]) NotArray
       = Return result.
Proof.
  split; [reflexivity|].
  apply (executeTool_total offlineHost "compute_column_stats"
           [("column", VStr "views")]
           (IsArray [[("views", VStr "5")]; [("views", VStr "50")]]) NotArray).
  reflexivity.
Defined.

(** A column argument that is a number makes [resolveCol] call
    [toLowerCase] on it: the executor throws. *)
Lemma executeTool_throws_on_numeric_column :
  executeTool offlineHost "compute_column_stats" [("column", VNum (Num.ofZ 5))]
    (IsArray [[("a", VStr "1")]]) NotArray
  = Throw "TypeError: s.toLowerCase is not a function".
Proof. vm_compute. reflexivity. Qed.

(** *** Unresolvable columns *)

Lemma valueCounts_unresolved (rows : list object) (col : value) :
  (forall r, In r rows -> cell r col = VUndefined) ->
  forall acc : dict nat,
    fold_left
      (fun counts r =>
         match cell r col with
         | VUndefined => counts
         | VStr "" => counts
         | v => countValue counts v
         end)
      rows acc = acc.
Proof.
  intros H. induction rows as [|r rows IH]; intros acc; cbn [fold_left].
  - reflexivity.
  - rewrite (H r (or_introl eq_refl)). apply IH.
    intros r' Hr'. apply H. right. exact Hr'.
Qed.

Lemma numericValues_unresolved (rows : list object) (col : value) :
  (forall r, In r rows -> cell r col = VUndefined) ->
  numericValues rows col = [].
Proof.
  unfold numericValues.
  induction rows as [|r rows IH]; intros H; cbn [List.map List.filter].
  - reflexivity.
  - rewrite (H r (or_introl eq_refl)). cbn.
    apply IH. intros r' Hr'. apply H. right. exact Hr'.
Qed.

(** C1 (what the code does instead). When the name resolves to a column
    [col] that no row has, [get_value_counts] does not report it: it
    answers with an empty table, where [compute_column_stats] on the same
    input answers with an error that lists the headers. *)
Theorem get_value_counts_unresolved_column
  (args : object) (rows : list object) (col : value) :
  resolveCol rows (get args "column") = Return col ->
  (forall r, In r rows -> cell r col = VUndefined) ->
  get_value_counts args rows
  = Return (ValueCounts col (List.length rows) [])
  /\ compute_column_stats args rows
     = Return (ErrorResult
         ("No numeric values found in column " ++ quoted (toString col)
          ++ ". Available columns: "
          ++ join ", " (availableHeadersOf rows))%string).
Proof.
  intros Hcol Hnone. unfold get_value_counts, compute_column_stats.
  rewrite Hcol. cbn [mbind outcome_bind].
  unfold valueCounts. rewrite (valueCounts_unresolved rows col Hnone).
  rewrite (numericValues_unresolved rows col Hnone).
  split; [|reflexivity].
  unfold sliceTo, ranked. cbn [entries sortBy fold_right List.length].
  rewrite firstn_nil. reflexivity.
Qed.

Lemma get_value_counts_unresolved_column_witness :
  get_value_counts [("column", VStr "nope")] [[("a", VStr "x")]]
  = Return (ValueCounts (VStr "nope") 1 [])
  /\ compute_column_stats [("column", VStr "nope")] [[("a", VStr "x")]]
     = Return (ErrorResult
         ("No numeric values found in column " ++ quoted "nope"
          ++ ". Available columns: a")%string).
Proof.
  apply (get_value_counts_unresolved_column
           [("column", VStr "nope")] [[("a", VStr "x")]] (VStr "nope")).
  - reflexivity.
  - intros r [<-|[]]. reflexivity.
Defined.

(** *** Properties of the line parser *)

Lemma parseLineLoop_unquoted (line current : list ascii) :
  ~ In dquote line ->
  parseLineLoop line current false
  = List.map trim (splitAux comma current line).
Proof.
  revert current. induction line as [|ch line IH]; intros current Hq.
  - reflexivity.
  - cbn [parseLineLoop splitAux].
    destruct (Ascii.eqb ch dquote) eqn:Eq.
    + apply Ascii.eqb_eq in Eq. exfalso. apply Hq. left. exact Eq.
    + assert (Hq' : ~ In dquote line) by (intro H; apply Hq; right; exact H).
      cbn [negb andb]. rewrite Bool.andb_true_r.
      destruct (Ascii.eqb ch comma); cbn [List.map].
      * rewrite (IH [] Hq'). reflexivity.
      * apply IH. exact Hq'.
Qed.

(** X1. On a line without a double quote, [parseLine] is the split at the
    commas followed by the trimming of every piece. *)
Theorem parseLine_unquoted (line : string) :
  ~ In dquote (chars line) ->
  parseLine line = List.map trim (split comma line).
Proof.
  intro Hq. unfold parseLine, split. apply parseLineLoop_unquoted. exact Hq.
Qed.

Lemma parseLine_unquoted_witness :
  ~ In dquote (chars "a, b ,,c ")
  /\ parseLine "a, b ,,c " = ["a"; "b"; ""; "c"].
Proof.
  assert (H : ~ In dquote (chars "a, b ,,c ")).
  { cbn. intros [H|[H|[H|[H|[H|[H|[H|[H|[H|[]]]]]]]]]]; discriminate H. }
  split; [exact H|].
  rewrite (parseLine_unquoted "a, b ,,c " H). reflexivity.
Defined.

Lemma ofChars_chars (s : string) : ofChars (chars s) = s.
Proof. apply string_of_list_ascii_of_string. Qed.

Lemma removeAllFrom_unquoted (rest : list ascii) :
  ~ In dquote rest ->
  forall pos prev, removeAllFrom false edgeQuotes pos prev rest O = rest.
Proof.
  induction rest as [|c rest IH]; intros Hq pos prev.
  - reflexivity.
  - assert (Ec : Ascii.eqb c dquote = false).
    { apply Ascii.eqb_neq. intro E. apply Hq. left. exact E. }
    assert (Hq' : ~ In dquote rest) by (intro H; apply Hq; right; exact H).
    cbn [removeAllFrom]. unfold edgeQuotes. cbn [rmatch ms_rest ms_prev].
    rewrite Ec. destruct prev; cbn [orElse]; rewrite (IH Hq'); reflexivity.
Qed.

Lemma stripQuotes_unquoted (s : string) :
  ~ In dquote (chars s) -> stripQuotes s = s.
Proof.
  intro Hq. unfold stripQuotes, removeAll.
  rewrite (removeAllFrom_unquoted _ Hq). apply ofChars_chars.
Qed.

Lemma parseLine_unquoted_fields (line field : string) :
  In field (parseLine line) -> ~ In dquote (chars field).
Proof.
  intros Hin Hq.
  assert (H : Forall (allChars (fun c => c <> dquote)) (parseLine line)).
  { apply parseLineLoop_allChars; [intros c _ Hc; exact Hc | constructor]. }
  rewrite Forall_forall in H. specialize (H field Hin).
  unfold allChars in H. rewrite Forall_forall in H.
  exact (H dquote Hq eq_refl).
Qed.

Lemma map_stripQuotes_parseLine (line : string) :
  List.map stripQuotes (parseLine line) = parseLine line.
Proof.
  assert (H : forall f, In f (parseLine line) -> stripQuotes f = f).
  { intros f Hf. apply stripQuotes_unquoted.
    exact (parseLine_unquoted_fields line f Hf). }
  induction (parseLine line) as [|f l IH]; [reflexivity|].
  cbn [List.map]. rewrite (H f (or_introl eq_refl)).
  rewrite IH; [reflexivity|]. intros g Hg. apply H. right. exact Hg.
Qed.

Lemma fillRow_get_other (headers vals : list string) (obj : object) (h : string) :
  ~ In h headers -> get (fillRow headers vals obj) h = get obj h.
Proof.
  revert vals obj. induction headers as [|h0 hs IH]; intros vals obj Hn.
  - reflexivity.
  - cbn [fillRow]. rewrite IH by (intro H; apply Hn; right; exact H).
    unfold get. rewrite getOwn_set_other; [reflexivity|].
    intro E. apply Hn. left. symmetry. exact E.
Qed.

Lemma fillRow_get_last (headers vals : list string) (obj : object)
  (i : nat) (h : string) :
  nth_error headers i = Some h ->
  (forall j, (i < j)%nat -> nth_error headers j <> Some h) ->
  get (fillRow headers vals obj) h = VStr (stripQuotes (nth i vals "")).
Proof.
  revert vals obj i. induction headers as [|h0 hs IH]; intros vals obj i Hi Hlast.
  - destruct i; discriminate Hi.
  - cbn [fillRow]. destruct i as [|i].
    + injection Hi as ->.
      assert (Hn : ~ In h hs).
      { intro Hin. apply In_nth_error in Hin. destruct Hin as [j Hj].
        apply (Hlast (S j)); [lia | exact Hj]. }
      rewrite (fillRow_get_other hs _ _ h Hn). rewrite get_set_same.
      destruct vals; reflexivity.
    + cbn [nth_error] in Hi.
      rewrite (IH (tl vals) _ i Hi).
      * destruct vals as [|v vals]; [destruct i|]; reflexivity.
      * intros j Hj. apply (Hlast (S j)). lia.
Qed.

Lemma last_occurrence (l : list string) (h : string) :
  In h l ->
  exists i, nth_error l i = Some h
            /\ forall j, (i < j)%nat -> nth_error l j <> Some h.
Proof.
  induction l as [|a l IH]; intros Hin; [destruct Hin|].
  destruct (in_dec string_dec h l) as [Hl|Hl].
  - destruct (IH Hl) as [i [Hi Hlast]]. exists (S i). split; [exact Hi|].
    intros j Hj. destruct j as [|j]; [lia|]. apply Hlast. lia.
  - destruct Hin as [-> |Hin]; [|contradiction].
    exists O. split; [reflexivity|].
    intros j Hj Hnth. destruct j as [|j]; [lia|].
    cbn [nth_error] in Hnth. apply Hl. exact (nth_error_In _ _ Hnth).
Qed.

(** X2. A text with fewer than two lines that are not blank has no
    headers and no rows. Otherwise the headers are the fields of the
    first such line, there is one row per further line, and a row maps
    the header at position [i] (the last one of that name), unless it is
    [__proto__], to the field at position [i] of its line, or to the
    empty string when the line is too short; under a name that is neither
    a header nor the name of a member of [Object.prototype], a row holds
    nothing. *)
Theorem parseCsvToRows_cells (text : string) :
  ((List.length (nonBlankLines text) < 2)%nat -> parseCsvToRows text = ([], []))
  /\ (forall first rest,
        nonBlankLines text = first :: rest -> rest <> [] ->
        let headers := fst (parseCsvToRows text) in
        let rows := snd (parseCsvToRows text) in
        headers = parseLine first
        /\ List.length rows = List.length rest
        /\ forall j line row,
             nth_error rest j = Some line ->
             nth_error rows j = Some row ->
             (forall h,
                In h headers -> h <> "__proto__" -> exists s, get row h = VStr s)
             /\ (forall k,
                   inherited k = false -> get row k <> VUndefined ->
                   In k headers)
             /\ (forall i h,
                   nth_error headers i = Some h ->
                   h <> "__proto__" ->
                   (forall i', (i < i')%nat -> nth_error headers i' <> Some h) ->
                   get row h = VStr (nth i (parseLine line) ""))).
Proof.
  unfold parseCsvToRows. fold (nonBlankLines text). split.
  - intro Hlen. destruct (nonBlankLines text) as [|a [|b l]];
      [reflexivity | reflexivity | cbn in Hlen; lia].
  - intros first rest Hlines Hrest. rewrite Hlines.
    destruct rest as [|second others]; [contradiction|].
    cbn [fst snd]. rewrite map_stripQuotes_parseLine.
    split; [reflexivity|]. split; [apply length_map|].
    intros j line row Hline Hrow.
    rewrite nth_error_map, Hline in Hrow. cbn in Hrow. injection Hrow as <-.
    assert (Hcell : forall i h,
              nth_error (parseLine first) i = Some h ->
              (forall i', (i < i')%nat -> nth_error (parseLine first) i' <> Some h) ->
              get (fillRow (parseLine first) (parseLine line) []) h
              = VStr (nth i (parseLine line) "")).
    { intros i h Hi Hlast.
      rewrite (fillRow_get_last _ _ _ i h Hi Hlast).
      f_equal. apply stripQuotes_unquoted.
      destruct (nth_in_or_default i (parseLine line) "") as [Hin| ->].
      - exact (parseLine_unquoted_fields line _ Hin).
      - intros []. }
    split; [|split].
    + intros h Hin _. destruct (last_occurrence _ _ Hin) as [i [Hi Hlast]].
      eexists. exact (Hcell i h Hi Hlast).
    + intros k _ Hk.
      destruct (in_dec string_dec k (parseLine first)) as [Hin|Hn];
        [exact Hin|].
      exfalso. apply Hk. rewrite (fillRow_get_other _ _ _ k Hn). reflexivity.
    + intros i h Hi _ Hlast. exact (Hcell i h Hi Hlast).
Qed.

Lemma parseCsvToRows_cells_witness :
  fst (parseCsvToRows ("id,name,id" ++ String newline ("1,ann" ++ String newline "")))
  = parseLine "id,name,id"
  /\ List.length
       (snd (parseCsvToRows
               ("id,name,id" ++ String newline ("1,ann" ++ String newline ""))))
     = 1%nat
  /\ get [("id", VStr ""); ("name", VStr "ann")] "id" = VStr "".
Proof.
  pose proof (parseCsvToRows_cells
                ("id,name,id" ++ String newline ("1,ann" ++ String newline ""))) as [_ H].
  specialize (H "id,name,id" ["1,ann"] eq_refl).
  assert (Hne : ["1,ann"] <> @nil string) by discriminate.
  destruct (H Hne) as [Hh [Hl Hrow]].
  split; [exact Hh|]. split; [exact Hl|].
  destruct (Hrow O "1,ann" [("id", VStr ""); ("name", VStr "ann")]
              eq_refl eq_refl) as [_ [_ Hcell]].
  apply (Hcell 2%nat "id" eq_refl).
  - discriminate.
  - intros i' Hi' Hnth. destruct i' as [|[|[|i']]]; try lia.
    destruct i'; discriminate Hnth.
Defined.

(** *** Properties of the slim CSV *)

Lemma chars_append (a b : string) : chars (a ++ b)%string = chars a ++ chars b.
Proof.
  unfold chars. induction a as [|c a IH]; [reflexivity|].
  change (String c a ++ b)%string with (String c (a ++ b)).
  cbn. rewrite IH. reflexivity.
Qed.

Lemma chars_join_comma (l : list string) :
  chars (join "," l) = joinFields (List.map chars l).
Proof.
  induction l as [|x l IH]; [reflexivity|].
  destruct l as [|y l]; [reflexivity|].
  change (join "," (x :: y :: l)) with (x ++ "," ++ join "," (y :: l))%string.
  rewrite chars_append, chars_append, IH. reflexivity.
Qed.

Lemma includes_char (c : ascii) (s : string) :
  includes (String c "") s = false -> ~ In c (chars s).
Proof.
  unfold includes. cbn [chars list_ascii_of_string].
  induction (chars s) as [|d l IH]; intros H Hin; [destruct Hin|].
  cbn [includesChars startsWith] in H.
  apply Bool.orb_false_iff in H. destruct H as [Hd Hl].
  rewrite Bool.andb_true_r in Hd. apply Ascii.eqb_neq in Hd.
  destruct Hin as [E|Hin]; [apply Hd; symmetry; exact E | exact (IH Hl Hin)].
Qed.

Lemma removeQuotes_unquoted (l : list ascii) :
  ~ In dquote l -> removeQuotes l = l.
Proof.
  induction l as [|c l IH]; intros Hq; [reflexivity|].
  cbn [removeQuotes List.filter].
  assert (Ec : Ascii.eqb c dquote = false).
  { apply Ascii.eqb_neq. intro E. apply Hq. left. exact E. }
  rewrite Ec. cbn [negb]. f_equal. apply IH.
  intro H. apply Hq. right. exact H.
Qed.

Lemma parseLineLoop_plain (field rest current : list ascii) :
  ~ In dquote field -> ~ In comma field ->
  parseLineLoop (field ++ rest) current false
  = parseLineLoop rest (rev field ++ current) false.
Proof.
  revert current. induction field as [|c field IH]; intros current Hq Hc.
  - reflexivity.
  - cbn [app parseLineLoop].
    assert (Eq : Ascii.eqb c dquote = false).
    { apply Ascii.eqb_neq. intro E. apply Hq. left. exact E. }
    assert (Ec : Ascii.eqb c comma = false).
    { apply Ascii.eqb_neq. intro E. apply Hc. left. exact E. }
    rewrite Eq, Ec. cbn [andb].
    rewrite IH; [| intro H; apply Hq; right; exact H
                 | intro H; apply Hc; right; exact H].
    cbn [rev]. rewrite <- app_assoc. reflexivity.
Qed.

Lemma parseLineLoop_escapeCell (v : value) (rest current : list ascii) :
  parseLineLoop (chars (escapeCell v) ++ rest) current false
  = parseLineLoop rest (rev (removeQuotes (chars (cellText v))) ++ current) false.
Proof.
  unfold escapeCell.
  destruct (includes "," (cellText v)) eqn:Hc;
    [|destruct (includes (String dquote "") (cellText v)) eqn:Hq;
      [|destruct (includes (String newline "") (cellText v)) eqn:Hn]];
    cbn [orb].
  4: { rewrite (removeQuotes_unquoted _ (includes_char _ _ Hq)).
       apply parseLineLoop_plain;
         [exact (includes_char _ _ Hq) | exact (includes_char _ _ Hc)]. }
  all: rewrite chars_ofChars;
    exact (parseLineLoop_quotedField (chars (cellText v)) rest current).
Qed.

Lemma parseLineLoop_escaped_cells (v : value) (vs : list value)
  (current : list ascii) :
  parseLineLoop
    (joinFields (List.map (fun x => chars (escapeCell x)) (v :: vs)))
    current false
  = trim (ofChars (rev (rev (removeQuotes (chars (cellText v))) ++ current)))
    :: List.map (fun x => trim (ofChars (removeQuotes (chars (cellText x))))) vs.
Proof.
  revert v current. induction vs as [|v' vs IH]; intros v current.
  - cbn [List.map joinFields].
    rewrite <- (app_nil_r (chars (escapeCell v))).
    rewrite parseLineLoop_escapeCell. reflexivity.
  - change (joinFields (List.map (fun x => chars (escapeCell x)) (v :: v' :: vs)))
      with (chars (escapeCell v)
            ++ comma :: joinFields (List.map (fun x => chars (escapeCell x)) (v' :: vs))).
    rewrite parseLineLoop_escapeCell.
    cbn [parseLineLoop]. 
    change (Ascii.eqb comma dquote) with false.
    change (Ascii.eqb comma comma) with true. cbn [andb negb].
    rewrite (IH v' []). rewrite app_nil_r, rev_involutive. reflexivity.
Qed.

Lemma parseLine_escaped_cells (vs : list value) :
  vs <> [] ->
  parseLine (join "," (List.map escapeCell vs))
  = List.map (fun x => trim (ofChars (removeQuotes (chars (cellText x))))) vs.
Proof.
  intro Hne. destruct vs as [|v vs]; [contradiction|].
  unfold parseLine. rewrite chars_join_comma, map_map.
  rewrite parseLineLoop_escaped_cells.
  rewrite app_nil_r, rev_involutive. reflexivity.
Qed.

Lemma append_not_empty (a b : string) (c : ascii) :
  (a ++ String c b)%string <> "".
Proof. destruct a; discriminate. Qed.

(** X3. The slim CSV is the empty string exactly when there is no row or
    no header that matches one of the slim patterns. *)
Theorem buildSlimCsv_empty (rows : list object) (headers : list string) :
  buildSlimCsv rows headers = ""
  <-> rows = [] \/ slimHeadersOf headers = [].
Proof.
  unfold buildSlimCsv. split.
  - intro H. destruct rows as [|r rows]; [left; reflexivity|].
    destruct headers as [|h headers]; [right; reflexivity|].
    destruct (slimHeadersOf (h :: headers)) as [|s ss]; [right; reflexivity|].
    exfalso. cbn [List.map] in H.
    change (join (String newline "") (?a :: ?b :: ?l))
      with (a ++ String newline "" ++ join (String newline "") (b :: l))%string in H.
    exact (append_not_empty _ _ _ H).
  - intros [->| H]; [reflexivity|].
    destruct rows as [|r rows]; [reflexivity|].
    destruct headers as [|h headers]; [reflexivity|].
    rewrite H. reflexivity.
Qed.

Lemma splitAux_piece_end (sep : ascii) (x cur : list ascii) :
  ~ In sep x -> splitAux sep cur x = [ofChars (rev cur ++ x)].
Proof.
  revert cur. induction x as [|c x IH]; intros cur Hx; cbn [splitAux].
  - rewrite app_nil_r. reflexivity.
  - destruct (Ascii.eqb_spec c sep) as [E|E];
      [exfalso; apply Hx; left; exact E|].
    rewrite IH by (intro H; apply Hx; right; exact H).
    cbn [rev]. rewrite <- app_assoc. reflexivity.
Qed.

Lemma splitAux_piece_sep (sep : ascii) (x rest cur : list ascii) :
  ~ In sep x ->
  splitAux sep cur (x ++ sep :: rest)
  = ofChars (rev cur ++ x) :: splitAux sep [] rest.
Proof.
  revert cur. induction x as [|c x IH]; intros cur Hx; cbn [app splitAux].
  - rewrite Ascii.eqb_refl, app_nil_r. reflexivity.
  - destruct (Ascii.eqb_spec c sep) as [E|E];
      [exfalso; apply Hx; left; exact E|].
    rewrite IH by (intro H; apply Hx; right; exact H).
    cbn [rev]. rewrite <- app_assoc. reflexivity.
Qed.

(** Pieces without the separator, joined and split again. *)
Lemma split_join (sep : ascii) (a : string) (l : list string) :
  Forall (fun x => ~ In sep (chars x)) (a :: l) ->
  split sep (join (String sep "") (a :: l)) = a :: l.
Proof.
  unfold split. revert a. induction l as [|b l IH]; intros a H.
  - cbn [join]. inversion H as [|? ? Ha _]; subst.
    rewrite (splitAux_piece_end sep (chars a) [] Ha). cbn [rev app].
    rewrite ofChars_chars. reflexivity.
  - inversion H as [|? ? Ha Hl]; subst.
    change (join (String sep "") (a :: b :: l))
      with (a ++ String sep "" ++ join (String sep "") (b :: l))%string.
    rewrite chars_append, chars_append.
    change (chars (String sep "")) with [sep]. cbn [app].
    rewrite (splitAux_piece_sep sep (chars a) _ [] Ha). cbn [rev app].
    rewrite ofChars_chars, (IH b Hl). reflexivity.
Qed.

Lemma escapeCell_no_newline (v : value) :
  ~ In newline (chars (cellText v)) -> ~ In newline (chars (escapeCell v)).
Proof.
  intro H. unfold escapeCell.
  destruct (includes "," (cellText v) || includes (String dquote "") (cellText v)
            || includes (String newline "") (cellText v))%bool; [|exact H].
  rewrite chars_ofChars. intros [E|Hin]; [discriminate E|].
  apply in_app_or in Hin. destruct Hin as [Hin|[E|[]]]; [|discriminate E].
  apply in_flat_map in Hin. destruct Hin as [c [Hc Hin]].
  destruct (Ascii.eqb c dquote).
  - destruct Hin as [E|[E|[]]]; discriminate E.
  - destruct Hin as [E|[]]. subst c. exact (H Hc).
Qed.

Lemma join_comma_no_newline (l : list string) :
  Forall (fun x => ~ In newline (chars x)) l ->
  ~ In newline (chars (join "," l)).
Proof.
  induction 1 as [|x l Hx Hl IH]; [intros []|].
  destruct l as [|y l]; [exact Hx|].
  change (join "," (x :: y :: l)) with (x ++ "," ++ join "," (y :: l))%string.
  rewrite chars_append, chars_append. intro Hin.
  apply in_app_or in Hin. destruct Hin as [Hin|Hin]; [exact (Hx Hin)|].
  apply in_app_or in Hin. destruct Hin as [[E|[]]|Hin];
    [discriminate E | exact (IH Hin)].
Qed.

(** X4. A slim CSV that is not empty is made of records joined by
    newlines: the slim headers joined by commas, then one record per row,
    which [parseLine] reads back as the cells of the row under the slim
    headers, each without its quotes and trimmed: a comma in a cell does
    not split it. A cell that holds a newline is written with it, between
    quotes, so that its record spans several lines; when no slim header
    and no cell under a slim header holds a newline, the lines of the
    text are the records: one line of headers and one line per row. *)
Theorem buildSlimCsv_lines (rows : list object) (headers slimHeaders : list string) :
  rows <> [] ->
  slimHeadersOf headers = slimHeaders ->
  slimHeaders <> [] ->
  exists records,
    buildSlimCsv rows headers
    = join (String newline "") (join "," slimHeaders :: records)
    /\ Forall2
         (fun r record =>
            parseLine record
            = List.map
                (fun h => trim (ofChars (removeQuotes (chars (cellText (get r h))))))
                slimHeaders)
         rows records
    /\ ((forall h, In h slimHeaders -> ~ In newline (chars h)) ->
        (forall r h,
           In r rows -> In h slimHeaders ->
           ~ In newline (chars (cellText (get r h)))) ->
        split newline (buildSlimCsv rows headers)
        = join "," slimHeaders :: records).
Proof.
  intros Hrows Hslim Hne.
  assert (Htext : buildSlimCsv rows headers
                  = join (String newline "")
                      (join "," slimHeaders
                       :: List.map
                            (fun r =>
                               join ","
                                 (List.map (fun h => escapeCell (get r h))
                                    slimHeaders))
                            rows)).
  { unfold buildSlimCsv. destruct rows as [|r rows]; [contradiction|].
    destruct headers as [|h headers]; [cbn in Hslim; congruence|].
    rewrite Hslim. destruct slimHeaders; [contradiction | reflexivity]. }
  exists (List.map
            (fun r => join "," (List.map (fun h => escapeCell (get r h)) slimHeaders))
            rows).
  split; [exact Htext|]. split.
  - clear Hrows Hslim Htext.
    induction rows as [|r rows IH]; constructor; [|exact IH].
    rewrite <- (map_map (fun h => get r h) escapeCell).
    rewrite parseLine_escaped_cells.
    + apply map_map.
    + destruct slimHeaders; [contradiction | discriminate].
  - intros Hheaders Hcells. rewrite Htext. apply split_join.
    constructor.
    + apply join_comma_no_newline, Forall_forall. exact Hheaders.
    + apply Forall_forall. intros record Hrecord.
      apply in_map_iff in Hrecord. destruct Hrecord as [r [<- Hr]].
      apply join_comma_no_newline, Forall_forall. intros cell Hcell.
      apply in_map_iff in Hcell. destruct Hcell as [h [<- Hh]].
      apply escapeCell_no_newline, (Hcells r h Hr Hh).
Qed.

Lemma buildSlimCsv_lines_witness :
  exists records,
    buildSlimCsv [[("text", VStr "a, b"); ("id", VStr "7")]] ["id"; "text"; "Type"]
    = join (String newline "") (join "," ["text"; "Type"] :: records)
    /\ Forall2
         (fun r record =>
            parseLine record
            = List.map
                (fun h => trim (ofChars (removeQuotes (chars (cellText (get r h))))))
                ["text"; "Type"])
         [[("text", VStr "a, b"); ("id", VStr "7")]] records
    /\ split newline
         (buildSlimCsv [[("text", VStr "a, b"); ("id", VStr "7")]]
            ["id"; "text"; "Type"])
       = join "," ["text"; "Type"] :: records.
Proof.
  destruct (buildSlimCsv_lines
              [[("text", VStr "a, b"); ("id", VStr "7")]] ["id"; "text"; "Type"]
              ["text"; "Type"]) as [records [Htext [Hrecords Hlines]]].
  - discriminate.
  - vm_compute. reflexivity.
  - discriminate.
  - exists records. split; [exact Htext|]. split; [exact Hrecords|].
    apply Hlines.
    + intros h [<- | [<- | []]] [E|[E|[E|[E|[]]]]]; discriminate E.
    + intros r h [<- | []] [<- | [<- | []]] Hin; vm_compute in Hin;
        repeat (destruct Hin as [E|Hin]; [discriminate E|]); exact Hin.
Defined.

(** *** Properties of the column lookup *)

Lemma existsb_eqb_In (s : string) (l : list string) :
  existsb (String.eqb s) l = true <-> In s l.
Proof.
  rewrite existsb_exists. split.
  - intros [x [Hin E]]. apply String.eqb_eq in E. subst x. exact Hin.
  - intro Hin. exists s. split; [exact Hin | apply String.eqb_refl].
Qed.

Lemma existsb_eqb_not_In (s : string) (l : list string) :
  existsb (String.eqb s) l = false <-> ~ In s l.
Proof.
  rewrite <- existsb_eqb_In. destruct (existsb (String.eqb s) l); split;
    congruence.
Qed.

(** X5. [resolveCol] on a string never throws, and answers with the name
    itself or with a header of the first row that has the same normal
    form; a name that is a header is answered unchanged, and a name whose
    normal form is not empty and is that of some header is answered by a
    header. *)
Theorem resolveCol_answer (rows : list object) (s : string) :
  (exists col,
     resolveCol rows (VStr s) = Return col
     /\ (col = VStr s
         \/ exists k, col = VStr k /\ k <> "" /\ In k (availableHeadersOf rows)
                      /\ norm k = norm s /\ ~ In s (availableHeadersOf rows)))
  /\ (In s (availableHeadersOf rows) -> resolveCol rows (VStr s) = Return (VStr s))
  /\ (forall k, In k (availableHeadersOf rows) -> norm k = norm s -> norm s <> "" ->
        exists k', resolveCol rows (VStr s) = Return (VStr k')
                   /\ In k' (availableHeadersOf rows) /\ norm k' = norm s).
Proof.
  unfold resolveCol, availableHeadersOf.
  destruct rows as [|row0 rows].
  { split; [|split].
    - eexists. split; [reflexivity | left; reflexivity].
    - intros [].
    - intros k []. }
  cbn [truthy].
  destruct (String.eqb s "") eqn:Es; cbn [negb].
  { apply String.eqb_eq in Es. subst s. split; [|split].
    - eexists. split; [reflexivity | left; reflexivity].
    - reflexivity.
    - intros k _ _ Hn. exfalso. apply Hn. vm_compute. reflexivity. }
  destruct (existsb (String.eqb s) (keys row0)) eqn:Ex.
  { split; [|split].
    - eexists. split; [reflexivity | left; reflexivity].
    - reflexivity.
    - intros k _ _ _. exists s. split; [reflexivity|].
      split; [apply existsb_eqb_In; exact Ex | reflexivity]. }
  apply existsb_eqb_not_In in Ex.
  unfold findStr.
  destruct (List.find (fun k => String.eqb (norm k) (norm s)) (keys row0))
    as [k0|] eqn:Hfind.
  - apply find_some in Hfind. destruct Hfind as [Hin0 Hn0].
    apply String.eqb_eq in Hn0.
    destruct (String.eqb k0 "") eqn:E0; (split; [|split]).
    + eexists. split; [reflexivity | left; reflexivity].
    + intro H. contradiction.
    + intros k _ _ Hn. exfalso. apply Hn. apply String.eqb_eq in E0. subst k0.
      rewrite <- Hn0. vm_compute. reflexivity.
    + eexists. split; [reflexivity|]. right. exists k0.
      apply String.eqb_neq in E0. repeat split; assumption.
    + intro H. contradiction.
    + intros k _ _ _. exists k0. repeat split; assumption.
  - split; [|split].
    + eexists. split; [reflexivity | left; reflexivity].
    + intro H. contradiction.
    + intros k Hk Hnk _. exfalso.
      pose proof (find_none _ _ Hfind k Hk) as Hf. cbn in Hf.
      rewrite Hnk, String.eqb_refl in Hf. discriminate Hf.
Qed.

(** X6. [compute_stats_json] computes what [compute_column_stats]
    computes: called on the same rows with the same column name, both
    throw the same error, or both answer with an error mapping, or both
    answer with the same column and the same statistics. *)
Theorem stats_tools_agree (args args' : object) (rows : list object) :
  get args "column" = get args' "field" ->
  match compute_column_stats args rows, compute_stats_json args' rows with
  | Return (ColumnStats col stats), Return (FieldStats field stats') =>
      col = field /\ stats = stats'
      /\ stats = statisticsOf (numericValues rows col)
  | Return (ErrorResult _), Return (ErrorResult _) =>
      exists col, resolveCol rows (get args "column") = Return col
                  /\ numericValues rows col = []
  | Throw e, Throw e' => e = e'
  | _, _ => False
  end.
Proof.
  intro H. unfold compute_column_stats, compute_stats_json. rewrite <- H.
  destruct (resolveCol rows (get args "column")) as [col|e]; cbn [mbind outcome_bind];
    [|reflexivity].
  destruct (numericValues rows col) as [|x vals] eqn:E.
  - exists col. split; [reflexivity | exact E].
  - rewrite E. repeat split; reflexivity.
Qed.

Lemma stats_tools_agree_witness :
  match compute_column_stats [("column", VStr "views")]
          [[("Views", VStr "5")]; [("Views", VStr "7")]],
        compute_stats_json [("field", VStr "views")]
          [[("Views", VStr "5")]; [("Views", VStr "7")]]
  with
  | Return (ColumnStats col stats), Return (FieldStats field stats') =>
      col = field /\ stats = stats'
      /\ stats = statisticsOf
                   (numericValues [[("Views", VStr "5")]; [("Views", VStr "7")]] col)
  | Return (ErrorResult _), Return (ErrorResult _) =>
      exists col,
        resolveCol [[("Views", VStr "5")]; [("Views", VStr "7")]]
          (get [("column", VStr "views")] "column") = Return col
        /\ numericValues [[("Views", VStr "5")]; [("Views", VStr "7")]] col = []
  | Throw e, Throw e' => e = e'
  | _, _ => False
  end.
Proof.
  apply (stats_tools_agree [("column", VStr "views")] [("field", VStr "views")]
           [[("Views", VStr "5")]; [("Views", VStr "7")]]).
  reflexivity.
Defined.

(** *** Properties of [get_top_tweets] *)

Lemma length_ofChars (l : list ascii) : String.length (ofChars l) = List.length l.
Proof.
  unfold ofChars. induction l as [|c l IH]; [reflexivity|].
  cbn. rewrite IH. reflexivity.
Qed.

Lemma length_prefix (n : nat) (s : string) : (String.length (prefix n s) <= n)%nat.
Proof.
  unfold prefix. rewrite length_ofChars. apply firstn_le_length.
Qed.

Lemma length_mapi {A B} (f : nat -> A -> B) (i : nat) (l : list A) :
  List.length (mapi f i l) = List.length l.
Proof.
  revert i. induction l as [|x l IH]; intro i; [reflexivity|].
  cbn. rewrite IH. reflexivity.
Qed.

Lemma nth_error_mapi {A B} (f : nat -> A -> B) (i j : nat) (l : list A) :
  nth_error (mapi f i l) j
  = match nth_error l j with Some x => Some (f (i + j)%nat x) | None => None end.
Proof.
  revert i j. induction l as [|x l IH]; intros i j.
  - destruct j; reflexivity.
  - destruct j as [|j]; cbn [mapi nth_error].
    + rewrite Nat.add_0_r. reflexivity.
    + rewrite IH. rewrite Nat.add_succ_r. reflexivity.
Qed.

Lemma mapi_Forall2 {A B} (f : nat -> A -> B) (P : B -> A -> Prop) (i : nat)
  (l : list A) :
  (forall j x, P (f j x) x) -> Forall2 P (mapi f i l) l.
Proof.
  intro H. revert i. induction l as [|x l IH]; intro i; constructor; auto.
Qed.

Lemma get_set_other (o : object) (k k' : string) (v : value) :
  k' <> k -> get (set o k v) k' = get o k'.
Proof.
  intro H. unfold get. rewrite (getOwn_set_other o k k' v H). reflexivity.
Qed.

Lemma sliceEnd_ten (len : nat) : sliceEnd len (Num.ofZ 10) = Nat.min 10 len.
Proof.
  change (Num.ofZ 10) with (S754_finite false 5629499534213120 (-49)).
  unfold sliceEnd.
  change (truncate (S754_finite false 5629499534213120 (-49))) with 10.
  change (Z.ltb 10 0) with false. cbv iota. lia.
Qed.

(** The columns that [get_top_tweets] copies are not the properties it
    writes itself. *)
Lemma favorite_column_name (l : list string) (f : string) :
  findStr (test true reFavoriteCount) l = Some f ->
  f <> "rank" /\ f <> "text" /\ f <> "engagement".
Proof.
  intro H. apply findStr_holds in H.
  repeat split; intro E; subst f; vm_compute in H; discriminate H.
Qed.

Lemma view_column_name (l : list string) (v : string) :
  findStr (test true reViewCount) l = Some v ->
  v <> "rank" /\ v <> "text" /\ v <> "engagement".
Proof.
  intro H. apply findStr_holds in H.
  repeat split; intro E; subst v; vm_compute in H; discriminate H.
Qed.

Lemma tweetOf_spec (headers : list string) (textCol : option string)
  (engCol : bool) (i : nat) (r : object) :
  let favCol := findStr (test true reFavoriteCount) headers in
  let viewCol := findStr (test true reViewCount) headers in
  let t := tweetOf textCol favCol viewCol engCol i r in
  get t "rank" = VNum (ofNat (S i))
  /\ (forall s, get t "text" = VStr s -> (String.length s <= 150)%nat)
  /\ (engCol = true -> get t "engagement" = get r "engagement")
  /\ (forall f, favCol = Some f -> f <> "" -> get t f = get r f)
  /\ (forall v, viewCol = Some v -> v <> "" -> get t v = get r v).
Proof.
  intros favCol viewCol t. subst t. unfold tweetOf.
  set (out0 := [("rank", VNum (ofNat (S i)))] : object).
  set (out1 := if notFound textCol then out0 else set out0 "text" _).
  assert (Hfav : forall f, favCol = Some f ->
            f <> "rank" /\ f <> "text" /\ f <> "engagement")
    by (intros f; apply favorite_column_name).
  assert (Hview : forall v, viewCol = Some v ->
            v <> "rank" /\ v <> "text" /\ v <> "engagement")
    by (intros v; apply view_column_name).
  set (out2 := match favCol with
               | Some f => if String.eqb f "" then out1 else set out1 f (get r f)
               | None => out1
               end).
  set (out3 := match viewCol with
               | Some v => if String.eqb v "" then out2 else set out2 v (get r v)
               | None => out2
               end).
  assert (H1 : get out1 "rank" = VNum (ofNat (S i))
               /\ (forall s, get out1 "text" = VStr s -> (String.length s <= 150)%nat)).
  { subst out1. destruct (notFound textCol).
    - split; [reflexivity|]. intros s Hs. discriminate Hs.
    - split; [reflexivity|]. intros s Hs.
      rewrite get_set_same in Hs. injection Hs as <-. apply length_prefix. }
  assert (H2 : get out2 "rank" = get out1 "rank"
               /\ get out2 "text" = get out1 "text"
               /\ get out2 "engagement" = get out1 "engagement"
               /\ forall f, favCol = Some f -> f <> "" -> get out2 f = get r f).
  { subst out2. destruct favCol as [f|].
    - destruct (Hfav f eq_refl) as [Hr [Ht He]].
      destruct (String.eqb f "") eqn:Ef.
      + repeat split; try reflexivity. intros f' Hf' Hne. injection Hf' as <-.
        apply String.eqb_eq in Ef. contradiction.
      + repeat split; try (apply get_set_other; congruence).
        intros f' Hf' _. injection Hf' as <-. apply get_set_same.
    - repeat split; try reflexivity. intros f Hf. discriminate Hf. }
  assert (H3 : get out3 "rank" = get out2 "rank"
               /\ get out3 "text" = get out2 "text"
               /\ get out3 "engagement" = get out2 "engagement"
               /\ (forall f, favCol = Some f -> f <> "" -> get out3 f = get r f)
               /\ forall v, viewCol = Some v -> v <> "" -> get out3 v = get r v).
  { destruct H2 as [_ [_ [_ H2]]]. subst out3. destruct viewCol as [v|].
    - destruct (Hview v eq_refl) as [Hr [Ht He]].
      destruct (String.eqb v "") eqn:Ev.
      + repeat split; try reflexivity; [exact H2|].
        intros v' Hv' Hne. injection Hv' as <-.
        apply String.eqb_eq in Ev. contradiction.
      + repeat split; try (apply get_set_other; congruence).
        * intros f Hf Hne. destruct (String.eqb f v) eqn:Efv.
          -- apply String.eqb_eq in Efv. subst f. apply get_set_same.
          -- apply String.eqb_neq in Efv. rewrite get_set_other by exact Efv.
             exact (H2 f Hf Hne).
        * intros v' Hv' _. injection Hv' as <-. apply get_set_same.
    - repeat split; try reflexivity; [exact H2|]. intros v Hv. discriminate Hv. }
  destruct H1 as [H1r H1t]. destruct H2 as [H2r [H2t [H2e H2f]]].
  destruct H3 as [H3r [H3t [H3e [H3f H3v]]]].
  destruct engCol.
  - split; [rewrite get_set_other by discriminate; congruence|].
    split; [intros s; rewrite get_set_other by discriminate;
            rewrite H3t, H2t; apply H1t|].
    split; [intros _; apply get_set_same|].
    split.
    + intros f Hf Hne. destruct (Hfav f Hf) as [_ [_ He]].
      rewrite get_set_other by exact He. exact (H3f f Hf Hne).
    + intros v Hv Hne. destruct (Hview v Hv) as [_ [_ He]].
      rewrite get_set_other by exact He. exact (H3v v Hv Hne).
  - split; [congruence|].
    split; [intros s; rewrite H3t, H2t; apply H1t|].
    split; [intro H; discriminate H|].
    split; assumption.
Qed.

Lemma get_top_tweets_unfold (args : object) (rows : list object) (resolved : value) :
  resolveCol rows (get args "sort_column") = Return resolved ->
  let headers := availableHeadersOf rows in
  let sortCol := orValue resolved (get args "sort_column") in
  let asc := match get args "ascending" with
             | VUndefined | VNull => VBool false
             | v => v
             end in
  let topRows :=
    mapi (tweetOf
            (orFound (findStr (test true reText) headers)
                     (findStr (test true reTextLike) headers))
            (findStr (test true reFavoriteCount) headers)
            (findStr (test true reViewCount) headers)
            (existsb (String.eqb "engagement") headers))
      O (sliceTo (sortBy (tweetGt sortCol asc) rows)
           (orValue (get args "n") (VNum (Num.ofZ 10)))) in
  get_top_tweets args rows
  = match topRows with
    | [] =>
        Return (ErrorResult
          ("No rows found. Column " ++ quoted (toString sortCol)
           ++ " may not exist. Available: " ++ join ", " headers)%string)
    | _ =>
        Return (TopTweets sortCol
          (if truthy asc then "ascending (lowest first)"
           else "descending (highest first)")
          (List.length topRows) topRows)
    end.
Proof.
  intro H. unfold get_top_tweets. rewrite H. reflexivity.
Qed.

(** X7. When [get_top_tweets] answers with tweets, their number is the
    reported count, at least one and at most the number of rows (the
    lesser of ten and the number of rows when [n] is not given); the
    tweet at position [i] has rank [i + 1] and a text of at most 150
    characters; and the tweets are made, in order, of distinct rows, whose
    favorite count, view count and engagement they carry. *)
Theorem get_top_tweets_shape (args : object) (rows : list object)
  (sortCol : value) (direction : string) (count : nat) (tweets : list object) :
  get_top_tweets args rows = Return (TopTweets sortCol direction count tweets) ->
  count = List.length tweets
  /\ (0 < count <= List.length rows)%nat
  /\ (get args "n" = VUndefined -> count = Nat.min 10 (List.length rows))
  /\ (forall i t, nth_error tweets i = Some t ->
        get t "rank" = VNum (ofNat (S i))
        /\ forall s, get t "text" = VStr s -> (String.length s <= 150)%nat)
  /\ exists shown hidden,
       Permutation (shown ++ hidden) rows
       /\ Forall2
            (fun t r =>
               (In "engagement" (availableHeadersOf rows) ->
                get t "engagement" = get r "engagement")
               /\ (forall f,
                     findStr (test true reFavoriteCount) (availableHeadersOf rows)
                     = Some f ->
                     f <> "" -> get t f = get r f)
               /\ (forall v,
                     findStr (test true reViewCount) (availableHeadersOf rows)
                     = Some v ->
                     v <> "" -> get t v = get r v))
            tweets shown.
Proof.
  intro H.
  destruct (resolveCol rows (get args "sort_column")) as [resolved|e] eqn:Hres.
  2: { unfold get_top_tweets in H. rewrite Hres in H. discriminate H. }
  rewrite (get_top_tweets_unfold args rows resolved Hres) in H. cbv zeta in H.
  set (headers := availableHeadersOf rows) in *.
  set (textCol := orFound _ _) in H.
  set (sorted := sortBy _ rows) in H.
  set (n := orValue (get args "n") _) in H.
  set (engCol := existsb _ headers) in H.
  assert (Hperm : Permutation sorted rows) by apply sortBy_perm.
  assert (Hlen : List.length sorted = List.length rows)
    by (apply Permutation_length; exact Hperm).
  unfold sliceTo in H.
  set (k := sliceEnd (List.length sorted) (toNumber n)) in H.
  set (f := tweetOf _ _ _ _) in H.
  remember (mapi f 0 (firstn k sorted)) as top eqn:Htop.
  destruct top as [|t0 ts]; [discriminate H|].
  injection H as _ _ Hc Ht.
  assert (Hpos : (0 < List.length (firstn k sorted))%nat).
  { rewrite <- (length_mapi f 0), <- Htop. cbn. lia. }
  assert (Hc' : count = List.length (mapi f 0 (firstn k sorted))).
  { rewrite <- Htop, <- Hc. reflexivity. }
  rewrite Htop in Ht. clear t0 ts Htop Hc. subst count tweets.
  rewrite length_mapi.
  assert (Hcount : (List.length (firstn k sorted) <= List.length rows)%nat).
  { rewrite length_firstn. lia. }
  split; [reflexivity|]. split; [split; assumption|]. split; [|split].
  - intro Hn. rewrite length_firstn. subst k n. rewrite Hn.
    change (toNumber (orValue VUndefined (VNum (Num.ofZ 10)))) with (Num.ofZ 10).
    rewrite sliceEnd_ten. lia.
  - intros i t Ht. rewrite nth_error_mapi in Ht.
    destruct (nth_error (firstn k sorted) i) as [r|]; [|discriminate Ht].
    injection Ht as <-.
    destruct (tweetOf_spec headers textCol engCol (0 + i) r) as [Hr [Ht _]].
    split; [exact Hr | exact Ht].
  - exists (firstn k sorted), (skipn k sorted). split.
    + rewrite firstn_skipn. exact Hperm.
    + apply mapi_Forall2. intros j r.
      destruct (tweetOf_spec headers textCol engCol j r) as [_ [_ [He [Hf Hv]]]].
      split; [|split; assumption].
      intro Hin. apply He. subst engCol. apply includes_engagement. exact Hin.
Qed.

Lemma get_top_tweets_shape_witness :
  exists sortCol direction count tweets,
    get_top_tweets [("sort_column", VStr "view count")]
      [[("text", VStr "a"); ("View Count", VStr "3")];
       [("text", VStr "b"); ("View Count", VStr "10")]]
    = Return (TopTweets sortCol direction count tweets)
    /\ count = List.length tweets
    /\ (0 < count <= 2)%nat.
Proof.
  eexists _, _, _, _. 
  assert (H : get_top_tweets [("sort_column", VStr "view count")]
      [[("text", VStr "a"); ("View Count", VStr "3")];
       [("text", VStr "b"); ("View Count", VStr "10")]]
    = Return (TopTweets (VStr "View Count") "descending (highest first)" 2
        [[("rank", VNum (ofNat 1)); ("text", VStr "b"); ("View Count", VStr "10")];
         [("rank", VNum (ofNat 2)); ("text", VStr "a"); ("View Count", VStr "3")]]))
    by (vm_compute; reflexivity).
  split; [exact H|].
  destruct (get_top_tweets_shape _ _ _ _ _ _ H) as [Hc [Hb _]].
  split; [exact Hc | exact Hb].
Defined.

(** *** Properties of [plot_metric_vs_time] *)

Lemma in_concat_map_option {A B} (f : A -> option B) (l : list A) (y : B) :
  In y (List.concat
          (List.map (fun x => match f x with Some p => [p] | None => [] end) l))
  <-> exists x, In x l /\ f x = Some y.
Proof.
  induction l as [|a l IH]; cbn [List.map List.concat].
  - split; [intros [] | intros [x [[] _]]].
  - rewrite in_app_iff, IH. split.
    + intros [H|[x [Hx Hf]]].
      * destruct (f a) as [p|] eqn:E; [|destruct H].
        destruct H as [<-|[]]. exists a. split; [left; reflexivity | exact E].
      * exists x. split; [right; exact Hx | exact Hf].
    + intros [x [[<-|Hx] Hf]].
      * left. rewrite Hf. left. reflexivity.
      * right. exists x. split; assumption.
Qed.

Lemma length_concat_map_option {A B} (f : A -> option B) (l : list A) :
  (List.length
     (List.concat
        (List.map (fun x => match f x with Some p => [p] | None => [] end) l))
   <= List.length l)%nat.
Proof.
  induction l as [|a l IH]; cbn [List.map List.concat List.length]; [lia|].
  rewrite length_app. destruct (f a); cbn [List.length]; lia.
Qed.

Lemma seriesPoint_spec (h : host) (metricCol dateCol : value) (r : object)
  (d : value) (t x : number) :
  seriesPoint h metricCol dateCol r = Some (d, t, x)
  <-> d = cell r dateCol /\ x = parseFloat (cell r metricCol)
      /\ t = dateTime h d
      /\ truthy d = true /\ isNaN x = false /\ isNaN t = false.
Proof.
  unfold seriesPoint.
  destruct (truthy (cell r dateCol)) eqn:Ed; cbn [negb orb].
  - destruct (isNaN (parseFloat (cell r metricCol))) eqn:Ex.
    + split; [intro H; discriminate H|].
      intros [-> [-> [_ [_ [H _]]]]]. congruence.
    + destruct (isNaN (dateTime h (cell r dateCol))) eqn:Et.
      * split; [intro H; discriminate H|].
        intros [-> [_ [-> [_ [_ H]]]]]. congruence.
      * split.
        -- intro H. injection H as <- <- <-. repeat split; assumption.
        -- intros [-> [-> [-> _]]]. reflexivity.
  - split; [intro H; discriminate H|].
    intros [-> [_ [_ [H _]]]]. congruence.
Qed.

(** X8. [plot_metric_vs_time] on no rows answers with an error, whatever
    its arguments. When it answers with a chart, the chart has at least
    one point and at most one per row; every point is made of a row whose
    date is truthy and readable and whose metric parses, and every such
    row gives a point. *)
Theorem plot_metric_vs_time_points (h : host) (args : object) :
  (exists e, plot_metric_vs_time h args [] = Return (ErrorResult e))
  /\ forall rows data metricCol dateCol,
       plot_metric_vs_time h args rows
       = Return (MetricVsTime data metricCol dateCol) ->
       resolveCol rows (get args "metric_column") = Return metricCol
       /\ resolveCol rows (get args "date_column") = Return dateCol
       /\ data <> []
       /\ (List.length data <= List.length rows)%nat
       /\ (forall p, In p data ->
             exists r, In r rows
               /\ cp_date p = cell r dateCol
               /\ cp_value p = parseFloat (cell r metricCol)
               /\ cp_label p = dateLabel h (dateTime h (cp_date p))
               /\ truthy (cp_date p) = true
               /\ isNaN (cp_value p) = false
               /\ isNaN (dateTime h (cp_date p)) = false)
       /\ (forall r, In r rows ->
             truthy (cell r dateCol) = true ->
             isNaN (parseFloat (cell r metricCol)) = false ->
             isNaN (dateTime h (cell r dateCol)) = false ->
             In (ChartPoint (cell r dateCol) (parseFloat (cell r metricCol))
                   (dateLabel h (dateTime h (cell r dateCol))))
                data).
Proof.
  split; [eexists; reflexivity|].
  intros rows data metricCol dateCol H.
  unfold plot_metric_vs_time in H.
  destruct rows as [|r0 rows']; [discriminate H|].
  set (rows := r0 :: rows') in *.
  destruct (resolveCol rows (get args "metric_column")) as [mc|e];
    [|discriminate H].
  cbn [mbind outcome_bind] in H.
  destruct (resolveCol rows (get args "date_column")) as [dc|e];
    [|discriminate H].
  cbn [mbind outcome_bind] in H.
  set (vals := List.concat _) in H.
  assert (Hvals : forall q, In q vals <-> exists r, In r rows
                    /\ seriesPoint h mc dc r = Some q)
    by (intro q; apply in_concat_map_option).
  assert (Hlen : (List.length vals <= List.length rows)%nat)
    by apply length_concat_map_option.
  destruct vals as [|v0 vs] eqn:Ev; [discriminate H|].
  rewrite <- Ev in *. 
  set (sorted := sortBy _ vals) in H.
  assert (Hperm : Permutation sorted vals) by apply sortBy_perm.
  injection H as <- <- <-.
  split; [reflexivity|]. split; [reflexivity|].
  split; [|split; [|split]].
  - intro E. apply map_eq_nil in E.
    apply Permutation_length in Hperm. rewrite E, Ev in Hperm. discriminate Hperm.
  - rewrite length_map, (Permutation_length Hperm). exact Hlen.
  - intros p Hp. apply in_map_iff in Hp. destruct Hp as [[[d t] x] [<- Hq]].
    apply (Permutation_in _ Hperm) in Hq. apply Hvals in Hq.
    destruct Hq as [r [Hr Hs]]. apply seriesPoint_spec in Hs.
    destruct Hs as [Hd [Hx [Ht [Htd [Hnx Hnt]]]]].
    exists r. cbn [cp_date cp_value cp_label fst snd]. subst t.
    repeat split; assumption.
  - intros r Hr Hd Hx Ht. apply in_map_iff.
    exists (cell r dc, dateTime h (cell r dc), parseFloat (cell r mc)).
    split; [reflexivity|].
    apply (Permutation_in _ (Permutation_sym Hperm)). apply Hvals.
    exists r. split; [exact Hr|]. apply seriesPoint_spec.
    repeat split; assumption.
Qed.

Lemma plot_metric_vs_time_points_witness :
  let h := Host (fun v => parseFloat v) (fun _ => "") (fun _ _ => RequestFailed "") in
  let rows := [[("date", VStr "2"); ("views", VStr "10")];
               [("date", VStr ""); ("views", VStr "11")];
               [("date", VStr "1"); ("views", VStr "12")]] in
  exists data,
    plot_metric_vs_time h [("metric_column", VStr "views"); ("date_column", VStr "date")]
      rows
    = Return (MetricVsTime data (VStr "views") (VStr "date"))
    /\ data <> [] /\ (List.length data <= 3)%nat.
Proof.
  intros h rows.
  assert (H : exists data,
    plot_metric_vs_time h [("metric_column", VStr "views"); ("date_column", VStr "date")]
      rows
    = Return (MetricVsTime data (VStr "views") (VStr "date")))
    by (eexists; vm_compute; reflexivity).
  destruct H as [data H]. exists data. split; [exact H|].
  destruct (plot_metric_vs_time_points h
              [("metric_column", VStr "views"); ("date_column", VStr "date")])
    as [_ Hp].
  destruct (Hp rows data _ _ H) as [_ [_ [Hne [Hlen _]]]].
  split; [exact Hne | exact Hlen].
Defined.

(** *** Properties of [play_video] *)

Lemma test_http_watch (s : string) :
  test true reHttp ("https://www.youtube.com/watch?v=" ++ s) = true.
Proof.
  unfold test, exec. rewrite chars_append. reflexivity.
Qed.

Lemma openVideo_url (st : picked) (url : string) (title thumbnail : value) :
  openVideo st = Return (OpenUrl url title thumbnail) ->
  test true reHttp url = true
  /\ pk_url st <> ""
  /\ (url = pk_url st
      \/ url = ("https://www.youtube.com/watch?v=" ++ pk_url st)%string).
Proof.
  unfold openVideo. destruct (String.eqb (pk_url st) "") eqn:E; [discriminate|].
  apply String.eqb_neq in E.
  destruct (test true reHttp (pk_url st)) eqn:Et; intro H; injection H as <- _ _.
  - split; [exact Et|]. split; [exact E | left; reflexivity].
  - split; [apply test_http_watch|]. split; [exact E | right; reflexivity].
Qed.

Lemma play_video_ends (args : object) (rows : list object) :
  (exists e, play_video args rows = Return (ErrorResult e))
  \/ (exists st, play_video args rows = openVideo st).
Proof.
  unfold play_video.
  repeat match goal with
  | |- context [if ?b then _ else _] =>
      lazymatch b with
      | String.eqb (pk_url _) "" => fail
      | test true reHttp _ => fail
      | _ => destruct b
      end
  | |- context [match ?x with _ => _ end] =>
      lazymatch x with
      | String.eqb (pk_url _) "" => fail
      | test true reHttp _ => fail
      | _ => destruct x
      end
  end;
  first [ left; eexists; reflexivity | right; eexists; reflexivity ].
Qed.

(** X9. The link that [play_video] answers with always starts with
    [http://] or [https://]: it is the URL found, or the address of the
    YouTube watch page followed by what was found, which is never empty. *)
Theorem play_video_link (args : object) (rows : list object)
  (url : string) (title thumbnail : value) :
  play_video args rows = Return (OpenUrl url title thumbnail) ->
  test true reHttp url = true
  /\ exists found,
       found <> ""
       /\ (url = found
           \/ url = ("https://www.youtube.com/watch?v=" ++ found)%string).
Proof.
  intro H. destruct (play_video_ends args rows) as [[e He]|[st Hst]].
  - rewrite He in H. discriminate H.
  - rewrite Hst in H. destruct (openVideo_url st url title thumbnail H) as [Ht [Hne Hu]].
    split; [exact Ht|]. exists (pk_url st). split; assumption.
Qed.

Lemma play_video_link_witness :
  play_video [("ordinal", VNum (Num.ofZ 1))] [[("videoId", VStr "abc")]]
  = Return (OpenUrl "https://www.youtube.com/watch?v=abc" (VStr "Watch video") VNull)
  /\ test true reHttp "https://www.youtube.com/watch?v=abc" = true.
Proof.
  assert (H : play_video [("ordinal", VNum (Num.ofZ 1))] [[("videoId", VStr "abc")]]
    = Return (OpenUrl "https://www.youtube.com/watch?v=abc" (VStr "Watch video") VNull))
    by (vm_compute; reflexivity).
  split; [exact H|].
  exact (proj1 (play_video_link _ _ _ _ _ H)).
Defined.

(** X10. A [video_url] argument that is not blank decides the answer of
    [play_video] alone: the rows, the search term, [most_viewed] and the
    ordinal are not read. *)
Theorem play_video_explicit_url (args : object) (rows : list object) :
  let url := trim (toString (orValue (get args "video_url") (VStr ""))) in
  url <> "" ->
  play_video args rows
  = Return (OpenUrl
      (if test true reHttp url then url
       else ("https://www.youtube.com/watch?v=" ++ url)%string)
      (orValue (get args "title") (VStr "Watch video"))
      (orValue (get args "thumbnail_url") VNull)).
Proof.
  intros url Hurl. subst url. apply String.eqb_neq in Hurl.
  unfold play_video. cbn [pk_url pk_title pk_thumbnail]. rewrite Hurl.
  cbn [andb].
  destruct (get args "ordinal"); reflexivity.
Qed.

Lemma play_video_explicit_url_witness :
  play_video [("video_url", VStr " dQw4 "); ("most_viewed", VBool true)]
    [[("videoUrl", VStr "http://x"); ("viewCount", VStr "9")]]
  = Return (OpenUrl "https://www.youtube.com/watch?v=dQw4" (VStr "Watch video") VNull).
Proof.
  apply (play_video_explicit_url
           [("video_url", VStr " dQw4 "); ("most_viewed", VBool true)]
           [[("videoUrl", VStr "http://x"); ("viewCount", VStr "9")]]).
  vm_compute. discriminate.
Defined.

(** *** Properties of the dataset summary *)

Lemma firstSeen_from_length (scanned seen : list string) :
  (List.length
     (fold_left
        (fun seen k => if existsb (String.eqb k) seen then seen else seen ++ [k])
        scanned seen)
   <= List.length seen + List.length scanned)%nat.
Proof.
  revert seen. induction scanned as [|k scanned IH]; intro seen;
    cbn [fold_left List.length]; [lia|].
  destruct (existsb (String.eqb k) seen).
  - specialize (IH seen). lia.
  - specialize (IH (seen ++ [k])). rewrite length_app in IH. cbn in IH. lia.
Qed.

Lemma summaryCounts_unique (vals : list value) :
  List.length (keys (summaryCounts vals))
  = List.length (firstSeen (List.map toString vals))
  /\ (List.length (keys (summaryCounts vals)) <= List.length vals)%nat.
Proof.
  rewrite length_keys, <- (length_map fst), summaryCounts_keys.
  split; [reflexivity|].
  unfold firstSeen.
  pose proof (firstSeen_from_length (List.map toString vals) []) as H.
  rewrite length_map in H. exact H.
Qed.

Lemma length_presentValues (rows : list object) (h : string) :
  (List.length (presentValues rows h) <= List.length rows)%nat.
Proof.
  unfold presentValues.
  etransitivity; [apply filter_length_le|]. rewrite length_map. lia.
Qed.

Lemma length_numericPresent (rows : list object) (h : string) :
  (List.length (numericPresent rows h) <= List.length rows)%nat.
Proof.
  unfold numericPresent.
  etransitivity; [apply filter_length_le|]. rewrite length_map.
  apply length_presentValues.
Qed.

Lemma numericPresent_not_NaN (rows : list object) (h : string) :
  Forall (fun x => isNaN x = false) (numericPresent rows h).
Proof.
  unfold numericPresent. apply Forall_forall. intros x Hx.
  apply filter_In in Hx. destruct Hx as [_ Hx].
  destruct (isNaN x); [discriminate Hx | reflexivity].
Qed.

Lemma columnDigestOf_spec (rows : list object) (h : string) :
  match columnDigestOf rows h with
  | NumericCol name count mean lowest highest =>
      name = h
      /\ count = List.length (numericPresent rows h)
      /\ (0 < count <= List.length rows)%nat
      /\ mean = toFixedNumber 2
                  (div (sum (numericPresent rows h)) (ofNat count))
      /\ lowest = Math_min (numericPresent rows h)
      /\ highest = Math_max (numericPresent rows h)
      /\ leb lowest highest = true
      /\ forall x, In x (numericPresent rows h) ->
           leb lowest x = true /\ leb x highest = true
  | CategoricalCol name unique top =>
      name = h
      /\ unique = List.length (firstSeen (List.map toString (presentValues rows h)))
      /\ (unique <= List.length rows)%nat
  end.
Proof.
  unfold columnDigestOf. fold (numericPresent rows h).
  destruct (leb (ofDecimal false 8 (-1)) _ && Nat.ltb 0 _)%bool eqn:E.
  - apply andb_prop in E. destruct E as [_ E]. apply Nat.ltb_lt in E.
    pose proof (length_numericPresent rows h) as Hlen.
    destruct (min_max_bounds (numericPresent rows h)
                (numericPresent_not_NaN rows h)) as [Hb Hne].
    repeat split; try reflexivity; try lia.
    + apply Hne. intro E0. rewrite E0 in E. inversion E.
    + apply Hb. assumption.
    + apply Hb. assumption.
  - destruct (summaryCounts_unique (presentValues rows h)) as [Hu Hl].
    pose proof (length_presentValues rows h).
    repeat split; [exact Hu | lia].
Qed.

Lemma in_summarySection (heading : summaryLine) (cols : list columnDigest)
  (d : columnDigest) :
  In d cols -> In (ColumnLine d) (summarySection heading cols).
Proof.
  unfold summarySection. destruct cols as [|c cols]; [intros []|].
  intro H. right. apply in_map. exact H.
Qed.

(** X11. The summary of a dataset without rows or without headers is
    empty. Otherwise it is made of the title, with the numbers of rows
    and of columns, then of the lines of the numeric columns under their
    heading, then of the lines of the categorical columns under theirs:
    every header has one line, the columns of each kind are in the order
    of the headers, and a kind without columns has no heading. For a
    header that is not the name of a member of [Object.prototype]: a
    numeric line counts the present values that parse, at least one and
    at most one per row, and its minimum and maximum bound every value
    counted; a categorical line counts the distinct present values, at
    most one per row, when no value is such a name; a column with no
    present value is categorical, with no value. *)
Theorem computeDatasetSummary_digests (rows : list object) (headers : list string) :
  (rows = [] \/ headers = [] -> computeDatasetSummary rows headers = [])
  /\ (rows <> [] -> headers <> [] ->
      exists numeric categorical,
        computeDatasetSummary rows headers
        = TitleLine (List.length rows) (List.length headers)
          :: summarySection NumericHeading numeric
          ++ summarySection CategoricalHeading categorical
        /\ numeric
           = List.map (columnDigestOf rows)
               (List.filter (fun h => isNumericCol (columnDigestOf rows h))
                  headers)
        /\ categorical
           = List.map (columnDigestOf rows)
               (List.filter (fun h => negb (isNumericCol (columnDigestOf rows h)))
                  headers)
        /\ Forall (fun d => isNumericCol d = true) numeric
        /\ Forall (fun d => isNumericCol d = false) categorical
        /\ Permutation (List.map digestName (numeric ++ categorical)) headers)
  /\ (forall h,
        inherited h = false ->
        match columnDigestOf rows h with
        | NumericCol name count mean lowest highest =>
            name = h
            /\ count = List.length (numericPresent rows h)
            /\ (0 < count <= List.length rows)%nat
            /\ leb lowest highest = true
            /\ forall x, In x (numericPresent rows h) ->
                 leb lowest x = true /\ leb x highest = true
        | CategoricalCol name unique top =>
            name = h
            /\ (Forall (fun v => inherited (toString v) = false)
                  (presentValues rows h) ->
                unique
                = List.length
                    (firstSeen (List.map toString (presentValues rows h)))
                /\ (unique <= List.length rows)%nat)
        end)
  /\ (forall h,
        rows <> [] -> In h headers -> presentValues rows h = [] ->
        In (ColumnLine (CategoricalCol h 0 ""))
          (computeDatasetSummary rows headers)).
Proof.
  assert (Hname : forall h, digestName (columnDigestOf rows h) = h).
  { intro h. pose proof (columnDigestOf_spec rows h) as H.
    destruct (columnDigestOf rows h); cbn [digestName]; apply H. }
  assert (Hfilter : forall (p : columnDigest -> bool) (l : list string),
            List.filter p (List.map (columnDigestOf rows) l)
            = List.map (columnDigestOf rows)
                (List.filter (fun h => p (columnDigestOf rows h)) l)).
  { intros p l. induction l as [|h l IH]; [reflexivity|].
    cbn [List.map List.filter]. destruct (p (columnDigestOf rows h));
      cbn [List.map]; rewrite IH; reflexivity. }
  split; [|split; [|split]].
  - intros [-> | ->]; [reflexivity | destruct rows; reflexivity].
  - intros Hrows Hheaders.
    exists (List.map (columnDigestOf rows)
              (List.filter (fun h => isNumericCol (columnDigestOf rows h)) headers)),
      (List.map (columnDigestOf rows)
         (List.filter (fun h => negb (isNumericCol (columnDigestOf rows h)))
            headers)).
    split.
    { unfold computeDatasetSummary.
      destruct rows as [|r rows]; [contradiction|].
      destruct headers as [|h0 headers]; [contradiction|].
      rewrite !Hfilter. reflexivity. }
    split; [reflexivity|]. split; [reflexivity|].
    split.
    { apply Forall_forall. intros d Hd. apply in_map_iff in Hd.
      destruct Hd as [h [<- Hh]]. apply filter_In in Hh. apply Hh. }
    split.
    { apply Forall_forall. intros d Hd. apply in_map_iff in Hd.
      destruct Hd as [h [<- Hh]]. apply filter_In in Hh.
      destruct Hh as [_ Hh]. apply negb_true_iff in Hh. exact Hh. }
    rewrite <- List.map_app, map_map.
    rewrite (map_ext _ (fun h => h) Hname), map_id.
    apply (filter_split_perm (fun h => isNumericCol (columnDigestOf rows h))).
  - intros h _.
    pose proof (columnDigestOf_spec rows h) as H.
    destruct (columnDigestOf rows h);
      [destruct H as [-> [Hc [Hb [_ [-> [-> [Hl Hx]]]]]]]
      |destruct H as [-> [Hu Hl]]].
    + repeat split; try assumption; try lia; apply Hx; assumption.
    + split; [reflexivity|]. intros _. split; assumption.
  - intros h Hrows Hin Hvals. unfold computeDatasetSummary.
    destruct rows as [|r rows]; [contradiction|].
    destruct headers as [|h0 headers]; [destruct Hin|].
    assert (Hd : columnDigestOf (r :: rows) h = CategoricalCol h 0 "").
    { unfold columnDigestOf. rewrite Hvals. reflexivity. }
    right. apply in_or_app. right.
    apply in_summarySection.
    apply filter_In. split; [|reflexivity].
    rewrite <- Hd. apply in_map. exact Hin.
Qed.

Lemma computeDatasetSummary_digests_witness :
  computeDatasetSummary
    [[("views", VStr "5"); ("lang", VStr "en")];
     [("views", VStr "7"); ("lang", VStr "")]]
    ["lang"; "views"; "missing"]
  = [TitleLine 2 3;
     NumericHeading;
     ColumnLine (NumericCol "views" 2 (Num.ofZ 6) (Num.ofZ 5) (Num.ofZ 7));
     CategoricalHeading;
     ColumnLine (CategoricalCol "lang" 1 "en (1)");
     ColumnLine (CategoricalCol "missing" 0 "")]
  /\ In (ColumnLine (CategoricalCol "missing" 0 ""))
       (computeDatasetSummary
          [[("views", VStr "5"); ("lang", VStr "en")];
           [("views", VStr "7"); ("lang", VStr "")]]
          ["lang"; "views"; "missing"]).
Proof.
  split; [vm_compute; reflexivity|].
  destruct (computeDatasetSummary_digests
              [[("views", VStr "5"); ("lang", VStr "en")];
               [("views", VStr "7"); ("lang", VStr "")]]
              ["lang"; "views"; "missing"]) as [_ [_ [_ Hc]]].
  apply Hc; [discriminate | right; right; left; reflexivity | reflexivity].
Defined.

(** *** Rows as the session holds them *)

Lemma fillRow_distinct (headers vals : list string) (obj : object) :
  distinctKeys obj -> distinctKeys (fillRow headers vals obj).
Proof.
  revert vals obj. induction headers as [|h hs IH]; intros vals obj Hd.
  - exact Hd.
  - cbn [fillRow]. apply IH. apply set_distinct. exact Hd.
Qed.

Lemma parseCsvToRows_rows (text : string) :
  snd (parseCsvToRows text)
  = List.map (fun line => fillRow (fst (parseCsvToRows text)) (parseLine line) [])
      (tl (nonBlankLines text))
  /\ List.length (snd (parseCsvToRows text))
     = (List.length (nonBlankLines text) - 1)%nat.
Proof.
  unfold parseCsvToRows. fold (nonBlankLines text).
  destruct (nonBlankLines text) as [|a [|b l]]; cbn [fst snd tl List.length];
    try (split; reflexivity).
  split; [reflexivity|]. cbn [List.map List.length]. rewrite length_map. lia.
Qed.

Lemma parseCsvToRows_defined (text : string) (row : object) (h : string) :
  In row (snd (parseCsvToRows text)) ->
  In h (fst (parseCsvToRows text)) ->
  exists s, get row h = VStr s.
Proof.
  intros Hrow Hh. destruct (parseCsvToRows_rows text) as [Hrows _].
  rewrite Hrows in Hrow. apply in_map_iff in Hrow.
  destruct Hrow as [line [<- _]].
  destruct (last_occurrence _ _ Hh) as [i [Hi Hlast]].
  eexists. exact (fillRow_get_last _ _ _ i h Hi Hlast).
Qed.

Lemma parseCsvToRows_distinct (text : string) :
  Forall distinctKeys (snd (parseCsvToRows text)).
Proof.
  destruct (parseCsvToRows_rows text) as [-> _].
  apply Forall_forall. intros row Hrow. apply in_map_iff in Hrow.
  destruct Hrow as [line [<- _]]. apply fillRow_distinct. constructor.
Qed.

Lemma enrichRow_defined (f v : string) (r : object) (h : string) :
  distinctKeys r ->
  get r h <> VUndefined \/ h = "engagement" ->
  get (enrichRow f v r) h <> VUndefined.
Proof.
  intros Hd H. destruct (String.eqb h "engagement") eqn:E.
  - apply String.eqb_eq in E. subst h. rewrite engagementOf_enrichRow.
    unfold engagementOf.
    destruct (negb _ && negb _ && ltb zero _)%bool; discriminate.
  - apply String.eqb_neq in E. destruct H as [H|H]; [|contradiction].
    unfold enrichRow. rewrite get_set_other by exact E.
    unfold get in *. rewrite (getOwn_spread _ _ Hd). exact H.
Qed.

(** *** The slim CSV of an enriched dataset *)

Lemma buildSlimCsv_not_empty (rows : list object) (headers : list string) :
  rows <> [] -> slimHeadersOf headers <> [] -> buildSlimCsv rows headers <> "".
Proof.
  intros Hrows Hslim. unfold buildSlimCsv.
  destruct rows as [|r rows]; [contradiction|].
  destruct headers as [|h headers]; [contradiction|].
  destruct (slimHeadersOf (h :: headers)) as [|s ss]; [contradiction|].
  cbn [List.map].
  change (join (String newline "") (?a :: ?b :: ?l))
    with (a ++ String newline "" ++ join (String newline "") (b :: l))%string.
  apply append_not_empty.
Qed.

(** X22. When the enrichment adds its column, [engagement] is the last
    of the slim headers of the enriched dataset, after the slim headers of
    the original one, and the slim CSV of the enriched dataset is not
    empty. *)
Theorem enriched_slim_csv (rows : list object) (headers : list string)
  (f v : string) :
  rows <> [] ->
  favColOf headers = Some f ->
  viewColOf headers = Some v ->
  ~ In "engagement" headers ->
  let enriched := enrichWithEngagement rows headers in
  slimHeadersOf (snd enriched) = slimHeadersOf headers ++ ["engagement"]
  /\ buildSlimCsv (fst enriched) (snd enriched) <> "".
Proof.
  intros Hrows Hf Hv Hno enriched. subst enriched.
  rewrite (enrich_applies rows headers f v Hrows Hf Hv Hno). cbn [fst snd].
  assert (Hslim : slimHeadersOf (headers ++ ["engagement"])
                  = slimHeadersOf headers ++ ["engagement"]).
  { unfold slimHeadersOf. rewrite filter_app. reflexivity. }
  split; [exact Hslim|].
  apply buildSlimCsv_not_empty.
  - destruct rows; [contradiction | discriminate].
  - rewrite Hslim. destruct (slimHeadersOf headers); discriminate.
Qed.

Lemma enriched_slim_csv_witness :
  buildSlimCsv
    (fst (enrichWithEngagement
            [[("Favorite Count", VStr "5"); ("View Count", VStr "100")]]
            ["Favorite Count"; "View Count"]))
    (snd (enrichWithEngagement
            [[("Favorite Count", VStr "5"); ("View Count", VStr "100")]]
            ["Favorite Count"; "View Count"]))
  <> "".
Proof.
  apply (enriched_slim_csv
           [[("Favorite Count", VStr "5"); ("View Count", VStr "100")]]
           ["Favorite Count"; "View Count"] "Favorite Count" "View Count").
  - discriminate.
  - vm_compute. reflexivity.
  - vm_compute. reflexivity.
  - cbn. intros [H|[H|[]]]; discriminate H.
Defined.

(** *** The size of the table of [get_value_counts] *)

Lemma count_occ_length (l : list string) (k : string) :
  (count_occ string_dec l k <= List.length l)%nat.
Proof.
  induction l as [|x l IH]; [cbn; lia|].
  cbn [count_occ List.length]. destruct (string_dec x k); lia.
Qed.

Lemma In_firstn {A} (n : nat) (l : list A) (x : A) :
  In x (firstn n l) -> In x l.
Proof.
  revert n. induction l as [|y l IH]; intros n H; [destruct n; exact H|].
  destruct n as [|n]; [destruct H|].
  cbn [firstn] in H. destruct H as [H|H]; [left; exact H | right; exact (IH n H)].
Qed.

Lemma length_countedCells (rows : list object) (col : value) :
  (List.length (countedCells rows col) <= List.length rows)%nat.
Proof.
  unfold countedCells. etransitivity; [apply filter_length_le|].
  rewrite length_map. lia.
Qed.

(** X23. For a column and counted cells that are not names of members
    of [Object.prototype], the table of [get_value_counts] reports the
    number of rows; it has at most as many entries as there are distinct
    counted values, and exactly the lesser of ten and that number when
    [top_n] is not given; every count in it is at least one and at most
    the number of rows. *)
Theorem get_value_counts_size (args : object) (rows : list object) (col : value) :
  resolveCol rows (get args "column") = Return col ->
  inherited (toString col) = false ->
  Forall (fun v => inherited (toString v) = false) (countedCells rows col) ->
  exists counts,
    get_value_counts args rows
    = Return (ValueCounts col (List.length rows) counts)
    /\ (List.length counts
        <= List.length (firstSeen (List.map toString (countedCells rows col))))%nat
    /\ (get args "top_n" = VUndefined ->
        List.length counts
        = Nat.min 10
            (List.length (firstSeen (List.map toString (countedCells rows col)))))
    /\ (forall k n, In (k, n) counts -> (0 < n <= List.length rows)%nat).
Proof.
  intros Hcol _ _.
  eexists. split; [exact (get_value_counts_result args rows col Hcol)|].
  assert (Hlen : List.length (ranked (valueCounts rows col))
                 = List.length (firstSeen (List.map toString (countedCells rows col)))).
  { rewrite (Permutation_length (ranked_perm _)).
    rewrite (Permutation_length (entries_perm _)), valueCounts_spec.
    rewrite <- length_keys. exact (proj1 (summaryCounts_unique _)). }
  unfold sliceTo. split; [|split].
  - rewrite length_firstn, Hlen. lia.
  - intro Hn. rewrite Hn.
    change (toNumber (orValue VUndefined (VNum (Num.ofZ 10)))) with (Num.ofZ 10).
    rewrite sliceEnd_ten, length_firstn, Hlen. lia.
  - intros k n Hin. apply In_firstn in Hin.
    apply (Permutation_in _ (ranked_perm _)) in Hin.
    apply (Permutation_in _ (entries_perm _)) in Hin.
    rewrite valueCounts_spec in Hin.
    apply (getOwn_In _ k n (summaryCounts_distinct _)) in Hin.
    rewrite summaryCounts_count in Hin.
    pose proof (count_occ_length (List.map toString (countedCells rows col)) k) as Hc.
    rewrite length_map in Hc. pose proof (length_countedCells rows col).
    destruct (count_occ string_dec _ k) as [|c]; [discriminate Hin|].
    injection Hin as <-. lia.
Qed.

Lemma get_value_counts_size_witness :
  inherited "lang" = false
  /\ exists counts,
       get_value_counts [("column", VStr "lang")]
         [[("lang", VStr "en")]; [("lang", VStr "")]; [("lang", VStr "en")]]
       = Return (ValueCounts (VStr "lang") 3 counts)
       /\ (List.length counts <= 1)%nat.
Proof.
  split; [reflexivity|].
  destruct (get_value_counts_size [("column", VStr "lang")]
              [[("lang", VStr "en")]; [("lang", VStr "")]; [("lang", VStr "en")]]
              (VStr "lang") eq_refl eq_refl ltac:(repeat constructor))
    as [counts [H [Hl _]]].
  exists counts. split; [exact H | exact Hl].
Defined.

(** *** The normal form of a column name *)

Lemma lowerChar_idempotent (c : ascii) : lowerChar (lowerChar c) = lowerChar c.
Proof. destruct c as [[] [] [] [] [] [] [] []]; vm_compute; reflexivity. Qed.

Lemma isSeparator_lowerChar (c : ascii) :
  isSeparator (lowerChar c) = isSeparator c.
Proof. destruct c as [[] [] [] [] [] [] [] []]; vm_compute; reflexivity. Qed.

Lemma toLowerCase_idempotent (s : string) :
  toLowerCase (toLowerCase s) = toLowerCase s.
Proof.
  unfold toLowerCase. rewrite chars_ofChars, map_map. f_equal.
  apply map_ext. exact lowerChar_idempotent.
Qed.

Lemma chars_norm (s : string) :
  chars (norm s) = withoutSeparators (chars (toLowerCase s)).
Proof.
  unfold norm, removeAll, separators, withoutSeparators.
  rewrite chars_ofChars.
  rewrite removeAllFrom_class by constructor. reflexivity.
Qed.

Lemma string_of_chars (a b : string) : chars a = chars b -> a = b.
Proof.
  intro H. rewrite <- (ofChars_chars a), <- (ofChars_chars b), H. reflexivity.
Qed.

Lemma withoutSeparators_lower (l : list ascii) :
  List.map lowerChar (withoutSeparators (List.map lowerChar l))
  = withoutSeparators (List.map lowerChar l).
Proof.
  unfold withoutSeparators.
  induction l as [|c l IH]; [reflexivity|].
  cbn [List.map List.filter].
  destruct (isSeparator (lowerChar c)); cbn [negb List.map]; [exact IH|].
  rewrite lowerChar_idempotent, IH. reflexivity.
Qed.

Lemma withoutSeparators_idempotent (l : list ascii) :
  withoutSeparators (withoutSeparators l) = withoutSeparators l.
Proof.
  unfold withoutSeparators.
  induction l as [|c l IH]; [reflexivity|].
  cbn [List.filter].
  destruct (isSeparator c) eqn:E; cbn [negb List.filter]; [exact IH|].
  rewrite E, IH. reflexivity.
Qed.

(** X24. The normal form of a name is its lower-cased text without the
    white space, the underscores and the hyphens: it holds none of them.
    The normal form of a lower-cased name, and the one of a normal form,
    is the normal form of the name; and a separator in front of a name
    does not change its normal form. *)
Theorem norm_spec (s : string) :
  chars (norm s) = withoutSeparators (chars (toLowerCase s))
  /\ Forall (fun c => isSeparator c = false) (chars (norm s))
  /\ norm (toLowerCase s) = norm s
  /\ norm (norm s) = norm s
  /\ (forall c, isSeparator c = true -> norm (String c s) = norm s).
Proof.
  split; [apply chars_norm|]. split; [|split; [|split]].
  - rewrite chars_norm. unfold withoutSeparators. apply Forall_forall.
    intros c Hc. apply filter_In in Hc. destruct Hc as [_ Hc].
    apply negb_true_iff in Hc. exact Hc.
  - apply string_of_chars. rewrite !chars_norm, toLowerCase_idempotent.
    reflexivity.
  - apply string_of_chars. rewrite (chars_norm (norm s)).
    unfold toLowerCase at 1. rewrite chars_ofChars, chars_norm.
    unfold toLowerCase. rewrite chars_ofChars.
    rewrite withoutSeparators_lower. apply withoutSeparators_idempotent.
  - intros c Hc. apply string_of_chars. rewrite !chars_norm.
    unfold toLowerCase. rewrite !chars_ofChars.
    change (chars (String c s)) with (c :: chars s).
    unfold withoutSeparators. cbn [List.map List.filter].
    rewrite isSeparator_lowerChar, Hc. reflexivity.
Qed.

Lemma norm_spec_witness :
  isSeparator " "%char = true
  /\ norm " Favorite_Count" = norm "favorite count".
Proof.
  split; [reflexivity|].
  destruct (norm_spec "Favorite_Count") as [_ [_ [_ [_ Hsep]]]].
  change " Favorite_Count" with (String " "%char "Favorite_Count").
  rewrite (Hsep " "%char eq_refl). vm_compute. reflexivity.
Defined.

(** *** White space around the cells *)

Lemma dropSpaces_head (l : list ascii) (c : ascii) (l' : list ascii) :
  dropSpaces l = c :: l' -> isSpace c = false.
Proof.
  induction l as [|x l IH]; cbn [dropSpaces]; [discriminate|].
  destruct (isSpace x) eqn:E; [exact IH|].
  intro H. injection H as <- _. exact E.
Qed.

Lemma dropSpaces_suffix (l : list ascii) : exists pre, l = pre ++ dropSpaces l.
Proof.
  induction l as [|x l [pre IH]]; [exists []; reflexivity|].
  cbn [dropSpaces]. destruct (isSpace x).
  - exists (x :: pre). cbn [app]. f_equal. exact IH.
  - exists []. reflexivity.
Qed.

Lemma trim_trimmed (s : string) : trimmed (trim s).
Proof.
  unfold trimmed, trim, trimChars. rewrite chars_ofChars.
  set (m := dropSpaces (chars s)). split; intros c l H.
  - destruct (dropSpaces_suffix (rev m)) as [pre Hpre].
    apply (f_equal (@rev ascii)) in H. rewrite rev_involutive in H.
    rewrite H in Hpre. apply (f_equal (@rev ascii)) in Hpre.
    rewrite rev_involutive, rev_app_distr, rev_involutive in Hpre.
    cbn [app] in Hpre. exact (dropSpaces_head _ _ _ Hpre).
  - apply (f_equal (@rev ascii)) in H.
    rewrite rev_involutive, rev_app_distr in H. cbn [rev app] in H.
    exact (dropSpaces_head _ _ _ H).
Qed.

Lemma parseLineLoop_trimmed (line current : list ascii) (inQuotes : bool) :
  Forall trimmed (parseLineLoop line current inQuotes).
Proof.
  revert current inQuotes.
  induction line as [|ch line IH]; intros current inQuotes; cbn [parseLineLoop].
  - constructor; [apply trim_trimmed | constructor].
  - destruct (Ascii.eqb ch dquote); [apply IH|].
    destruct (Ascii.eqb ch comma && negb inQuotes)%bool; [|apply IH].
    constructor; [apply trim_trimmed | apply IH].
Qed.

Lemma trimmed_empty : trimmed "".
Proof.
  split; intros c l H; [discriminate H|].
  destruct l; discriminate H.
Qed.

Lemma fillRow_trimmed (line : string) (headers vals : list string) (obj : object) :
  (forall v, In v vals -> In v (parseLine line)) ->
  Forall (fun kv => exists s, snd kv = VStr s /\ trimmed s) obj ->
  Forall (fun kv => exists s, snd kv = VStr s /\ trimmed s)
    (fillRow headers vals obj).
Proof.
  revert vals obj. induction headers as [|h headers IH]; intros vals obj Hvals Hobj;
    cbn [fillRow]; [exact Hobj|].
  apply IH.
  - intros v Hv. apply Hvals. destruct vals; [destruct Hv | right; exact Hv].
  - apply (set_values (fun v => exists s, v = VStr s /\ trimmed s));
      [exact Hobj|].
    eexists. split; [reflexivity|].
    destruct vals as [|v vals].
    + rewrite stripQuotes_unquoted by (intros []). exact trimmed_empty.
    + assert (Hv : In v (parseLine line)) by (apply Hvals; left; reflexivity).
      rewrite (stripQuotes_unquoted v (parseLine_unquoted_fields line v Hv)).
      pose proof (parseLineLoop_trimmed (chars line) [] false) as HT.
      rewrite Forall_forall in HT. exact (HT v Hv).
Qed.

(** X25. No header and no cell of a parsed CSV text starts or ends with
    white space: the fields of a line are trimmed, and so is every header
    and every value of every row, the values being strings. *)
Theorem parseCsvToRows_trimmed (text : string) :
  (forall line, Forall trimmed (parseLine line))
  /\ Forall trimmed (fst (parseCsvToRows text))
  /\ (forall row k v,
        In row (snd (parseCsvToRows text)) -> In (k, v) row ->
        exists s, v = VStr s /\ trimmed s).
Proof.
  split; [intro line; apply parseLineLoop_trimmed|].
  unfold parseCsvToRows.
  destruct (List.filter _ (split newline text)) as [|first [|second others]];
    cbn [fst snd]; try (split; [constructor | intros row k v []]).
  split.
  - rewrite map_stripQuotes_parseLine. apply parseLineLoop_trimmed.
  - intros row k v Hrow Hkv. apply in_map_iff in Hrow.
    destruct Hrow as [line [<- _]].
    pose proof (fillRow_trimmed line (List.map stripQuotes (parseLine first))
                  (parseLine line) [] (fun v H => H) (Forall_nil _)) as HF.
    rewrite Forall_forall in HF. exact (HF (k, v) Hkv).
Qed.

(** *** The median *)

Lemma nth_nth_error {A} (l : list A) (i : nat) (d : A) :
  (i < List.length l)%nat ->
  exists x, nth_error l i = Some x /\ nth i l d = x.
Proof.
  revert i. induction l as [|a l IH]; intros i Hi; [cbn in Hi; lia|].
  destruct i as [|i]; [exists a; split; reflexivity|].
  cbn [nth nth_error]. apply IH. cbn in Hi. lia.
Qed.

(** The order that a comparator leaves between neighbours: never the one
    that it alone rejects. *)
Lemma insertSorted_HdRel {A} (gt : A -> A -> bool) (x y : A) (l : list A) :
  gt x y = true ->
  HdRel (fun a b => gt a b = true -> gt b a = true) y l ->
  HdRel (fun a b => gt a b = true -> gt b a = true) y (insertSorted gt x l).
Proof.
  intros Hxy Hl. destruct l as [|z l]; cbn [insertSorted].
  - constructor. intros _. exact Hxy.
  - destruct (gt x z).
    + constructor. inversion Hl; assumption.
    + constructor. intros _. exact Hxy.
Qed.

Lemma insertSorted_Sorted {A} (gt : A -> A -> bool) (x : A) (l : list A) :
  Sorted (fun a b => gt a b = true -> gt b a = true) l ->
  Sorted (fun a b => gt a b = true -> gt b a = true) (insertSorted gt x l).
Proof.
  induction 1 as [|y l Hl IH Hy]; cbn [insertSorted].
  - constructor; constructor.
  - destruct (gt x y) eqn:E.
    + constructor; [exact IH|]. apply insertSorted_HdRel; assumption.
    + constructor; [constructor; assumption|].
      constructor. intro H. rewrite E in H. discriminate H.
Qed.

Lemma sortBy_Sorted {A} (gt : A -> A -> bool) (l : list A) :
  Sorted (fun a b => gt a b = true -> gt b a = true) (sortBy gt l).
Proof.
  induction l as [|x l IH]; [constructor|].
  cbn [sortBy fold_right]. apply insertSorted_Sorted, IH.
Qed.

(** X26. The median of the statistics is read from a sorted copy of the
    values, a permutation of them, and never from outside of it: for an
    odd number of values it is the value at the middle position, for an
    even number the half of the sum of the two values at the middle
    positions; the statistics hold it rounded to four decimal places. No
    two neighbours of the sorted copy are in an order that the comparator
    rejects without rejecting the opposite one as well. *)
Theorem statisticsOf_median (vals : list number) (H : vals <> []) :
  let sorted := sortBy numberGt vals in
  let len := List.length vals in
  Permutation sorted vals
  /\ Sorted (fun a b => numberGt a b = true -> numberGt b a = true) sorted
  /\ st_median (statisticsOf vals) = fmt (median sorted)
  /\ (Nat.odd len = true ->
      exists x, nth_error sorted (len / 2) = Some x /\ median sorted = x)
  /\ (Nat.even len = true ->
      exists x y,
        nth_error sorted (len / 2 - 1) = Some x
        /\ nth_error sorted (len / 2) = Some y
        /\ median sorted = div (add x y) (ofZ 2)).
Proof.
  intros sorted len.
  assert (HP : Permutation sorted vals) by apply sortBy_perm.
  assert (HL : List.length sorted = len) by (apply Permutation_length, HP).
  assert (Hpos : (0 < len)%nat).
  { unfold len. destruct vals; [contradiction | cbn; lia]. }
  split; [exact HP|]. split; [apply sortBy_Sorted|]. split; [reflexivity|].
  unfold median. rewrite HL.
  assert (Hhalf : (len / 2 < len)%nat) by (apply Nat.div_lt; lia).
  split.
  - intro Hodd.
    assert (E : Nat.eqb (len mod 2) 0 = false).
    { apply Nat.eqb_neq. rewrite <- Nat.negb_even in Hodd.
      apply negb_true_iff in Hodd. intro Hm.
      apply Nat.Div0.mod_divides in Hm. destruct Hm as [c Hc].
      rewrite Hc, Nat.even_mul in Hodd. discriminate Hodd. }
    rewrite E. apply nth_nth_error. rewrite HL. exact Hhalf.
  - intro Heven.
    assert (E : Nat.eqb (len mod 2) 0 = true).
    { apply Nat.eqb_eq. apply Nat.even_spec in Heven. destruct Heven as [c ->].
      rewrite Nat.mul_comm. apply Nat.Div0.mod_mul. }
    rewrite E.
    destruct (nth_nth_error sorted (len / 2 - 1) NaN) as [x [Hx Ex]]; [lia|].
    destruct (nth_nth_error sorted (len / 2) NaN) as [y [Hy Ey]]; [lia|].
    exists x, y. rewrite Ex, Ey. repeat split; assumption.
Qed.

Lemma statisticsOf_median_witness :
  [ofZ 3; ofZ 1; ofZ 2] <> []
  /\ st_median (statisticsOf [ofZ 3; ofZ 1; ofZ 2])
     = fmt (median (sortBy numberGt [ofZ 3; ofZ 1; ofZ 2])).
Proof.
  split; [discriminate|].
  exact (proj1 (proj2 (proj2 (statisticsOf_median [ofZ 3; ofZ 1; ofZ 2]
                                ltac:(discriminate))))).
Defined.

End CsvTools.

Import CsvTools.

(** ** [src/components/Chat.js]: the routing intent of [handleSend], the
    attached files *)

Module Chat.
Local Open Scope list_scope.

Definition spaces : regex := RPlus (RSet isSpace).
Definition anything : regex := RStar RAny.
Definition words (l : list string) : regex := RAlts (List.map RLit l).

(** [PYTHON_ONLY_KEYWORDS] *)
Definition PYTHON_ONLY_KEYWORDS : regex :=
  RSeqs [RWordB;
         RAlts [RLit "regression"; RLit "scatter"; RLit "histogram";
                RLit "seaborn"; RLit "matplotlib"; RLit "numpy";
                RSeqs [RLit "time"; ROpt RAny; RLit "series"];
                RLit "heatmap";
                RSeqs [RLit "box"; ROpt RAny; RLit "plot"];
                RLit "violin"; RLit "distribut";
                RSeqs [RLit "linear"; ROpt RAny; RLit "model"];
                RLit "logistic"; RLit "forecast";
                RSeqs [RLit "trend"; ROpt RAny; RLit "line"]];
         RWordB].

(** The pattern of [wantImageGen]. *)
Definition reWantImageGen : regex :=
  RAlts [
    RSeqs [RWordB;
           words ["generate"; "create"; "draw"; "make"; "style"; "chic"; "stylish"];
           anything;
           words ["image"; "pic"; "photo"; "picture"]];
    RSeqs [RLit "image"; spaces; RLit "generat"];
    RSeqs [RLit "put"; spaces; words ["me"; "this"; "him"; "her"]; spaces; RLit "in"];
    RSeqs [words ["transform"; "style"; "make"]; spaces;
           words ["this"; "me"; "it"; "him"; "her"]];
    RSeqs [RLit "get"; spaces; anything; spaces; RLit "image"];
    RSeqs [words ["try"; "do"]; spaces; RLit "it"; spaces; RLit "again"];
    RSeqs [words ["that"; "the"]; spaces; anything; spaces; RLit "image"];
    RSeqs [RLit "try"; spaces; RLit "again"];
    RSeqs [RLit "let"; ROpt (RChar "'"); RLit "s"; spaces; RLit "try"]].

(** The pattern of [mentionsImage]. *)
Definition reMentionsImage : regex :=
  RSeqs [RWordB;
         words ["image"; "photo"; "picture"; "generate"; "transform"; "style";
                "chic"; "stylish"];
         RWordB].

(** The pattern of [wantPlot]. *)
Definition reWantPlot : regex :=
  RAlts [
    RSeqs [RWordB; RLit "plot"; spaces; anything; spaces; words ["vs"; "over"];
           spaces; RLit "time"];
    RSeqs [RLit "plot"; spaces; words ["views"; "likes"; "metric"; "engagement"]];
    RSeqs [RLit "plot"; spaces; anything; spaces; RLit "over"; spaces; RLit "time"];
    RSeqs [RLit "channel"; spaces; RLit "video"; ROpt (RChar "s"); spaces;
           anything; spaces; RLit "plot"]].

(** The pattern of [lastWasImageError]. *)
Definition reImageError : regex :=
  words ["image"; "generateImage"; "NameError"; "glitch";
         "image generation tool"; "conjure"; "spell"].

(** The pattern of [isRetryShort]. *)
Definition reRetry : regex :=
  RSeqs [RWordB;
         RAlts [RLit "try"; RLit "yes"; RLit "retry"; RLit "ok"; RLit "sure";
                RLit "again"; RLit "please"; RLit "do it";
                RSeqs [RLit "let"; ROpt (RChar "'"); RLit "s"]];
         RWordB].

(** The action verbs of [forceToolsForImage]. *)
Definition reActionVerb : regex :=
  RSeqs [RWordB;
         words ["get"; "make"; "create"; "generate"; "draw"; "try"; "do"; "conjure"];
         RWordB].

(** A part of a structured message. *)
Record part : Type := Part { p_type : string; p_text : string }.

(** A message of the transcript; a missing [content] is the empty string. *)
Record message : Type := Message {
  role : string;
  content : string;
  parts : list part
}.

Definition messageText (m : message) : string :=
  match parts m with
  | [] => content m
  | ps =>
      join (String newline "")
        (List.map p_text (List.filter (fun p => String.eqb (p_type p) "text") ps))
  end.

(** [[...messages].reverse().find((m) => m?.role === 'model')] and the
    text read from it. *)
Definition lastModelText (messages : list message) : string :=
  match List.find (fun m => String.eqb (role m) "model") (rev messages) with
  | Some m => if String.eqb (content m) "" then messageText m else content m
  | None => ""
  end.

(** The decision of the routing block. *)
Record routing : Type := Routing {
  wantPythonOnly : bool;
  wantCode : bool;
  needsBase64 : bool;
  forceToolsForImage : bool;
  useTools : bool;
  useCodeExecution : bool
}.

(** *** The attached files *)

(** [new TextEncoder().encode(str)]: the UTF-8 bytes of the code units of
    [str], which are below 256. *)
Definition utf8 (str : string) : list N :=
  flat_map
    (fun c =>
       let n := code c in
       if N.ltb n 128 then [n] else [192 + n / 64; 128 + n mod 64]%N)
    (chars str).

Definition base64Alphabet : list ascii :=
  chars "ABCDEFGHIJKLMNOPQRSTUVWXYZabcdefghijklmnopqrstuvwxyz0123456789+/".

Definition base64Char (n : N) : ascii := nth (N.to_nat n) base64Alphabet "="%char.

(** [btoa] on the string whose code units are the bytes [l]. *)
Fixpoint btoa (l : list N) : list ascii :=
  match l with
  | a :: b :: c :: l' =>
      base64Char (a / 4)
      :: base64Char (a mod 4 * 16 + b / 16)
      :: base64Char (b mod 16 * 4 + c / 64)
      :: base64Char (c mod 64)
      :: btoa l'
  | [a; b] =>
      [base64Char (a / 4); base64Char (a mod 4 * 16 + b / 16);
       base64Char (b mod 16 * 4); "="%char]
  | [a] => [base64Char (a / 4); base64Char (a mod 4 * 16); "="%char; "="%char]
  | [] => []
  end%N.

Definition toBase64 (str : string) : string := ofChars (btoa (utf8 str)).

(** What [parseCSV] returns of an attached CSV file. *)
Record csvFile : Type := CsvFile {
  csv_headers : list string;
  csv_rowCount : nat;
  csv_preview : string;
  csv_base64 : string;
  csv_truncated : bool
}.

Definition parseCSV (text : string) : option csvFile :=
  let lines :=
    List.filter (fun l => negb (String.eqb (trim l) "")) (split newline text) in
  match lines with
  | [] => None
  | first :: _ =>
      let headers :=
        List.map (fun h => stripQuotes (trim h)) (split comma first) in
      let rowCount := (List.length lines - 1)%nat in
      let preview := join (String newline "") (firstn 6 lines) in
      let truncated := Z.ltb 500000 (Z.of_nat (String.length text)) in
      let raw := if truncated then prefix (Z.to_nat 500000) text else text in
      Some (CsvFile headers rowCount preview (toBase64 raw) truncated)
  end.

(** The parsed JSON that [loadJsonAsRows] receives, as far as it reads
    it: an array of objects, an object with its [videos] and [items]
    properties, or any other value. *)
Inductive jsonData : Type :=
| JsonArray (elements : list object)
| JsonObject (videos items : maybeArray object)
| JsonOther.

(** The [videos] of [loadJsonAsRows]. *)
Definition videosOf (data : jsonData) : list object :=
  match data with
  | JsonArray elements => elements
  | JsonObject (IsArray videos) _ => videos
  | JsonObject NotArray (IsArray items) => items
  | _ => []
  end.

Definition loadJsonAsRows (data : jsonData) : option (list string * list object) :=
  let videos := videosOf data in
  match videos with
  | [] => None
  | first :: _ => Some (keys first, List.map spread videos)
  end.

(** What the handlers of a dropped or selected CSV file store in the
    session: the attachment, the headers and the rows after enrichment,
    the summary and the slim CSV. *)
Record csvSession : Type := CsvSession {
  cs_context : csvFile;
  cs_headers : list string;
  cs_rows : list object;
  cs_summary : list summaryLine;
  cs_slimCsv : string
}.

Definition loadCsvFile (text : string) : option csvSession :=
  match parseCSV text with
  | None => None
  | Some parsed =>
      let raw := parseCsvToRows text in
      let '(rows, headers) := enrichWithEngagement (snd raw) (fst raw) in
      Some (CsvSession parsed headers rows
              (computeDatasetSummary rows headers)
              (buildSlimCsv rows headers))
  end.

Section Routing.

(** [CODE_KEYWORDS.test], a pattern imported from [services/gemini]. *)
Variable CODE_KEYWORDS_test : string -> bool.

(** The state read by the block: the trimmed input, the rows of the
    session ([null] or an array), the attached CSV ([null] or a record),
    the attached images and the transcript. *)
Variables (Rows Csv Img : Type).

Definition routingIntent (text : string) (sessionCsvRows : option Rows)
  (csvContext : option Csv) (images : list Img) (messages : list message)
  : routing :=
  let isSome {A} (x : option A) := match x with Some _ => true | None => false end in
  let wantPythonOnly := test true PYTHON_ONLY_KEYWORDS text in
  let wantCode := (CODE_KEYWORDS_test text && negb (isSome sessionCsvRows))%bool in
  let capturedCsv := isSome csvContext in
  let needsBase64 := (capturedCsv && wantPythonOnly)%bool in
  let wantImageGen := test true reWantImageGen text in
  let mentionsImage := test true reMentionsImage text in
  let wantPlot := test true reWantPlot text in
  let hasData := isSome sessionCsvRows in
  let hasImages := Nat.ltb 0 (List.length images) in
  let lastWasImageError := test true reImageError (lastModelText messages) in
  let isRetryShort :=
    (Nat.ltb (String.length text) 80 && test true reRetry text)%bool in
  let retryImageContext := (isRetryShort && lastWasImageError)%bool in
  let forceToolsForImage :=
    (wantImageGen || hasImages || retryImageContext
     || (mentionsImage && test true reActionVerb text))%bool in
  let useTools :=
    (forceToolsForImage
     || ((negb wantPythonOnly && (negb wantCode || mentionsImage || wantPlot)
          && (negb capturedCsv || wantImageGen || hasImages))
         && (hasData || wantPlot)))%bool in
  let useCodeExecution :=
    (negb forceToolsForImage
     && (wantPythonOnly
         || (wantCode && isSome sessionCsvRows && negb mentionsImage
             && negb wantPlot)))%bool in
  Routing wantPythonOnly wantCode needsBase64 forceToolsForImage useTools
    useCodeExecution.

(** C2. For every utterance, dataset state, attachment state and
    transcript, the decision pair is mutually exclusive ([useTools] and
    [useCodeExecution] are never both true), and whenever the forced-image
    condition holds, [useTools] is true and [useCodeExecution] is false. *)
Theorem routing_mutually_exclusive :
  forall (text : string) (sessionCsvRows : option Rows)
    (csvContext : option Csv) (images : list Img) (messages : list message),
    let r := routingIntent text sessionCsvRows csvContext images messages in
    (useTools r && useCodeExecution r)%bool = false
    /\ (forceToolsForImage r = true ->
        useTools r = true /\ useCodeExecution r = false).
Proof.
  intros text sessionCsvRows csvContext images messages r.
  subst r. unfold routingIntent.
  cbn [useTools useCodeExecution forceToolsForImage].
  destruct (test true PYTHON_ONLY_KEYWORDS text),
    (CODE_KEYWORDS_test text),
    (test true reWantImageGen text),
    (test true reMentionsImage text),
    (test true reWantPlot text),
    (test true reActionVerb text),
    (Nat.ltb 0 (List.length images)),
    ((Nat.ltb (String.length text) 80 && test true reRetry text)
     && test true reImageError (lastModelText messages))%bool,
    sessionCsvRows, csvContext;
    cbn; split; try reflexivity; intro H; try discriminate H;
    split; reflexivity.
Qed.

End Routing.

(** The forced-image condition is met by an utterance that asks to restyle
    an attached image, with no dataset. *)
Lemma routing_mutually_exclusive_witness :
  let r := routingIntent (fun _ => false) unit unit unit
             "make this into a renaissance painting" None None [tt] [] in
  forceToolsForImage r = true /\ useTools r = true /\ useCodeExecution r = false.
Proof.
  split; [vm_compute; reflexivity|].
  apply (routing_mutually_exclusive (fun _ => false) unit unit unit
           "make this into a renaissance painting" None None [tt] []).
  vm_compute; reflexivity.
Defined.

(** *** Properties of the routing *)

(** X12. The pattern [CODE_KEYWORDS] has no part in the decision: with
    any two outcomes of its test, the routing block takes the same
    decision. Code execution is chosen exactly when the utterance has a
    Python-only keyword and the tools are not forced for an image; the
    tools are chosen exactly when they are forced, or when there is no
    Python-only keyword, there are rows or a plot is asked for, and no CSV
    file is attached. *)
Theorem routing_ignores_code_keywords :
  forall (test1 test2 : string -> bool) (Rows Csv Img : Type)
    (text : string) (sessionCsvRows : option Rows) (csvContext : option Csv)
    (images : list Img) (messages : list message),
    let r1 := routingIntent test1 Rows Csv Img text sessionCsvRows csvContext
                images messages in
    let r2 := routingIntent test2 Rows Csv Img text sessionCsvRows csvContext
                images messages in
    useTools r1 = useTools r2
    /\ useCodeExecution r1 = useCodeExecution r2
    /\ needsBase64 r1 = needsBase64 r2
    /\ forceToolsForImage r1 = forceToolsForImage r2
    /\ useCodeExecution r1
       = (negb (forceToolsForImage r1) && test true PYTHON_ONLY_KEYWORDS text)%bool
    /\ useTools r1
       = (forceToolsForImage r1
          || (negb (test true PYTHON_ONLY_KEYWORDS text)
              && match csvContext with Some _ => false | None => true end
              && (match sessionCsvRows with Some _ => true | None => false end
                  || test true reWantPlot text)))%bool.
Proof.
  intros test1 test2 Rows Csv Img text sessionCsvRows csvContext images
    messages r1 r2.
  subst r1 r2. unfold routingIntent.
  cbn [useTools useCodeExecution forceToolsForImage needsBase64].
  destruct (test true PYTHON_ONLY_KEYWORDS text),
    (test1 text), (test2 text),
    (test true reWantImageGen text),
    (test true reMentionsImage text),
    (test true reWantPlot text),
    (test true reActionVerb text),
    (Nat.ltb 0 (List.length images)),
    ((Nat.ltb (String.length text) 80 && test true reRetry text)
     && test true reImageError (lastModelText messages))%bool,
    sessionCsvRows, csvContext;
    cbn; repeat split; reflexivity.
Qed.

(** X13. The text read from the transcript for the routing is that of
    the last message of the model: a later message of another role is
    passed over, and a transcript without a message of the model gives the
    empty text. *)
Theorem lastModelText_last (messages : list message) (m : message) :
  (role m = "model" ->
   lastModelText (messages ++ [m])
   = if String.eqb (content m) "" then messageText m else content m)
  /\ (role m <> "model" ->
      lastModelText (messages ++ [m]) = lastModelText messages)
  /\ (Forall (fun m' => role m' <> "model") messages ->
      lastModelText messages = "").
Proof.
  unfold lastModelText. rewrite rev_app_distr. cbn [rev app List.find].
  split; [|split].
  - intros ->. reflexivity.
  - intro H. apply String.eqb_neq in H. rewrite H. reflexivity.
  - intro H. apply Forall_rev in H.
    assert (Hf : List.find (fun m0 => String.eqb (role m0) "model") (rev messages)
                 = None).
    { induction H as [|x l Hx _ IH]; [reflexivity|].
      cbn [List.find]. apply String.eqb_neq in Hx. rewrite Hx. exact IH. }
    rewrite Hf. reflexivity.
Qed.

Lemma lastModelText_last_witness :
  lastModelText
    ([Message "model" "first" []; Message "user" "hi" []]
     ++ [Message "model" "" [Part "text" "a"; Part "image" "x"; Part "text" "b"]])
  = ("a" ++ String newline "b")%string.
Proof.
  destruct (lastModelText_last
              [Message "model" "first" []; Message "user" "hi" []]
              (Message "model" "" [Part "text" "a"; Part "image" "x"; Part "text" "b"]))
    as [H _].
  rewrite (H eq_refl). reflexivity.
Defined.

(** *** Properties of the attached files *)

Lemma base64Char_alphabet (n : N) :
  (n < 64)%N -> In (base64Char n) base64Alphabet.
Proof.
  intro H. unfold base64Char. apply nth_In.
  change (List.length base64Alphabet) with 64%nat. lia.
Qed.

Lemma utf8_bytes (str : string) : Forall (fun n => (n < 256)%N) (utf8 str).
Proof.
  unfold utf8. induction (chars str) as [|c l IH]; [constructor|].
  cbn [flat_map]. apply Forall_app. split; [|exact IH].
  pose proof (N_ascii_bounded c) as Hc. unfold code.
  destruct (N.ltb (N_of_ascii c) 128) eqn:E.
  - constructor; [exact Hc | constructor].
  - constructor; [|constructor; [|constructor]].
    + assert (N_of_ascii c / 64 < 4)%N
        by (apply N.Div0.div_lt_upper_bound; lia).
      lia.
    + assert (N_of_ascii c mod 64 < 64)%N by (apply N.mod_lt; lia).
      lia.
Qed.

Lemma base64_bounds (a b c : N) :
  (a < 256)%N -> (b < 256)%N -> (c < 256)%N ->
  (a / 4 < 64)%N /\ (a mod 4 * 16 + b / 16 < 64)%N
  /\ (b mod 16 * 4 + c / 64 < 64)%N /\ (c mod 64 < 64)%N
  /\ (a mod 4 * 16 < 64)%N /\ (b mod 16 * 4 < 64)%N.
Proof.
  intros Ha Hb Hc.
  assert (a / 4 < 64)%N by (apply N.Div0.div_lt_upper_bound; lia).
  assert (a mod 4 < 4)%N by (apply N.mod_lt; lia).
  assert (b / 16 < 16)%N by (apply N.Div0.div_lt_upper_bound; lia).
  assert (b mod 16 < 16)%N by (apply N.mod_lt; lia).
  assert (c / 64 < 4)%N by (apply N.Div0.div_lt_upper_bound; lia).
  assert (c mod 64 < 64)%N by (apply N.mod_lt; lia).
  repeat split; lia.
Qed.

Ltac base64_chars :=
  repeat (apply Forall_cons;
          [first [left; apply base64Char_alphabet; assumption
                 | right; reflexivity]|]).

Lemma btoa_spec (n : nat) (l : list N) :
  (List.length l <= n)%nat ->
  Forall (fun b => (b < 256)%N) l ->
  Forall (fun c => In c base64Alphabet \/ c = "="%char) (btoa l)
  /\ List.length (btoa l) = (4 * ((List.length l + 2) / 3))%nat.
Proof.
  revert l. induction n as [|n IH]; intros l Hn Hl.
  - destruct l; [|cbn in Hn; lia]. split; [constructor | reflexivity].
  - destruct l as [|a [|b [|c l]]].
    + split; [constructor | reflexivity].
    + inversion Hl as [|? ? Ha _]; subst. split; [|reflexivity].
      destruct (base64_bounds a a a Ha Ha Ha) as [H1 [_ [_ [_ [H5 _]]]]].
      cbn [btoa]. base64_chars. constructor.
    + inversion Hl as [|? ? Ha Hl1]; subst.
      inversion Hl1 as [|? ? Hb _]; subst. split; [|reflexivity].
      destruct (base64_bounds a b b Ha Hb Hb) as [H1 [H2 [_ [_ [_ H6]]]]].
      cbn [btoa]. base64_chars. constructor.
    + inversion Hl as [|? ? Ha Hl1]; subst.
      inversion Hl1 as [|? ? Hb Hl2]; subst.
      inversion Hl2 as [|? ? Hc Hl3]; subst.
      destruct (IH l) as [IHa IHl]; [cbn in Hn; lia | exact Hl3 |].
      destruct (base64_bounds a b c Ha Hb Hc) as [H1 [H2 [H3 [H4 _]]]].
      cbn [btoa]. split.
      * do 4 (apply Forall_cons;
              [left; apply base64Char_alphabet; assumption|]).
        exact IHa.
      * cbn [List.length]. rewrite IHl.
        replace (S (S (S (List.length l))) + 2)%nat
          with (List.length l + 2 + 1 * 3)%nat by lia.
        rewrite Nat.div_add by lia. lia.
Qed.

(** X14. The base64 text that [toBase64] makes holds only letters,
    digits, [+], [/] and [=]: no quote, no backslash and no newline, so it
    can be written inside a string literal; its length is four characters
    for every three bytes of the UTF-8 encoding, rounded up. *)
Theorem toBase64_alphabet (str : string) :
  Forall (fun c => In c base64Alphabet \/ c = "="%char) (chars (toBase64 str))
  /\ String.length (toBase64 str)
     = (4 * ((List.length (utf8 str) + 2) / 3))%nat
  /\ ~ In dquote (chars (toBase64 str))
  /\ ~ In "\"%char (chars (toBase64 str))
  /\ ~ In "'"%char (chars (toBase64 str))
  /\ ~ In newline (chars (toBase64 str)).
Proof.
  unfold toBase64. rewrite chars_ofChars, length_ofChars.
  destruct (btoa_spec (List.length (utf8 str)) (utf8 str) (le_n _) (utf8_bytes str))
    as [Ha Hl].
  split; [exact Ha|]. split; [exact Hl|].
  rewrite Forall_forall in Ha.
  repeat split; intro Hin; destruct (Ha _ Hin) as [H|H];
    try discriminate H;
    cbn in H; repeat (destruct H as [H|H]; [discriminate H|]); exact H.
Qed.

Lemma splitAux_Forall (P : ascii -> Prop) (sep : ascii) (l current : list ascii) :
  Forall P l -> Forall P current ->
  Forall (allChars P) (splitAux sep current l).
Proof.
  revert current. induction l as [|c l IH]; intros current Hl Hc.
  - constructor; [|constructor]. unfold allChars. rewrite chars_ofChars.
    apply Forall_rev. exact Hc.
  - inversion Hl as [|? ? Hx Hl']; subst. cbn [splitAux].
    destruct (Ascii.eqb c sep).
    + constructor; [|apply IH; [exact Hl' | constructor]].
      unfold allChars. rewrite chars_ofChars. apply Forall_rev. exact Hc.
    + apply IH; [exact Hl' | constructor; assumption].
Qed.

Lemma headers_unquoted (first : string) :
  ~ In dquote (chars first) ->
  List.map (fun h => stripQuotes (trim h)) (split comma first) = parseLine first.
Proof.
  intro Hq. unfold parseLine. rewrite (parseLineLoop_unquoted _ [] Hq).
  fold (split comma first).
  assert (H : Forall (allChars (fun c => c <> dquote)) (split comma first)).
  { apply splitAux_Forall; [|constructor].
    apply Forall_forall. intros c Hc E. subst c. exact (Hq Hc). }
  induction H as [|h l Hh _ IH]; [reflexivity|].
  cbn [List.map]. rewrite IH. f_equal.
  apply stripQuotes_unquoted.
  assert (Ht : allChars (fun c => c <> dquote) (trim (ofChars (chars h))))
    by (apply trim_allChars; exact Hh).
  rewrite ofChars_chars in Ht. unfold allChars in Ht.
  rewrite Forall_forall in Ht. intro Hin. exact (Ht dquote Hin eq_refl).
Qed.

Lemma parseCSV_rowCount (text : string) (csv : csvFile) :
  parseCSV text = Some csv ->
  csv_rowCount csv = (List.length (nonBlankLines text) - 1)%nat.
Proof.
  unfold parseCSV. fold (nonBlankLines text).
  destruct (nonBlankLines text); intro H; [discriminate H|].
  injection H as <-. reflexivity.
Qed.

(** X15. [parseCSV] refuses exactly the texts without a line that is not
    blank. Its row count is the number of such lines less one, which is
    the number of rows of [parseCsvToRows]; when the header line holds no
    double quote, both functions give the same headers, unless the header
    line is the only one, in which case [parseCsvToRows] gives no header
    at all. *)
Theorem parseCSV_agrees (text : string) :
  (parseCSV text = None <-> nonBlankLines text = [])
  /\ forall csv, parseCSV text = Some csv ->
       csv_rowCount csv = (List.length (nonBlankLines text) - 1)%nat
       /\ List.length (snd (parseCsvToRows text)) = csv_rowCount csv
       /\ (csv_rowCount csv = 0%nat -> parseCsvToRows text = ([], []))
       /\ (csv_rowCount csv <> 0%nat ->
           forall first,
             hd_error (nonBlankLines text) = Some first ->
             ~ In dquote (chars first) ->
             fst (parseCsvToRows text) = csv_headers csv).
Proof.
  unfold parseCSV. fold (nonBlankLines text).
  destruct (parseCsvToRows_rows text) as [_ Hlen].
  split.
  - destruct (nonBlankLines text); split; intro H; congruence.
  - intros csv H.
    destruct (nonBlankLines text) as [|first rest] eqn:Hlines; [discriminate H|].
    injection H as <-. cbn [csv_rowCount csv_headers].
    split; [reflexivity|]. split; [exact Hlen|]. split.
    + intro H0. unfold parseCsvToRows. fold (nonBlankLines text). rewrite Hlines.
      destruct rest; [reflexivity | cbn in H0; lia].
    + intros H0 first' Hf Hq. injection Hf as <-.
      unfold parseCsvToRows. fold (nonBlankLines text). rewrite Hlines.
      destruct rest as [|second others]; [cbn in H0; lia|].
      cbn [fst]. rewrite map_stripQuotes_parseLine.
      symmetry. apply headers_unquoted. exact Hq.
Qed.

Lemma parseCSV_agrees_witness :
  exists csv,
    parseCSV ("id, name" ++ String newline ("1,ann" ++ String newline "2,bob"))
    = Some csv
    /\ csv_rowCount csv = 2%nat
    /\ List.length
         (snd (parseCsvToRows
                 ("id, name" ++ String newline ("1,ann" ++ String newline "2,bob"))))
       = csv_rowCount csv.
Proof.
  destruct (parseCSV_agrees
              ("id, name" ++ String newline ("1,ann" ++ String newline "2,bob")))
    as [_ H].
  eexists. split; [reflexivity|].
  destruct (H _ eq_refl) as [Hc [Hl _]].
  split; [exact Hc | exact Hl].
Defined.

Lemma spread_plain (o : object) :
  distinctKeys o ->
  Forall (fun k => arrayIndex k = None) (List.map fst o) ->
  spread o = o.
Proof.
  intros Hd Hp. unfold spread. rewrite (entries_insertion_order o Hp).
  apply fromEntries_distinct. exact Hd.
Qed.

(** X16. [loadJsonAsRows] answers [null] exactly when it finds no video:
    the data is neither an array nor an object with an array [videos] or,
    failing that, [items], or the array is empty. Otherwise the headers
    are the keys of the first video, and there is one row per video, a
    copy with the same properties; when no key is an array index, the rows
    are equal to the videos, so that the tools find the same headers. *)
Theorem loadJsonAsRows_rows (data : jsonData) :
  match loadJsonAsRows data with
  | None => videosOf data = []
  | Some (headers, rows) =>
      videosOf data <> []
      /\ headers = availableHeadersOf (videosOf data)
      /\ List.length rows = List.length (videosOf data)
      /\ Forall2
           (fun video row =>
              distinctKeys video -> forall k, getOwn row k = getOwn video k)
           (videosOf data) rows
      /\ (Forall
            (fun video =>
               distinctKeys video
               /\ Forall (fun k => arrayIndex k = None) (List.map fst video))
            (videosOf data) ->
          rows = videosOf data /\ availableHeadersOf rows = headers)
  end.
Proof.
  unfold loadJsonAsRows. cbv zeta.
  destruct (videosOf data) as [|first rest]; [reflexivity|].
  split; [discriminate|]. split; [reflexivity|].
  split; [exact (length_map spread (first :: rest))|].
  split.
  - induction (first :: rest) as [|v l IH]; constructor; [|exact IH].
    intros Hd k. apply getOwn_spread. exact Hd.
  - intro H.
    assert (Hrows : List.map spread (first :: rest) = first :: rest).
    { induction H as [|v l [Hd Hp] _ IH]; [reflexivity|].
      cbn [List.map]. rewrite IH, (spread_plain v Hd Hp). reflexivity. }
    rewrite Hrows. split; reflexivity.
Qed.

Lemma loadJsonAsRows_rows_witness :
  loadJsonAsRows
    (JsonObject NotArray (IsArray [[("videoId", VStr "a"); ("title", VStr "t")]]))
  = Some (["videoId"; "title"], [[("videoId", VStr "a"); ("title", VStr "t")]])
  /\ loadJsonAsRows (JsonObject (IsArray []) (IsArray [[("videoId", VStr "a")]]))
     = None.
Proof.
  pose proof (loadJsonAsRows_rows
                (JsonObject NotArray
                   (IsArray [[("videoId", VStr "a"); ("title", VStr "t")]]))) as H.
  split; [|reflexivity].
  destruct (loadJsonAsRows _) as [[headers rows]|] eqn:E; [|discriminate H].
  destruct H as [_ [Hh [_ [_ H]]]].
  destruct H as [Hr _].
  - repeat constructor; cbn; intuition discriminate.
  - rewrite Hh, Hr. reflexivity.
Defined.

(** X17. What the handlers store of a CSV file: the rows are as many as
    the row count of the attachment, they are the parsed rows or their
    enriched copies, and every header of the session is a property of
    every row of the session. *)
Theorem loadCsvFile_session (text : string) (s : csvSession) :
  loadCsvFile text = Some s ->
  parseCSV text = Some (cs_context s)
  /\ (cs_rows s, cs_headers s)
     = enrichWithEngagement (snd (parseCsvToRows text)) (fst (parseCsvToRows text))
  /\ List.length (cs_rows s) = csv_rowCount (cs_context s)
  /\ (forall row h,
        In row (cs_rows s) -> In h (cs_headers s) -> get row h <> VUndefined).
Proof.
  unfold loadCsvFile. intro H.
  destruct (parseCSV text) as [parsed|] eqn:Hp; [|discriminate H].
  set (rows0 := snd (parseCsvToRows text)) in *.
  set (headers0 := fst (parseCsvToRows text)) in *.
  assert (Hlen0 : List.length rows0 = csv_rowCount parsed).
  { rewrite (parseCSV_rowCount text parsed Hp).
    exact (proj2 (parseCsvToRows_rows text)). }
  destruct (enrichWithEngagement rows0 headers0) as [rows headers] eqn:He.
  injection H as <-. cbn [cs_context cs_rows cs_headers].
  assert (Hdef0 : forall row h, In row rows0 -> In h headers0 ->
                    get row h <> VUndefined).
  { intros row h Hr Hh. destruct (parseCsvToRows_defined text row h Hr Hh) as [x ->].
    discriminate. }
  assert (Hdist : Forall distinctKeys rows0) by apply parseCsvToRows_distinct.
  split; [reflexivity|]. split; [reflexivity|].
  destruct (enrich_cases rows0 headers0)
    as [[Hne [f [v [Hf [Hv Hno]]]]] | [Hsame _]].
  - rewrite (enrich_applies rows0 headers0 f v Hne Hf Hv Hno) in He.
    injection He as <- <-.
    split; [rewrite length_map; exact Hlen0|].
    intros row h Hrow Hh. apply in_map_iff in Hrow.
    destruct Hrow as [r [<- Hr]].
    rewrite Forall_forall in Hdist.
    apply enrichRow_defined; [exact (Hdist r Hr)|].
    apply in_app_iff in Hh. destruct Hh as [Hh|[<-|[]]];
      [left; exact (Hdef0 r h Hr Hh) | right; reflexivity].
  - rewrite Hsame in He. injection He as <- <-.
    split; [exact Hlen0 | exact Hdef0].
Qed.

Lemma loadCsvFile_session_witness :
  exists s,
    loadCsvFile
      ("Favorite Count,View Count" ++ String newline ("5,100" ++ String newline "7"))
    = Some s
    /\ List.length (cs_rows s) = csv_rowCount (cs_context s)
    /\ cs_headers s = ["Favorite Count"; "View Count"; "engagement"].
Proof.
  eexists. split; [vm_compute; reflexivity|].
  split; [|reflexivity].
  match goal with
  | |- context [cs_rows ?s] =>
      exact (proj1 (proj2 (proj2
               (loadCsvFile_session
                  ("Favorite Count,View Count"
                   ++ String newline ("5,100" ++ String newline "7"))
                  s ltac:(vm_compute; reflexivity)))))
  end.
Defined.

End Chat.

(** ** [server/index.js]: the retry wrapper, the download limit *)

Module Server.
Local Open Scope list_scope.

(** What the wrapper reads of a thrown error: its message and the
    [retry-after] header of its response, if any. *)
Record error : Type := Error {
  message : string;
  retryAfter : option string
}.

(** [/429|too many requests|rate limit|throttl/i] *)
Definition reRateLimit : regex :=
  RAlts [RLit "429"; RLit "too many requests"; RLit "rate limit"; RLit "throttl"].

(** [/resets?\s+in\s+~?(\d+)/i] *)
Definition reResetsIn : regex :=
  RSeqs [RLit "reset"; ROpt (RChar "s"); RPlus (RSet isSpace); RLit "in";
         RPlus (RSet isSpace); ROpt (RChar "~"); RGroup (RPlus (RSet isDigit))].

(** [/~(\d+)\s*s/i] *)
Definition reAboutSeconds : regex :=
  RSeqs [RChar "~"; RGroup (RPlus (RSet isDigit)); RStar (RSet isSpace); RChar "s"].

Definition is429 (err : error) : bool := test true reRateLimit (message err).

(** The number of seconds hinted by the message. *)
Definition resetHint (msg : string) : option Z :=
  match orElse (matchGroup true reResetsIn msg) (matchGroup true reAboutSeconds msg) with
  | Some digits => Some (digitsToZ (chars digits))
  | None => None
  end.

(** [waitMs], in milliseconds, as an integer. The program computes it
    in binary64, which is exact on the integers up to [2^53] and gives
    the ceiling beyond: the two agree unless the header reads as an
    integer below [-2^53 / 1000], which the program rounds. *)
Definition waitMs (err : error) : Z :=
  match retryAfter err with
  | Some header =>
      if String.eqb header "" then
        match resetHint (message err) with
        | Some n => Z.min (n * 1000 + 2000) 60000
        | None => 15000
        end
      else
        match parseInt10 header with
        | Some sec => Z.min (sec * 1000) 60000
        | None => 15000
        end
  | None =>
      match resetHint (message err) with
      | Some n => Z.min (n * 1000 + 2000) 60000
      | None => 15000
      end
  end.

(** *** Messages that hint at a wait *)

(** The word [x] is [word], in any case. *)
Definition anyCase (word : string) (x : list ascii) : Prop :=
  List.map canonicalize x = List.map canonicalize (chars word).

(** A run of white space that is not empty. *)
Definition blanks (sp : list ascii) : Prop :=
  sp <> [] /\ Forall (fun c => isSpace c = true) sp.

(** A number: digits, as many as there are before [post]. *)
Definition digitsBefore (ds post : list ascii) : Prop :=
  ds <> [] /\ Forall (fun c => isDigit c = true) ds /\ runEnds isDigit post.

(** What [/resets?\s+in\s+~?/i] matches. *)
Definition resetsInLead (lead : list ascii) : Prop :=
  exists word1 s1 sp1 word2 sp2 tilde,
    lead = word1 ++ s1 ++ sp1 ++ word2 ++ sp2 ++ tilde
    /\ anyCase "reset" word1
    /\ (s1 = [] \/ anyCase "s" s1)
    /\ blanks sp1
    /\ anyCase "in" word2
    /\ blanks sp2
    /\ (tilde = [] \/ tilde = ["~"%char]).

(** The message says [resets in ~N], and the word [reset] does not occur
    before. *)
Definition saysResetsIn (msg : string) (ds : list ascii) : Prop :=
  exists pre lead post,
    chars msg = pre ++ lead ++ ds ++ post
    /\ freeOf true (chars "reset") pre (lead ++ ds ++ post) = true
    /\ resetsInLead lead
    /\ digitsBefore ds post.

(** The message does not hold the word [reset]; it says [~N s], and has
    no [~] before. *)
Definition saysAboutSeconds (msg : string) (ds : list ascii) : Prop :=
  exists pre sp s post,
    chars msg = pre ++ "~"%char :: ds ++ sp ++ s :: post
    /\ freeOf true (chars "reset") (chars msg) [] = true
    /\ freeOf true ["~"%char] pre ("~"%char :: ds ++ sp ++ s :: post) = true
    /\ ds <> [] /\ Forall (fun c => isDigit c = true) ds
    /\ Forall (fun c => isSpace c = true) sp
    /\ anyCase "s" [s].

(** The words of [/429|too many requests|rate limit|throttl/i]. *)
Definition rateLimitWords : list (list ascii) :=
  [chars "429"; chars "too many requests"; chars "rate limit"; chars "throttl"].

(** The message holds neither the word [reset] nor a [~]. *)
Definition saysNothing (msg : string) : Prop :=
  freeOf true (chars "reset") (chars msg) [] = true
  /\ freeOf true ["~"%char] (chars msg) [] = true.

(** *** The limit of a channel download *)

(** [Math.min(Math.max(parseInt(maxVideos, 10) || 10, 1), 100)] of the
    handler of [/api/youtube-download], where [maxVideos] is [10] when the
    body of the request does not give it. *)
Definition maxVideosLimit (maxVideos : value) : number :=
  let given :=
    match maxVideos with
    | VUndefined => VNum (Num.ofZ 10)
    | v => v
    end in
  let parsed :=
    match parseInt10 (toString given) with
    | Some z => Num.ofZ z
    | None => NaN
    end in
  let wanted := if truthy (VNum parsed) then parsed else Num.ofZ 10 in
  Math_min [Math_max [wanted; Num.ofZ 1]; Num.ofZ 100].

Section Retry.

(** The type of what the model run returns. *)
Variable Output : Type.

(** The outcome of one call of [replicate.run]. *)
Inductive callResult : Type :=
| Success (output : Output)
| Failure (err : error).

(** What the wrapper does: it calls the model and it sleeps. *)
Inductive event : Type :=
| Called (attempt : nat)
| Slept (ms : Z).

(** How the wrapper ends: it returns the output, it rethrows the error,
    or its loop ends without either. *)
Inductive ending : Type :=
| Returned (output : Output)
| Thrown (err : error)
| LoopEnded.

(** The loop [for (attempt = ...; attempt <= maxRetries; attempt++)], with
    [remaining] iterations left; [run k] is the outcome of the call made
    at attempt [k]. *)
Fixpoint retryLoop (run : nat -> callResult) (maxRetries : nat)
  (remaining : nat) (attempt : nat) : list event * ending :=
  match remaining with
  | O => ([], LoopEnded)
  | S remaining' =>
      match run attempt with
      | Success output => ([Called attempt], Returned output)
      | Failure err =>
          if (is429 err && Nat.ltb attempt maxRetries)%bool then
            let '(events, e) := retryLoop run maxRetries remaining' (S attempt) in
            (Called attempt :: Slept (waitMs err) :: events, e)
          else ([Called attempt], Thrown err)
      end
  end.

Definition replicateRunWithRetry (run : nat -> callResult) (maxRetries : nat)
  : list event * ending :=
  retryLoop run maxRetries (S maxRetries) O.

(** [maxRetries = 3] when the argument is left out. *)
Definition replicateRunWithRetryDefault (run : nat -> callResult)
  : list event * ending :=
  replicateRunWithRetry run 3.

Definition attempts (events : list event) : nat :=
  List.length (List.filter (fun e => match e with Called _ => true | _ => false end) events).

Definition sleeps (events : list event) : list Z :=
  List.concat (List.map (fun e => match e with Slept ms => [ms] | _ => [] end) events).

(** The attempts [from .. k - 1] all failed with a rate-limit error. *)
Definition rateLimitedBefore (run : nat -> callResult) (from k : nat) : Prop :=
  forall j, (from <= j < k)%nat -> exists e, run j = Failure e /\ is429 e = true.

(** The wait that follows the failed attempt [j]. *)
Definition waitAfter (run : nat -> callResult) (j : nat) : Z :=
  match run j with
  | Failure e => waitMs e
  | Success _ => 0
  end.

(** *** Properties of the wait *)

Lemma startsWord_anyCase (word : string) (x rest : list ascii) :
  anyCase word x ->
  startsWord true (chars word) (x ++ rest) = true
  /\ startsWord true (chars word) x = true
  /\ List.length x = List.length (chars word).
Proof.
  unfold anyCase. generalize (chars word) as l. revert rest.
  induction x as [|a x IH]; intros rest l H; destruct l as [|c l];
    try discriminate H; [repeat split|].
  cbn [List.map] in H. injection H as Ha Hx.
  destruct (IH rest l Hx) as [H1 [H2 H3]].
  cbn [app startsWord List.length]. unfold sameLetter.
  rewrite Ha, Ascii.eqb_refl, H1, H2, H3. repeat split.
Qed.

Lemma space_not_letter (c a : ascii) :
  isSpace c = true -> isSpace a = false -> sameLetter true c a = false.
Proof.
  intros Hc Ha. unfold sameLetter.
  destruct (Ascii.eqb_spec (canonicalize c) (canonicalize a)) as [E|E];
    [|reflexivity].
  exfalso. revert Hc Ha E.
  destruct c as [[] [] [] [] [] [] [] []]; try discriminate;
    destruct a as [[] [] [] [] [] [] [] []]; discriminate.
Qed.

Lemma digit_not_space (c : ascii) : isDigit c = true -> isSpace c = false.
Proof. destruct c as [[] [] [] [] [] [] [] []]; vm_compute; congruence. Qed.

Lemma digit_not_tilde (c : ascii) :
  isDigit c = true -> sameLetter true c "~" = false.
Proof. destruct c as [[] [] [] [] [] [] [] []]; vm_compute; congruence. Qed.

Lemma letter_not_space (word : string) (c : ascii) (x : list ascii) :
  anyCase word (c :: x) ->
  Forall (fun a => isSpace a = false) (chars word) ->
  isSpace c = false.
Proof.
  unfold anyCase. intros H Hw.
  destruct (chars word) as [|a l]; [discriminate H|].
  cbn [List.map] in H. injection H as Ha _.
  inversion Hw as [|? ? Hsa _]; subst.
  revert Ha Hsa.
  destruct c as [[] [] [] [] [] [] [] []]; try reflexivity;
    destruct a as [[] [] [] [] [] [] [] []]; discriminate.
Qed.

Lemma letter_not_digit (word : string) (c : ascii) (x : list ascii) :
  anyCase word (c :: x) ->
  Forall (fun a => isDigit a = false) (chars word) ->
  isDigit c = false.
Proof.
  unfold anyCase. intros H Hw.
  destruct (chars word) as [|a l]; [discriminate H|].
  cbn [List.map] in H. injection H as Ha _.
  inversion Hw as [|? ? Hsa _]; subst.
  revert Ha Hsa.
  destruct c as [[] [] [] [] [] [] [] []]; try reflexivity;
    destruct a as [[] [] [] [] [] [] [] []]; discriminate.
Qed.

Lemma rmatch_seq (ci : bool) (a b : regex) (st : mstate)
  (k : mstate -> option mstate) :
  rmatch ci (RSeq a b) st k = rmatch ci a st (fun st1 => rmatch ci b st1 k).
Proof. reflexivity. Qed.

Lemma rmatch_group (ci : bool) (a : regex) (st : mstate)
  (k : mstate -> option mstate) :
  rmatch ci (RGroup a) st k
  = rmatch ci a st (fun st1 =>
      k (MState (ms_pos st1) (ms_prev st1) (ms_rest st1)
           ((ms_pos st, ms_pos st1) :: ms_caps st1))).
Proof. reflexivity. Qed.

Lemma searchFrom_here (ci : bool) (r : regex) (pos : nat) (prev : option ascii)
  (rest : list ascii) (st : mstate) :
  rmatch ci r (MState pos prev rest []) Some = Some st ->
  searchFrom ci r pos prev rest = Some st.
Proof. intro H. destruct rest; cbn [searchFrom]; rewrite H; reflexivity. Qed.

(** The digits of a number are captured whole. *)
Lemma digits_captured (st : mstate) (ds post : list ascii) :
  ms_rest st = ds ++ post ->
  digitsBefore ds post ->
  exists res,
    rmatch true (RGroup (RPlus (RSet isDigit))) st Some = Some res
    /\ ms_caps res
       = (ms_pos st, ms_pos st + List.length ds)%nat :: ms_caps st.
Proof.
  intros Hrest [Hne [Hds Hend]]. eexists. split.
  - rewrite rmatch_group.
    apply (plus_run true isDigit _ _ ds st post Hrest Hne Hds Hend).
    reflexivity.
  - reflexivity.
Qed.

Lemma resetsIn_here (st : mstate) (lead ds post : list ascii) :
  ms_rest st = lead ++ ds ++ post ->
  resetsInLead lead ->
  digitsBefore ds post ->
  exists res,
    rmatch true reResetsIn st Some = Some res
    /\ ms_caps res
       = (ms_pos st + List.length lead,
          ms_pos st + List.length lead + List.length ds)%nat :: ms_caps st.
Proof.
  intros Hrest (word1 & s1 & sp1 & word2 & sp2 & tilde & -> & Hw1 & Hs1
                & [Hsp1n Hsp1] & Hw2 & [Hsp2n Hsp2] & Ht) Hds.
  rewrite <- !app_assoc in Hrest.
  assert (Hd0 : exists d ds', ds = d :: ds' /\ isDigit d = true).
  { destruct Hds as [Hne [Hall _]]. destruct ds as [|d ds']; [contradiction|].
    exists d, ds'. split; [reflexivity|]. inversion Hall; assumption. }
  destruct Hd0 as [d [ds' [Eds Hd]]].
  (* the group, after the optional tilde *)
  assert (Htail : forall st5 : mstate,
            ms_rest st5 = tilde ++ ds ++ post ->
            exists res,
              rmatch true (RSeq (ROpt (RChar "~")) (RGroup (RPlus (RSet isDigit))))
                st5 Some = Some res
              /\ ms_caps res
                 = (ms_pos st5 + List.length tilde,
                    ms_pos st5 + List.length tilde + List.length ds)%nat
                   :: ms_caps st5).
  { intros st5 H5. rewrite rmatch_seq. destruct Ht as [-> | ->].
    - cbn [app] in H5. rewrite opt_char_absent.
      + destruct (digits_captured st5 ds post H5 Hds) as [res [Hres Hcaps]].
        exists res. split; [exact Hres|]. rewrite Hcaps.
        cbn [List.length]. rewrite Nat.add_0_r. reflexivity.
      + rewrite H5, Eds. cbn [app startsWord]. rewrite (digit_not_tilde d Hd).
        reflexivity.
    - cbn [app] in H5.
      destruct (digits_captured (after st5 ["~"%char] (ds ++ post)) ds post
                  eq_refl Hds) as [res [Hres Hcaps]].
      exists res. split.
      + apply (opt_char_taken true "~" "~" _ res st5 (ds ++ post) H5 eq_refl).
        exact Hres.
      + rewrite Hcaps. unfold after. cbn [ms_pos ms_caps List.length].
        reflexivity. }
  destruct (startsWord_anyCase "reset" word1
              (s1 ++ sp1 ++ word2 ++ sp2 ++ tilde ++ ds ++ post) Hw1)
    as [_ [Hst1 Hlen1]].
  destruct (startsWord_anyCase "in" word2 (sp2 ++ tilde ++ ds ++ post) Hw2)
    as [_ [Hst2 Hlen2]].
  (* from the second word on *)
  assert (Hin : forall st3 : mstate,
            ms_rest st3 = word2 ++ sp2 ++ tilde ++ ds ++ post ->
            exists res,
              rmatch true
                (RSeqs [RLit "in"; RPlus (RSet isSpace); ROpt (RChar "~");
                        RGroup (RPlus (RSet isDigit))]) st3 Some = Some res
              /\ ms_caps res
                 = (ms_pos st3 + List.length (word2 ++ sp2 ++ tilde),
                    ms_pos st3 + List.length (word2 ++ sp2 ++ tilde)
                    + List.length ds)%nat :: ms_caps st3).
  { intros st3 H3. cbn [RSeqs]. rewrite rmatch_seq. unfold RLit.
    rewrite (rmatch_lit_start true (chars "in") st3 word2
               (sp2 ++ tilde ++ ds ++ post) _ H3 Hlen2 Hst2).
    rewrite rmatch_seq.
    destruct (Htail (after (after st3 word2 (sp2 ++ tilde ++ ds ++ post)) sp2
                       (tilde ++ ds ++ post)) eq_refl) as [res [Hres Hcaps]].
    exists res. split.
    - apply (plus_run true isSpace _ res sp2
               (after st3 word2 (sp2 ++ tilde ++ ds ++ post))
               (tilde ++ ds ++ post) eq_refl Hsp2n Hsp2); [|exact Hres].
      destruct Ht as [-> | ->]; cbn [app runEnds].
      + rewrite Eds. cbn [app]. apply digit_not_space, Hd.
      + reflexivity.
    - rewrite Hcaps. unfold after. cbn [ms_pos ms_caps].
      repeat (rewrite ?length_app; cbn [List.length app]). apply f_equal2; [apply f_equal2; lia | reflexivity]. }
  (* from the first run of white space on *)
  assert (Hsp : forall st2 : mstate,
            ms_rest st2 = sp1 ++ word2 ++ sp2 ++ tilde ++ ds ++ post ->
            exists res,
              rmatch true
                (RSeqs [RPlus (RSet isSpace); RLit "in"; RPlus (RSet isSpace);
                        ROpt (RChar "~"); RGroup (RPlus (RSet isDigit))])
                st2 Some = Some res
              /\ ms_caps res
                 = (ms_pos st2 + List.length (sp1 ++ word2 ++ sp2 ++ tilde),
                    ms_pos st2 + List.length (sp1 ++ word2 ++ sp2 ++ tilde)
                    + List.length ds)%nat :: ms_caps st2).
  { intros st2 H2.
    change (RSeqs [RPlus (RSet isSpace); RLit "in"; RPlus (RSet isSpace);
                   ROpt (RChar "~"); RGroup (RPlus (RSet isDigit))])
      with (RSeq (RPlus (RSet isSpace))
              (RSeqs [RLit "in"; RPlus (RSet isSpace); ROpt (RChar "~");
                      RGroup (RPlus (RSet isDigit))])).
    rewrite rmatch_seq.
    destruct (Hin (after st2 sp1 (word2 ++ sp2 ++ tilde ++ ds ++ post)) eq_refl)
      as [res [Hres Hcaps]].
    exists res. split.
    - apply (plus_run true isSpace _ res sp1 st2
               (word2 ++ sp2 ++ tilde ++ ds ++ post) H2 Hsp1n Hsp1);
        [|exact Hres].
      destruct word2 as [|c word2]; [discriminate Hlen2|]. cbn [app runEnds].
      apply (letter_not_space "in" c word2 Hw2). repeat constructor.
    - rewrite Hcaps. unfold after. cbn [ms_pos ms_caps].
      repeat (rewrite ?length_app; cbn [List.length app]). apply f_equal2; [apply f_equal2; lia | reflexivity]. }
  unfold reResetsIn.
  change (RSeqs [RLit "reset"; ROpt (RChar "s"); RPlus (RSet isSpace); RLit "in";
                 RPlus (RSet isSpace); ROpt (RChar "~");
                 RGroup (RPlus (RSet isDigit))])
    with (RSeq (RLit "reset")
            (RSeq (ROpt (RChar "s"))
               (RSeqs [RPlus (RSet isSpace); RLit "in"; RPlus (RSet isSpace);
                       ROpt (RChar "~"); RGroup (RPlus (RSet isDigit))]))).
  rewrite rmatch_seq. unfold RLit at 1.
  rewrite (rmatch_lit_start true (chars "reset") st word1
             (s1 ++ sp1 ++ word2 ++ sp2 ++ tilde ++ ds ++ post) _ Hrest Hlen1 Hst1).
  rewrite rmatch_seq.
  destruct sp1 as [|c1 sp1']; [contradiction|].
  assert (Hc1 : isSpace c1 = true) by (inversion Hsp1; assumption).
  destruct Hs1 as [-> | Hs1].
  - cbn [app].
    rewrite opt_char_absent.
    + destruct (Hsp (after st word1
                       ((c1 :: sp1') ++ word2 ++ sp2 ++ tilde ++ ds ++ post))
                  eq_refl) as [res [Hres Hcaps]].
      exists res. split; [exact Hres|]. rewrite Hcaps.
      unfold after. cbn [ms_pos ms_caps]. repeat (rewrite ?length_app; cbn [List.length app]).
      cbn [List.length]. apply f_equal2; [apply f_equal2; lia | reflexivity].
    + cbn [after ms_rest app startsWord].
      rewrite (space_not_letter c1 "s" Hc1 eq_refl). reflexivity.
  - destruct (startsWord_anyCase "s" s1 [] Hs1) as [_ [Hss Hlens]].
    destruct s1 as [|s [|? ?]]; try discriminate Hlens.
    change (chars "s") with ["s"%char] in Hss.
    cbn [startsWord] in Hss. rewrite andb_true_r in Hss.
    destruct (Hsp (after (after st word1
                            ([s] ++ (c1 :: sp1') ++ word2 ++ sp2 ++ tilde
                             ++ ds ++ post)) [s]
                     ((c1 :: sp1') ++ word2 ++ sp2 ++ tilde ++ ds ++ post))
                eq_refl) as [res [Hres Hcaps]].
    exists res. split.
    + apply (opt_char_taken true "s" s _ res
               (after st word1
                  ([s] ++ (c1 :: sp1') ++ word2 ++ sp2 ++ tilde ++ ds ++ post))
               ((c1 :: sp1') ++ word2 ++ sp2 ++ tilde ++ ds ++ post) eq_refl Hss).
      exact Hres.
    + rewrite Hcaps. unfold after. cbn [ms_pos ms_caps]. repeat (rewrite ?length_app; cbn [List.length app]).
      cbn [List.length]. apply f_equal2; [apply f_equal2; lia | reflexivity].
Qed.

Lemma aboutSeconds_here (st : mstate) (ds sp : list ascii) (s : ascii)
  (post : list ascii) :
  ms_rest st = "~"%char :: ds ++ sp ++ s :: post ->
  ds <> [] ->
  Forall (fun c => isDigit c = true) ds ->
  Forall (fun c => isSpace c = true) sp ->
  anyCase "s" [s] ->
  exists res,
    rmatch true reAboutSeconds st Some = Some res
    /\ ms_caps res
       = (ms_pos st + 1, ms_pos st + 1 + List.length ds)%nat :: ms_caps st.
Proof.
  intros Hrest Hne Hds Hsp Hs.
  assert (Hss : sameLetter true s "s" = true).
  { destruct (startsWord_anyCase "s" [s] [] Hs) as [_ [H _]].
    change (chars "s") with ["s"%char] in H. cbn [startsWord] in H.
    rewrite andb_true_r in H. exact H. }
  assert (Hs_space : isSpace s = false)
    by (apply (letter_not_space "s" s [] Hs); repeat constructor).
  assert (Hs_digit : isDigit s = false)
    by (apply (letter_not_digit "s" s [] Hs); repeat constructor).
  unfold reAboutSeconds.
  change (RSeqs [RChar "~"; RGroup (RPlus (RSet isDigit)); RStar (RSet isSpace);
                 RChar "s"])
    with (RSeq (RLitChars ["~"%char])
            (RSeq (RGroup (RPlus (RSet isDigit)))
               (RSeq (RStar (RSet isSpace)) (RChar "s")))).
  rewrite rmatch_seq.
  rewrite (rmatch_lit_start true ["~"%char] st ["~"%char] (ds ++ sp ++ s :: post)
             _ Hrest eq_refl eq_refl).
  rewrite rmatch_seq, rmatch_group.
  set (st1 := after st ["~"%char] (ds ++ sp ++ s :: post)).
  eexists. split.
  - apply (plus_run true isDigit _ _ ds st1 (sp ++ s :: post) eq_refl Hne Hds).
    + destruct sp as [|c sp']; cbn [app runEnds]; [exact Hs_digit|].
      inversion Hsp as [|? ? Hc _]; subst.
      destruct (isDigit c) eqn:E; [|reflexivity].
      rewrite (digit_not_space c E) in Hc. discriminate Hc.
    + rewrite rmatch_seq.
      apply (star_run true isSpace _ _ sp
               (MState (ms_pos (after st1 ds (sp ++ s :: post)))
                  (ms_prev (after st1 ds (sp ++ s :: post)))
                  (ms_rest (after st1 ds (sp ++ s :: post)))
                  ((ms_pos st1, ms_pos (after st1 ds (sp ++ s :: post)))
                   :: ms_caps (after st1 ds (sp ++ s :: post))))
               (s :: post) eq_refl Hsp Hs_space).
      cbn [rmatch after ms_rest]. unfold sameLetter in Hss. rewrite Hss.
      reflexivity.
  - unfold st1, advance, after. cbn [ms_pos ms_caps List.length]. reflexivity.
Qed.

Lemma slice_middle (s : string) (pre mid post : list ascii) (pos : nat) :
  chars s = pre ++ mid ++ post ->
  pos = List.length pre ->
  slice s (pos, pos + List.length mid)%nat = ofChars mid.
Proof.
  intros Hs ->. unfold slice. cbn [fst snd]. rewrite Hs.
  rewrite firstn_skipn_middle. reflexivity.
Qed.

Lemma digitsToZ_ofChars (ds : list ascii) :
  digitsToZ (chars (ofChars ds)) = digitsToZ ds.
Proof. rewrite chars_ofChars_list. reflexivity. Qed.

(** The hint of a message that says [resets in ~N] is [N]. *)
Lemma resetHint_resetsIn (msg : string) (ds : list ascii) :
  saysResetsIn msg ds -> resetHint msg = Some (digitsToZ ds).
Proof.
  intros (pre & lead & post & Hmsg & Hfree & Hlead & Hds).
  assert (H : matchGroup true reResetsIn msg = Some (ofChars ds)).
  { destruct (resetsIn_here
                (MState (0 + List.length pre) (lastOr None pre)
                   (lead ++ ds ++ post) [])
                lead ds post eq_refl Hlead Hds) as [res [Hres Hcaps]].
    unfold matchGroup, exec. rewrite Hmsg.
    change reResetsIn
      with (RSeq (RLitChars (chars "reset"))
              (RSeqs [ROpt (RChar "s"); RPlus (RSet isSpace); RLit "in";
                      RPlus (RSet isSpace); ROpt (RChar "~");
                      RGroup (RPlus (RSet isDigit))])) in Hres |- *.
    rewrite (searchFrom_free true (chars "reset") _ (lead ++ ds ++ post) pre
               O None Hfree).
    rewrite (searchFrom_here _ _ _ _ _ _ Hres), Hcaps.
    cbn [ms_pos ms_caps].
    f_equal. apply (slice_middle msg (pre ++ lead) ds post).
    - rewrite <- app_assoc. exact Hmsg.
    - rewrite length_app. lia. }
  unfold resetHint. rewrite H. cbn [orElse]. rewrite digitsToZ_ofChars.
  reflexivity.
Qed.

(** The hint of a message that says [~N s], and not [reset], is [N]. *)
Lemma resetHint_aboutSeconds (msg : string) (ds : list ascii) :
  saysAboutSeconds msg ds -> resetHint msg = Some (digitsToZ ds).
Proof.
  intros (pre & sp & s & post & Hmsg & Hreset & Hfree & Hne & Hds & Hsp & Hs).
  assert (H1 : matchGroup true reResetsIn msg = None).
  { unfold matchGroup, exec.
    change reResetsIn
      with (RSeq (RLitChars (chars "reset"))
              (RSeqs [ROpt (RChar "s"); RPlus (RSet isSpace); RLit "in";
                      RPlus (RSet isSpace); ROpt (RChar "~");
                      RGroup (RPlus (RSet isDigit))])).
    rewrite (searchFrom_none true (chars "reset") _ (chars msg) O None);
      [reflexivity | discriminate | exact Hreset]. }
  assert (H2 : matchGroup true reAboutSeconds msg = Some (ofChars ds)).
  { destruct (aboutSeconds_here
                (MState (0 + List.length pre) (lastOr None pre)
                   ("~"%char :: ds ++ sp ++ s :: post) [])
                ds sp s post eq_refl Hne Hds Hsp Hs) as [res [Hres Hcaps]].
    unfold matchGroup, exec. rewrite Hmsg.
    change reAboutSeconds
      with (RSeq (RLitChars ["~"%char])
              (RSeqs [RGroup (RPlus (RSet isDigit)); RStar (RSet isSpace);
                      RChar "s"])) in Hres |- *.
    rewrite (searchFrom_free true ["~"%char] _
               ("~"%char :: ds ++ sp ++ s :: post) pre O None Hfree).
    rewrite (searchFrom_here _ _ _ _ _ _ Hres), Hcaps.
    cbn [ms_pos ms_caps].
    f_equal. apply (slice_middle msg (pre ++ ["~"%char]) ds (sp ++ s :: post)).
    - rewrite <- app_assoc. exact Hmsg.
    - rewrite length_app. cbn [List.length]. lia. }
  unfold resetHint. rewrite H1, H2. cbn [orElse]. rewrite digitsToZ_ofChars.
  reflexivity.
Qed.

(** A message with neither the word [reset] nor a [~] hints at nothing. *)
Lemma resetHint_nothing (msg : string) :
  saysNothing msg -> resetHint msg = None.
Proof.
  intros [Hreset Htilde].
  unfold resetHint, matchGroup, exec.
  change reResetsIn
    with (RSeq (RLitChars (chars "reset"))
            (RSeqs [ROpt (RChar "s"); RPlus (RSet isSpace); RLit "in";
                    RPlus (RSet isSpace); ROpt (RChar "~");
                    RGroup (RPlus (RSet isDigit))])).
  change reAboutSeconds
    with (RSeq (RLitChars ["~"%char])
            (RSeqs [RGroup (RPlus (RSet isDigit)); RStar (RSet isSpace);
                    RChar "s"])).
  rewrite (searchFrom_none true (chars "reset") _ (chars msg) O None);
    [|discriminate | exact Hreset].
  rewrite (searchFrom_none true ["~"%char] _ (chars msg) O None);
    [reflexivity | discriminate | exact Htilde].
Qed.

Lemma waitMs_ceiling (err : error) : waitMs err <= 60000.
Proof.
  unfold waitMs.
  destruct (retryAfter err) as [header|].
  - destruct (String.eqb header "").
    + destruct (resetHint (message err)); lia.
    + destruct (parseInt10 header); lia.
  - destruct (resetHint (message err)); lia.
Qed.

Lemma waitMs_header (msg header : string) (sec : Z) :
  header <> "" ->
  parseInt10 header = Some sec ->
  waitMs (Error msg (Some header)) = Z.min (sec * 1000) 60000.
Proof.
  intros Hne Hsec. unfold waitMs. cbn [retryAfter message].
  destruct (String.eqb_spec header "") as [E|_]; [contradiction|].
  rewrite Hsec. reflexivity.
Qed.

Lemma waitMs_header_unreadable (msg header : string) :
  header <> "" ->
  parseInt10 header = None ->
  waitMs (Error msg (Some header)) = 15000.
Proof.
  intros Hne Hsec. unfold waitMs. cbn [retryAfter message].
  destruct (String.eqb_spec header "") as [E|_]; [contradiction|].
  rewrite Hsec. reflexivity.
Qed.

Lemma waitMs_hint (msg : string) (n : Z) :
  resetHint msg = Some n ->
  waitMs (Error msg None) = Z.min (n * 1000 + 2000) 60000.
Proof. intro H. unfold waitMs. cbn [retryAfter message]. rewrite H. reflexivity. Qed.

Lemma waitMs_default (msg : string) :
  resetHint msg = None -> waitMs (Error msg None) = 15000.
Proof. intro H. unfold waitMs. cbn [retryAfter message]. rewrite H. reflexivity. Qed.

(** *** Properties of the loop *)

Lemma attempts_bound (run : nat -> callResult) (maxRetries remaining attempt : nat) :
  (attempts (fst (retryLoop run maxRetries remaining attempt)) <= remaining)%nat.
Proof.
  unfold attempts.
  revert attempt. induction remaining as [|remaining IH]; intro attempt; cbn -[Nat.ltb is429 waitMs].
  - lia.
  - destruct (run attempt) as [output|err]; cbn -[Nat.ltb is429 waitMs]; [lia|].
    destruct (is429 err && Nat.ltb attempt maxRetries)%bool; cbn -[Nat.ltb is429 waitMs]; [|lia].
    specialize (IH (S attempt)).
    destruct (retryLoop run maxRetries remaining (S attempt)) as [events e].
    cbn -[Nat.ltb is429 waitMs] in *. lia.
Qed.

Lemma sleeps_ceiling (run : nat -> callResult) (maxRetries remaining attempt : nat) :
  Forall (fun ms => ms <= 60000)
    (sleeps (fst (retryLoop run maxRetries remaining attempt))).
Proof.
  unfold sleeps.
  revert attempt. induction remaining as [|remaining IH]; intro attempt; cbn -[Nat.ltb is429 waitMs].
  - constructor.
  - destruct (run attempt) as [output|err]; cbn -[Nat.ltb is429 waitMs]; [constructor|].
    destruct (is429 err && Nat.ltb attempt maxRetries)%bool; cbn -[Nat.ltb is429 waitMs]; [|constructor].
    specialize (IH (S attempt)).
    destruct (retryLoop run maxRetries remaining (S attempt)) as [events e].
    cbn -[Nat.ltb is429 waitMs] in *.
    constructor; [apply waitMs_ceiling | exact IH].
Qed.

(** The loop, started at [attempt] with enough iterations left to reach
    attempt [k], where the call fails with an error that is not retried. *)
Lemma retryLoop_throws (run : nat -> callResult) (maxRetries k : nat) (err : error) :
  (k <= maxRetries)%nat ->
  run k = Failure err ->
  is429 err = false \/ k = maxRetries ->
  forall remaining attempt,
    (attempt <= k)%nat -> (k < attempt + remaining)%nat ->
    rateLimitedBefore run attempt k ->
    let res := retryLoop run maxRetries remaining attempt in
    snd res = Thrown err
    /\ attempts (fst res) = (S k - attempt)%nat
    /\ sleeps (fst res) = List.map (waitAfter run) (seq attempt (k - attempt)).
Proof.
  intros Hk Hrun Hstop.
  induction remaining as [|remaining IH]; intros attempt Hle Hlt Hbefore; [lia|].
  cbn -[Nat.ltb is429 waitMs].
  destruct (Nat.eq_dec attempt k) as [->|Hne].
  - rewrite Hrun.
    assert (is429 err && Nat.ltb k maxRetries = false)%bool as ->.
    { destruct Hstop as [->| ->]; [reflexivity|].
      rewrite Nat.ltb_irrefl. apply andb_false_r. }
    cbn -[Nat.ltb is429 waitMs]. replace (k - k)%nat with O by lia.
    replace (S k - k)%nat with 1%nat by lia. repeat split; reflexivity.
  - destruct (Hbefore attempt) as [e [He H429]]; [lia|].
    rewrite He, H429.
    assert (Nat.ltb attempt maxRetries = true) as -> by (apply Nat.ltb_lt; lia).
    cbn -[Nat.ltb is429 waitMs].
    specialize (IH (S attempt)).
    destruct IH as [IHend [IHatt IHsl]]; [lia | lia | |].
    { intros j Hj. apply Hbefore. lia. }
    destruct (retryLoop run maxRetries remaining (S attempt)) as [events e'].
    cbn -[Nat.ltb is429 waitMs] in *. repeat split.
    + exact IHend.
    + rewrite IHatt. lia.
    + rewrite IHsl.
      replace (k - attempt)%nat with (S (k - S attempt)) by lia.
      cbn [seq List.map]. unfold waitAfter at 2. rewrite He. reflexivity.
Qed.

(** The same, when the call at attempt [k] succeeds. *)
Lemma retryLoop_returns (run : nat -> callResult) (maxRetries k : nat)
  (output : Output) :
  (k <= maxRetries)%nat ->
  run k = Success output ->
  forall remaining attempt,
    (attempt <= k)%nat -> (k < attempt + remaining)%nat ->
    rateLimitedBefore run attempt k ->
    snd (retryLoop run maxRetries remaining attempt) = Returned output.
Proof.
  intros Hk Hrun.
  induction remaining as [|remaining IH]; intros attempt Hle Hlt Hbefore; [lia|].
  cbn -[Nat.ltb is429 waitMs].
  destruct (Nat.eq_dec attempt k) as [->|Hne].
  - rewrite Hrun. reflexivity.
  - destruct (Hbefore attempt) as [e [He H429]]; [lia|].
    rewrite He, H429.
    assert (Nat.ltb attempt maxRetries = true) as -> by (apply Nat.ltb_lt; lia).
    cbn -[Nat.ltb is429 waitMs].
    specialize (IH (S attempt)).
    destruct (retryLoop run maxRetries remaining (S attempt)) as [events e'].
    cbn -[Nat.ltb is429 waitMs] in *. apply IH; [lia | lia |].
    intros j Hj. apply Hbefore. lia.
Qed.

(** C4 (as amended). A failure is a rate limit when its message holds,
    in any case, [429], [too many requests], [rate limit] or [throttl].
    The wait computed on a failure is read from the
    [retry-after] header when the error carries one that is not empty:
    its seconds when it reads as an integer, and 15 seconds when it does
    not, whatever the message says. With no header, or an empty one, the
    wait is read from the message: when it says [resets in ~N] (before
    any other [reset]) or, without the word [reset], [~N s] (before any
    other [~]), it is [N] seconds and a margin of two seconds; when it
    holds neither [reset] nor [~], it is 15 seconds. The wait never
    exceeds 60 seconds, and [retry-after: 2] gives 2000 ms. The calls
    never exceed [maxRetries + 1] (4 by default). A failure that is not
    a rate limit, or a rate-limit failure on the final attempt, rethrows
    the error of that call unchanged, after one wait for each attempt
    before it; a call that succeeds returns its output. *)
Theorem retry_wrapper_contract (run : nat -> callResult) (maxRetries : nat) :
  (forall err,
     is429 err = occursAny true rateLimitWords (chars (message err)))
  /\ (forall err, waitMs err <= 60000)
  /\ (forall msg header sec,
        header <> "" -> parseInt10 header = Some sec ->
        waitMs (Error msg (Some header)) = Z.min (sec * 1000) 60000)
  /\ (forall msg header,
        header <> "" -> parseInt10 header = None ->
        waitMs (Error msg (Some header)) = 15000)
  /\ (forall msg header ds,
        header = None \/ header = Some "" ->
        saysResetsIn msg ds \/ saysAboutSeconds msg ds ->
        resetHint msg = Some (digitsToZ ds)
        /\ waitMs (Error msg header) = Z.min (digitsToZ ds * 1000 + 2000) 60000)
  /\ (forall msg header,
        header = None \/ header = Some "" ->
        saysNothing msg ->
        resetHint msg = None /\ waitMs (Error msg header) = 15000)
  /\ (forall msg n,
        resetHint msg = Some n ->
        waitMs (Error msg None) = Z.min (n * 1000 + 2000) 60000)
  /\ (forall msg, resetHint msg = None -> waitMs (Error msg None) = 15000)
  /\ (forall msg, waitMs (Error msg (Some "2")) = 2000)
  /\ (attempts (fst (replicateRunWithRetry run maxRetries)) <= maxRetries + 1)%nat
  /\ (attempts (fst (replicateRunWithRetryDefault run)) <= 4)%nat
  /\ Forall (fun ms => ms <= 60000)
       (sleeps (fst (replicateRunWithRetry run maxRetries)))
  /\ (forall k err,
        (k <= maxRetries)%nat ->
        rateLimitedBefore run 0 k ->
        run k = Failure err ->
        is429 err = false \/ k = maxRetries ->
        snd (replicateRunWithRetry run maxRetries) = Thrown err
        /\ attempts (fst (replicateRunWithRetry run maxRetries)) = S k
        /\ sleeps (fst (replicateRunWithRetry run maxRetries))
           = List.map (waitAfter run) (seq 0 k))
  /\ (forall k output,
        (k <= maxRetries)%nat ->
        rateLimitedBefore run 0 k ->
        run k = Success output ->
        snd (replicateRunWithRetry run maxRetries) = Returned output).
Proof.
  split; [intro err; exact (test_words true rateLimitWords (message err))|].
  split; [apply waitMs_ceiling|].
  split; [apply waitMs_header|].
  split; [apply waitMs_header_unreadable|].
  split.
  { intros msg header ds Hheader Hsays.
    assert (Hhint : resetHint msg = Some (digitsToZ ds)).
    { destruct Hsays as [H|H];
        [apply resetHint_resetsIn | apply resetHint_aboutSeconds]; exact H. }
    split; [exact Hhint|].
    unfold waitMs. cbn [retryAfter message].
    destruct Hheader as [-> | ->]; cbn [String.eqb]; rewrite Hhint; reflexivity. }
  split.
  { intros msg header Hheader Hsays.
    pose proof (resetHint_nothing msg Hsays) as Hhint.
    split; [exact Hhint|].
    unfold waitMs. cbn [retryAfter message].
    destruct Hheader as [-> | ->]; cbn [String.eqb]; rewrite Hhint; reflexivity. }
  split; [apply waitMs_hint|].
  split; [apply waitMs_default|].
  split; [intro msg; reflexivity|].
  split.
  { pose proof (attempts_bound run maxRetries (S maxRetries) 0).
    unfold replicateRunWithRetry. lia. }
  split; [apply (attempts_bound run 3 4 0)|].
  split; [apply sleeps_ceiling|].
  split.
  - intros k err Hk Hbefore Hrun Hstop.
    destruct (retryLoop_throws run maxRetries k err Hk Hrun Hstop (S maxRetries) 0)
      as [He [Ha Hs]]; [lia | lia | exact Hbefore |].
    unfold replicateRunWithRetry. split; [exact He|]. split.
    + rewrite Ha. lia.
    + rewrite Hs. f_equal. f_equal. lia.
  - intros k output Hk Hbefore Hrun.
    eapply (retryLoop_returns run maxRetries k output); eauto; lia.
Qed.

(** *** How the wrapper ends *)

Lemma retryLoop_ends (run : nat -> callResult) (maxRetries : nat) :
  forall remaining attempt,
    (attempt + remaining = S maxRetries)%nat -> (0 < remaining)%nat ->
    let res := retryLoop run maxRetries remaining attempt in
    snd res <> LoopEnded
    /\ attempts (fst res) = S (List.length (sleeps (fst res)))
    /\ (forall output, snd res = Returned output ->
          exists k, (k <= maxRetries)%nat /\ run k = Success output)
    /\ (forall err, snd res = Thrown err ->
          exists k, (k <= maxRetries)%nat /\ run k = Failure err
                    /\ (is429 err = false \/ k = maxRetries)).
Proof.
  unfold attempts, sleeps.
  induction remaining as [|remaining IH]; intros attempt Hsum Hpos; [lia|].
  cbn -[Nat.ltb is429 waitMs].
  destruct (run attempt) as [output|err] eqn:Hrun; cbn -[Nat.ltb is429 waitMs].
  - split; [discriminate|]. split; [reflexivity|]. split.
    + intros o Ho. injection Ho as <-. exists attempt. split; [lia | exact Hrun].
    + intros e He. discriminate He.
  - destruct (is429 err && Nat.ltb attempt maxRetries)%bool eqn:E;
      cbn -[Nat.ltb is429 waitMs].
    + apply andb_prop in E. destruct E as [_ E]. apply Nat.ltb_lt in E.
      specialize (IH (S attempt)).
      destruct IH as [IHend [IHcount [IHret IHthrow]]]; [lia | lia |].
      destruct (retryLoop run maxRetries remaining (S attempt)) as [events e'].
      cbn -[Nat.ltb is429 waitMs] in *.
      split; [exact IHend|]. split; [rewrite IHcount; reflexivity|].
      split; assumption.
    + split; [discriminate|]. split; [reflexivity|]. split.
      * intros o Ho. discriminate Ho.
      * intros e He. injection He as <-. exists attempt.
        split; [lia|]. split; [exact Hrun|].
        apply andb_false_iff in E. destruct E as [E|E]; [left; exact E|].
        right. apply Nat.ltb_ge in E. lia.
Qed.

(** X18. The retry wrapper never leaves its loop without an outcome: it
    returns what one of its calls returned, or throws the error of its
    last call, which is not a rate-limit error or is the error of the
    last attempt allowed; and it sleeps once between two calls, never
    after the last one. *)
Theorem retry_wrapper_outcome (run : nat -> callResult) (maxRetries : nat) :
  let res := replicateRunWithRetry run maxRetries in
  snd res <> LoopEnded
  /\ attempts (fst res) = S (List.length (sleeps (fst res)))
  /\ (forall output, snd res = Returned output ->
        exists k, (k <= maxRetries)%nat /\ run k = Success output)
  /\ (forall err, snd res = Thrown err ->
        exists k, (k <= maxRetries)%nat /\ run k = Failure err
                  /\ (is429 err = false \/ k = maxRetries)).
Proof.
  unfold replicateRunWithRetry. apply retryLoop_ends; lia.
Qed.

End Retry.

Arguments Success {Output} output.
Arguments Failure {Output} err.
Arguments Returned {Output} output.
Arguments Thrown {Output} err.
Arguments LoopEnded {Output}.

(** Four failures in a row with the message of a throttled request that
    says [resets in ~7s], and no header: the fourth is rethrown after
    three waits of 9000 ms. *)
Lemma retry_wrapper_contract_witness :
  saysResetsIn "Request was throttled. Your rate limit resets in ~7s."
    (chars "7")
  /\ waitMs (Error "Request was throttled. Your rate limit resets in ~7s." None)
     = 9000
  /\ snd (replicateRunWithRetry unit
            (fun _ =>
               Failure
                 (Error "Request was throttled. Your rate limit resets in ~7s."
                    None)) 3)
     = Thrown (Error "Request was throttled. Your rate limit resets in ~7s." None)
  /\ sleeps
       (fst (replicateRunWithRetry unit
          (fun _ =>
             Failure
               (Error "Request was throttled. Your rate limit resets in ~7s."
                  None)) 3))
     = [9000; 9000; 9000].
Proof.
  assert (Hsays : saysResetsIn
                    "Request was throttled. Your rate limit resets in ~7s."
                    (chars "7")).
  { exists (chars "Request was throttled. Your rate limit "),
      (chars "resets in ~"), (chars "s.").
    split; [reflexivity|]. split; [vm_compute; reflexivity|]. split.
    - exists (chars "reset"), (chars "s"), (chars " "), (chars "in"),
        (chars " "), (chars "~").
      split; [reflexivity|]. split; [reflexivity|].
      split; [right; reflexivity|].
      split; [split; [discriminate | repeat constructor]|].
      split; [reflexivity|].
      split; [split; [discriminate | repeat constructor]|].
      right. reflexivity.
    - split; [discriminate|]. split; [repeat constructor | reflexivity]. }
  destruct (retry_wrapper_contract unit
              (fun _ =>
                 Failure
                   (Error "Request was throttled. Your rate limit resets in ~7s."
                      None)) 3)
    as (_ & _ & _ & _ & Hhint & _ & _ & _ & _ & _ & _ & _ & Hthrow & _).
  split; [exact Hsays|].
  split.
  { exact (proj2 (Hhint _ None (chars "7") (or_introl eq_refl)
                    (or_introl Hsays))). }
  destruct (Hthrow 3%nat
              (Error "Request was throttled. Your rate limit resets in ~7s." None))
    as [He [_ Hs]].
  - apply le_n.
  - intros j _.
    exists (Error "Request was throttled. Your rate limit resets in ~7s." None).
    split; reflexivity.
  - reflexivity.
  - right. reflexivity.
  - split; [exact He | exact Hs].
Defined.

(** A header that does not read as an integer makes the wait 15 seconds
    although the message hints at 7 seconds, which, with no header, make
    a wait of 9 seconds. *)
Lemma unreadable_header_skips_hint :
  resetHint "rate limit resets in ~7s" = Some 7
  /\ waitMs (Error "rate limit resets in ~7s" (Some "soon")) = 15000
  /\ waitMs (Error "rate limit resets in ~7s" None) = 9000.
Proof. repeat split; vm_compute; reflexivity. Qed.

(** *** Properties of the download limit *)

Lemma min_step_cases (lowest x : number) :
  min_step lowest x = lowest \/ min_step lowest x = x \/ min_step lowest x = NaN.
Proof.
  unfold min_step. destruct (isNaN lowest || isNaN x)%bool; [right; right; reflexivity|].
  destruct x as [[|]| | |]; destruct lowest as [[|]| | |];
    try (destruct (ltb _ _); [right; left; reflexivity | left; reflexivity]);
    right; left; reflexivity.
Qed.

Lemma maxVideosLimit_wanted (parsed : number) :
  let wanted := if truthy (VNum parsed) then parsed else Num.ofZ 10 in
  let limit := Math_min [Math_max [wanted; Num.ofZ 1]; Num.ofZ 100] in
  isNaN limit = false
  /\ leb (Num.ofZ 1) limit = true
  /\ leb limit (Num.ofZ 100) = true.
Proof.
  intros wanted limit.
  assert (Hw : isNaN wanted = false).
  { subst wanted. cbn [truthy]. destruct (isNaN parsed) eqn:E; [reflexivity|].
    destruct (isZero parsed); [reflexivity | exact E]. }
  assert (H1 : isNaN (Num.ofZ 1) = false) by reflexivity.
  assert (H100 : isNaN (Num.ofZ 100) = false) by reflexivity.
  unfold Math_min, Math_max in limit. cbn [fold_left] in limit.
  destruct (max_step_spec (S754_infinity true) wanted eq_refl Hw) as [Ha [_ _]].
  destruct (max_step_spec _ (Num.ofZ 1) Ha H1) as [Hb [_ Hb1]].
  set (m := max_step (max_step (S754_infinity true) wanted) (Num.ofZ 1)) in *.
  destruct (min_step_spec (S754_infinity false) m eq_refl Hb) as [Hc [_ Hcm]].
  destruct (min_step_spec _ (Num.ofZ 100) Hc H100) as [Hd [_ Hd100]].
  split; [exact Hd|]. split; [|exact Hd100].
  subst limit.
  destruct (min_step_cases (min_step (S754_infinity false) m) (Num.ofZ 100))
    as [E|[E|E]].
  - rewrite E.
    destruct (min_step_cases (S754_infinity false) m) as [E'|[E'|E']].
    + rewrite E'. reflexivity.
    + rewrite E'. exact Hb1.
    + rewrite E' in Hc. discriminate Hc.
  - rewrite E. reflexivity.
  - rewrite E in Hd. discriminate Hd.
Qed.

(** X19. Whatever the body of the request gives as [maxVideos], the
    number of videos asked of the download is a number between 1 and 100;
    it is 10 when [maxVideos] is missing or does not start with an
    integer. *)
Theorem maxVideosLimit_bounds (maxVideos : value) :
  isNaN (maxVideosLimit maxVideos) = false
  /\ leb (Num.ofZ 1) (maxVideosLimit maxVideos) = true
  /\ leb (maxVideosLimit maxVideos) (Num.ofZ 100) = true
  /\ maxVideosLimit VUndefined = Num.ofZ 10
  /\ (maxVideos <> VUndefined ->
      parseInt10 (toString maxVideos) = None ->
      maxVideosLimit maxVideos = Num.ofZ 10).
Proof.
  split; [|split; [|split; [|split]]].
  - apply maxVideosLimit_wanted.
  - apply maxVideosLimit_wanted.
  - apply maxVideosLimit_wanted.
  - vm_compute. reflexivity.
  - intros Hv Hp. unfold maxVideosLimit.
    assert (Hg : match maxVideos with
                 | VUndefined => VNum (Num.ofZ 10)
                 | v => v
                 end = maxVideos) by (destruct maxVideos; congruence).
    rewrite Hg, Hp. vm_compute. reflexivity.
Qed.

Lemma maxVideosLimit_bounds_witness :
  maxVideosLimit (VStr "250") = Num.ofZ 100
  /\ maxVideosLimit (VNum (Num.ofZ (-3))) = Num.ofZ 1
  /\ maxVideosLimit (VStr "7.9") = Num.ofZ 7
  /\ maxVideosLimit (VStr "many") = Num.ofZ 10
  /\ leb (maxVideosLimit (VStr "250")) (Num.ofZ 100) = true.
Proof.
  do 4 (split; [vm_compute; reflexivity|]).
  apply (maxVideosLimit_bounds (VStr "250")).
Defined.

End Server.

(** ** [server/youtubeDownload.js]: the address of a channel *)

Module YoutubeDownload.
Local Open Scope list_scope.

(** [[a-zA-Z0-9_-]] *)
Definition isIdChar (c : ascii) : bool := (isWord c || Ascii.eqb c "-")%bool.

(** [/youtube\.com\/@([a-zA-Z0-9_]+)/],
    [/youtube\.com\/channel\/([a-zA-Z0-9_-]+)/] and
    [/youtube\.com\/c\/([a-zA-Z0-9_]+)/] *)
Definition reHandle : regex :=
  RSeq (RLit "youtube.com/@") (RGroup (RPlus (RSet isWord))).
Definition reChannel : regex :=
  RSeq (RLit "youtube.com/channel/") (RGroup (RPlus (RSet isIdChar))).
Definition reCustom : regex :=
  RSeq (RLit "youtube.com/c/") (RGroup (RPlus (RSet isWord))).

(** What [parseChannelUrl] returns: the kind of the address and the name
    it holds. *)
Record channelRef : Type := ChannelRef {
  ref_type : string;
  ref_value : string
}.

Definition parseChannelUrl (url : value) : option channelRef :=
  let str := trim (toString (orValue url (VStr ""))) in
  match matchGroup false reHandle str with
  | Some handle => Some (ChannelRef "handle" handle)
  | None =>
      match matchGroup false reChannel str with
      | Some channel => Some (ChannelRef "channelId" channel)
      | None =>
          match matchGroup false reCustom str with
          | Some custom => Some (ChannelRef "custom" custom)
          | None => None
          end
      end
  end.

(** The characters that the name of a reference of each kind may hold, and
    what precedes the name in the address. *)
Definition nameChar (kind : string) : ascii -> bool :=
  if String.eqb kind "channelId" then isIdChar else isWord.

Definition marker (kind : string) : string :=
  if String.eqb kind "handle" then "youtube.com/@"
  else if String.eqb kind "channelId" then "youtube.com/channel/"
  else "youtube.com/c/".

(** X20. The reference that [parseChannelUrl] reads in an address has
    one of the three kinds; its name is not empty, holds only letters,
    digits and underscores (and hyphens in a channel identifier), follows
    in the trimmed address the marker of its kind, and stops where the
    allowed characters stop. *)
Theorem parseChannelUrl_reference (url : value) (ref : channelRef) :
  parseChannelUrl url = Some ref ->
  In (ref_type ref) ["handle"; "channelId"; "custom"]
  /\ ref_value ref <> ""
  /\ Forall (fun c => nameChar (ref_type ref) c = true) (chars (ref_value ref))
  /\ exists pre post,
       chars (trim (toString (orValue url (VStr ""))))
       = pre ++ chars (marker (ref_type ref)) ++ chars (ref_value ref) ++ post
       /\ runEnds (nameChar (ref_type ref)) post.
Proof.
  unfold parseChannelUrl. intro H.
  set (str := trim (toString (orValue url (VStr "")))) in *.
  destruct (matchGroup false reHandle str) as [v|] eqn:E1;
    [|destruct (matchGroup false reChannel str) as [v|] eqn:E2;
      [|destruct (matchGroup false reCustom str) as [v|] eqn:E3;
        [|discriminate H]]];
    injection H as <-; cbn [ref_type ref_value];
    match goal with
    | E : matchGroup false _ str = Some v |- _ =>
        destruct (matchGroup_after _ _ _ _ E) as [pre [post [Hs [Hne [Hp He]]]]]
    end;
    (split; [cbn; tauto|]); (split; [exact Hne|]); (split; [exact Hp|]);
    exists pre, post; (split; [exact Hs | exact He]).
Qed.

Lemma parseChannelUrl_reference_witness :
  parseChannelUrl (VStr " https://www.youtube.com/@veritasium/videos ")
  = Some (ChannelRef "handle" "veritasium")
  /\ ChannelRef "handle" "veritasium" <> ChannelRef "handle" "".
Proof.
  assert (H : parseChannelUrl (VStr " https://www.youtube.com/@veritasium/videos ")
              = Some (ChannelRef "handle" "veritasium"))
    by (vm_compute; reflexivity).
  split; [exact H|].
  destruct (parseChannelUrl_reference _ _ H) as [_ [Hne _]].
  intro E. apply Hne. injection E as E. discriminate E.
Defined.

End YoutubeDownload.

(** ** [src/services/youtubeDownload.js]: the stream of a channel download *)

Module ChannelStream.
Local Open Scope list_scope.

Section Stream.

(** The type of the [data] of a [complete] event. *)
Variable Data : Type.

(** What [JSON.parse] makes of a line, as far as the reader looks at it:
    nothing (a [SyntaxError]), [null] (whose [type] cannot be read), an
    event of one of the three types, or any other value. *)
Inductive parsedLine : Type :=
| Malformed
| NullValue
| ProgressEvent (progress message : value)
| CompleteEvent (data : Data)
| ErrorEvent (error : string)
| OtherValue.

Variable JSON_parse : string -> parsedLine.

(** What the reader throws. *)
Inductive failure : Type :=
| ServerError (message : string)
| NullTypeError
| SyntaxError.

(** The state of the reader: the result so far ([null] at first) and the
    calls made to [onProgress]. *)
Record reader : Type := Reader {
  result : option Data;
  calls : list (value * value)
}.

(** The reader goes on, or it throws. *)
Inductive step (A : Type) : Type :=
| Go (a : A)
| Stop (thrown : failure) (at_state : reader).

Arguments Go {A} a.
Arguments Stop {A} thrown at_state.

(** The body of [for (const line of lines)]. *)
Definition handleLine (line : string) (s : reader) : step reader :=
  if String.eqb (trim line) "" then Go s
  else
    match JSON_parse line with
    | Malformed => Go s
    | NullValue => Stop NullTypeError s
    | ProgressEvent progress message =>
        Go (Reader (result s) (calls s ++ [(progress, message)]))
    | CompleteEvent data => Go (Reader (Some data) (calls s))
    | ErrorEvent error => Stop (ServerError error) s
    | OtherValue => Go s
    end.

Fixpoint handleLines (lines : list string) (s : reader) : step reader :=
  match lines with
  | [] => Go s
  | line :: lines' =>
      match handleLine line s with
      | Go s' => handleLines lines' s'
      | Stop thrown s' => Stop thrown s'
      end
  end.

(** One turn of the reading loop: the chunk is added to the buffer, the
    complete lines are handled, and the last piece is kept. *)
Definition receive (buffer chunk : string) (s : reader) : step (string * reader) :=
  let lines := split newline (buffer ++ chunk) in
  match handleLines (removelast lines) s with
  | Go s' => Go (last lines "", s')
  | Stop thrown s' => Stop thrown s'
  end.

Fixpoint readChunks (chunks : list string) (buffer : string) (s : reader)
  : step (string * reader) :=
  match chunks with
  | [] => Go (buffer, s)
  | chunk :: chunks' =>
      match receive buffer chunk s with
      | Go (buffer', s') => readChunks chunks' buffer' s'
      | Stop thrown s' => Stop thrown s'
      end
  end.

(** What follows the loop: a buffer that is not blank is parsed, outside
    any [try]. *)
Definition finish (buffer : string) (s : reader) : step reader :=
  if String.eqb (trim buffer) "" then Go s
  else
    match JSON_parse buffer with
    | Malformed => Stop SyntaxError s
    | NullValue => Stop NullTypeError s
    | CompleteEvent data => Go (Reader (Some data) (calls s))
    | ErrorEvent error => Stop (ServerError error) s
    | ProgressEvent _ _ | OtherValue => Go s
    end.

(** The reading of the body of an accepted response; [chunks] are the
    texts that the decoder makes of the chunks read. *)
Definition downloadChannelData (chunks : list string) : step reader :=
  match readChunks chunks "" (Reader None []) with
  | Go (buffer, s) => finish buffer s
  | Stop thrown s => Stop thrown s
  end.

(** The whole text received. *)
Fixpoint received (chunks : list string) : string :=
  match chunks with
  | [] => ""
  | chunk :: chunks' => chunk ++ received chunks'
  end.

(** The reading of a text received at once. *)
Definition readText (text : string) : step reader :=
  let lines := split newline text in
  match handleLines (removelast lines) (Reader None []) with
  | Go s => finish (last lines "") s
  | Stop thrown s => Stop thrown s
  end.

(** *** Lines and chunks *)

Lemma append_nil_r (s : string) : (s ++ "")%string = s.
Proof.
  induction s as [|c s IH]; [reflexivity|].
  change (String c s ++ "")%string with (String c (s ++ "")). rewrite IH.
  reflexivity.
Qed.

Lemma append_assoc (a b c : string) :
  ((a ++ b) ++ c)%string = (a ++ (b ++ c))%string.
Proof.
  induction a as [|x a IH]; [reflexivity|].
  change ((String x a ++ b) ++ c)%string with (String x ((a ++ b) ++ c)).
  rewrite IH. reflexivity.
Qed.

Lemma splitAux_not_nil (sep : ascii) (cur l : list ascii) :
  splitAux sep cur l <> [].
Proof.
  revert cur. induction l as [|c l IH]; intro cur; cbn [splitAux].
  - discriminate.
  - destruct (Ascii.eqb c sep); [discriminate | apply IH].
Qed.

Lemma splitAux_piece (sep : ascii) (m l cur : list ascii) :
  Forall (fun c => c <> sep) m ->
  splitAux sep cur (m ++ l) = splitAux sep (rev m ++ cur) l.
Proof.
  intro H. revert cur. induction H as [|c m Hc _ IH]; intro cur; [reflexivity|].
  cbn [app splitAux]. apply Ascii.eqb_neq in Hc. rewrite Hc.
  rewrite IH. cbn [rev]. rewrite <- app_assoc. reflexivity.
Qed.

Lemma splitAux_app (sep : ascii) (l1 l2 cur : list ascii) :
  Forall (fun c => c <> sep) cur ->
  splitAux sep cur (l1 ++ l2)
  = removelast (splitAux sep cur l1)
    ++ splitAux sep [] (chars (last (splitAux sep cur l1) "") ++ l2).
Proof.
  revert cur. induction l1 as [|c l1 IH]; intros cur Hcur.
  - cbn [app splitAux removelast last]. rewrite chars_ofChars.
    rewrite splitAux_piece by (apply Forall_rev; exact Hcur).
    rewrite rev_involutive, app_nil_r. reflexivity.
  - cbn [app splitAux]. destruct (Ascii.eqb c sep) eqn:E.
    + rewrite (IH [] (Forall_nil _)).
      pose proof (splitAux_not_nil sep [] l1) as Hne.
      destruct (splitAux sep [] l1) as [|x xs] eqn:Ex; [contradiction|].
      reflexivity.
    + apply IH. constructor; [apply Ascii.eqb_neq; exact E | exact Hcur].
Qed.

Lemma split_app (sep : ascii) (a b : string) :
  split sep (a ++ b)
  = removelast (split sep a) ++ split sep (last (split sep a) "" ++ b).
Proof.
  unfold split. rewrite !chars_append. apply splitAux_app. constructor.
Qed.

Lemma last_app_cons {A} (l1 l2 : list A) (d : A) :
  l2 <> [] -> last (l1 ++ l2) d = last l2 d.
Proof.
  intro H. induction l1 as [|x l1 IH]; [reflexivity|].
  cbn [app]. destruct (l1 ++ l2) eqn:E.
  - destruct l1; [cbn in E; contradiction | discriminate E].
  - cbn [last]. exact IH.
Qed.

Lemma handleLines_app (l1 l2 : list string) (s : reader) :
  handleLines (l1 ++ l2) s
  = match handleLines l1 s with
    | Go s' => handleLines l2 s'
    | Stop thrown s' => Stop thrown s'
    end.
Proof.
  revert s. induction l1 as [|line l1 IH]; intro s; [reflexivity|].
  cbn [app handleLines]. destruct (handleLine line s); [apply IH | reflexivity].
Qed.

Lemma readChunks_text (chunks : list string) :
  forall (text : string) (s : reader),
    handleLines (removelast (split newline text)) (Reader None []) = Go s ->
    readChunks chunks (last (split newline text) "") s
    = let lines := split newline (text ++ received chunks) in
      match handleLines (removelast lines) (Reader None []) with
      | Go s' => Go (last lines "", s')
      | Stop thrown s' => Stop thrown s'
      end.
Proof.
  induction chunks as [|chunk chunks IH]; intros text s Hs; cbv zeta.
  - cbn [readChunks received]. rewrite append_nil_r, Hs. reflexivity.
  - cbn [readChunks received]. unfold receive. cbv zeta.
    set (buffer := last (split newline text) "").
    assert (Hne : forall t, split newline t <> [])
      by (intro t; apply splitAux_not_nil).
    assert (Hstep : handleLines (removelast (split newline (text ++ chunk)))
                      (Reader None [])
                    = handleLines (removelast (split newline (buffer ++ chunk))) s).
    { rewrite split_app. fold buffer.
      rewrite removelast_app by apply Hne.
      rewrite handleLines_app, Hs. reflexivity. }
    assert (Hlast : last (split newline (text ++ chunk)) ""
                    = last (split newline (buffer ++ chunk)) "").
    { rewrite split_app. fold buffer. apply last_app_cons. apply Hne. }
    rewrite <- append_assoc.
    destruct (handleLines (removelast (split newline (buffer ++ chunk))) s)
      as [s'|thrown s'] eqn:E.
    + rewrite <- Hlast. apply IH. rewrite Hstep. reflexivity.
    + rewrite (split_app newline (text ++ chunk)).
      rewrite removelast_app by apply Hne.
      rewrite handleLines_app, Hstep. reflexivity.
Qed.

Lemma downloadChannelData_text (chunks : list string) :
  downloadChannelData chunks = readText (received chunks).
Proof.
  unfold downloadChannelData, readText.
  change (readChunks chunks "" (Reader None []))
    with (readChunks chunks (last (split newline "") "") (Reader None [])).
  rewrite (readChunks_text chunks "" (Reader None []) eq_refl). cbv zeta.
  change ("" ++ received chunks)%string with (received chunks).
  destruct (handleLines _ _); reflexivity.
Qed.

(** X21. The reading of a download does not depend on how the body of
    the response is cut into chunks: two sequences of chunks that make
    the same text give the same result, the same calls of [onProgress]
    and the same error, which are those of the text read at once, line by
    line, its last piece being read after the others. *)
Theorem downloadChannelData_chunks (chunks chunks' : list string) :
  received chunks = received chunks' ->
  downloadChannelData chunks = downloadChannelData chunks'
  /\ downloadChannelData chunks = readText (received chunks).
Proof.
  intro H. rewrite !downloadChannelData_text, H. split; reflexivity.
Qed.

End Stream.

Arguments Malformed {Data}.
Arguments NullValue {Data}.
Arguments ProgressEvent {Data} progress message.
Arguments CompleteEvent {Data} data.
Arguments ErrorEvent {Data} error.
Arguments OtherValue {Data}.
Arguments Go {Data A} a.
Arguments Stop {Data A} thrown at_state.

Lemma downloadChannelData_chunks_witness :
  let parse (line : string) : parsedLine nat :=
    if String.eqb line "done" then CompleteEvent 7%nat
    else if String.eqb line "half" then ProgressEvent (VStr "50") (VStr "half")
    else Malformed in
  downloadChannelData nat parse ["ha"; ("lf" ++ String newline "do")%string; "ne"]
  = downloadChannelData nat parse [("half" ++ String newline "done")%string]
  /\ downloadChannelData nat parse [("half" ++ String newline "done")%string]
     = Go (Reader nat (Some 7%nat) [(VStr "50", VStr "half")]).
Proof.
  intro parse. split.
  - apply (downloadChannelData_chunks nat parse
             ["ha"; ("lf" ++ String newline "do")%string; "ne"]
             [("half" ++ String newline "done")%string]).
    reflexivity.
  - vm_compute. reflexivity.
Defined.

End ChannelStream.
